(** * TypedJSON: the converter facade, the member decorators and the
      conversion core, embedded in Rocq.

    Sources embedded here:
    - [typedjson.ts] (the [TypedJSON] class: configuration, constructor,
      [parse], [parseAsArray], [parseAsSet], [parseAsMap], [stringify] and
      its container variants, [_mapKnownTypes]);
    - [typedjson/json-member.ts] ([jsonMember], [isSpecialPropertyType]);
    - [typedjson/json-set-member.ts] ([jsonSetMember]).

    JavaScript values are one inductive type [val]; a method that can log,
    call the error handler or throw is a computation in the monad [M], which
    returns the events it produced and either a value or the exception that
    left it. *)

From Stdlib Require Import ZArith Ascii String List Bool Lia.
From Stdlib Require Import DecimalString DecimalZ.
From stdpp Require Import base option list strings gmap pretty.

Local Open Scope string_scope.
Local Open Scope list_scope.
Set Warnings "-register-all".

(** ** JavaScript values *)

Module Js.

(** Constructor functions.  Two classes are the same constructor only when
    they are the same function object ([id]); their [name] may coincide. *)
Inductive Ctor : Type :=
| CObject | CArray | CSet | CMap | CNumber | CString | CBoolean | CDate
| CClass (id : positive) (name : string).

#[global] Instance Ctor_eq_dec : EqDecision Ctor.
Proof. solve_decision. Defined.

(** Modelled from the spec: [Helpers.nameof] ([typedjson/helpers.ts] is not
    part of the sources at hand) gives the name a type resolves to by
    default, the [name] property of its constructor function. *)
Definition nameof (c : Ctor) : string :=
  match c with
  | CObject => "Object" | CArray => "Array" | CSet => "Set" | CMap => "Map"
  | CNumber => "Number" | CString => "String" | CBoolean => "Boolean"
  | CDate => "Date"
  | CClass _ n => n
  end.

(** Values.  Numbers are the integers; a [Date] is its time value; an object
    carries the constructor of its prototype and its own properties in
    insertion order; a [Set] and a [Map] carry their entries in iteration
    order. *)
Inductive val : Type :=
| VUndefined
| VNull
| VNum (n : Z)
| VStr (s : string)
| VBool (b : bool)
| VDate (ms : Z)
| VArr (items : list val)
| VObj (ctor : Ctor) (props : list (string * val))
| VSet (items : list val)
| VMap (entries : list (val * val)).

(** [typeof v]. *)
Definition typeof (v : val) : string :=
  match v with
  | VUndefined => "undefined"
  | VNum _ => "number"
  | VStr _ => "string"
  | VBool _ => "boolean"
  | _ => "object"
  end.

(** [v.constructor]; reading a property of [undefined] or [null] throws, which
    is [None] here. *)
Definition constructor_of (v : val) : option Ctor :=
  match v with
  | VUndefined | VNull => None
  | VNum _ => Some CNumber
  | VStr _ => Some CString
  | VBool _ => Some CBoolean
  | VDate _ => Some CDate
  | VArr _ => Some CArray
  | VObj c _ => Some c
  | VSet _ => Some CSet
  | VMap _ => Some CMap
  end.

(** The constructors on the prototype chain of [v]; [superclasses c] lists the
    proper ancestors of a class.  Primitives have no chain: [5 instanceof
    Number] is false. *)
Definition prototype_chain (superclasses : Ctor -> list Ctor) (v : val) : list Ctor :=
  match v with
  | VObj c _ => c :: superclasses c ++ [CObject]
  | VArr _ => [CArray; CObject]
  | VSet _ => [CSet; CObject]
  | VMap _ => [CMap; CObject]
  | VDate _ => [CDate; CObject]
  | _ => []
  end.

Definition instanceof (superclasses : Ctor -> list Ctor) (v : val) (c : Ctor) : bool :=
  bool_decide (c ∈ prototype_chain superclasses v).

(** Modelled from the spec: [Helpers.isValueDefined] ([typedjson/helpers.ts]
    is not part of the sources at hand) tells a value from an absent one,
    [undefined] or [null]. *)
Definition isValueDefined (v : val) : bool :=
  match v with VUndefined | VNull => false | _ => true end.

(** An optional property of an options object: not there, there with
    [undefined] or [null], or there with a value.  Object spread and
    [Object.assign] copy a property that is there, whatever its value. *)
Inductive field (A : Type) : Type :=
| Absent
| Nullish
| Given (a : A).
Arguments Absent {A}.
Arguments Nullish {A}.
Arguments Given {A} a.

(** [{...g, ...s}.p], and [Object.assign(g, s).p]. *)
Definition spread {A} (g s : field A) : field A :=
  match s with Absent => g | _ => s end.

(** The value of a property that holds an object or a function, when truthy. *)
Definition truthy {A} (f : field A) : option A :=
  match f with Given a => Some a | _ => None end.

(** The value of a numeric property, when truthy. *)
Definition truthy_num (f : field Z) : option Z :=
  match f with Given n => if (n =? 0)%Z then None else Some n | _ => None end.

(** [x || false] for an optional boolean. *)
Definition or_false (f : field bool) : bool :=
  match f with Given b => b | _ => false end.

(** ** Exceptions, events and the effect monad *)

(** The error kinds of the conversion core. *)
Inductive ErrorKind : Type :=
| UnresolvableConstructor
| TypeShapeMismatch
| MissingRequiredMember
| AmbiguousTypeName
| UnregisteredType.

Inductive Exn : Type :=
| TypeError (msg : string)
| SyntaxError (msg : string)
| RangeError (msg : string)
| ConversionError (kind : ErrorKind) (detail : string)
| UserError (tag : string).

#[global] Instance ErrorKind_eq_dec : EqDecision ErrorKind.
Proof. solve_decision. Defined.

#[global] Instance Exn_eq_dec : EqDecision Exn.
Proof. solve_decision. Defined.

(** What a call leaves behind besides its result: console output of
    [Helpers.logError] and [Helpers.logWarning], and each invocation of the
    converter's error handler. *)
Inductive Event : Type :=
| ConsoleError (msg : string)
| ConsoleErrorExn (e : Exn)
| ConsoleWarn (msg : string)
| Handled (e : Exn).

Inductive result (A : Type) : Type :=
| Ret (a : A)
| Throw (e : Exn).
Arguments Ret {A} a.
Arguments Throw {A} e.

Definition M (A : Type) : Type := (list Event * result A)%type.

Definition ret {A} (a : A) : M A := ([], Ret a).
Definition throw {A} (e : Exn) : M A := ([], Throw e).
Definition emit (ev : Event) : M unit := ([ev], Ret tt).

Definition bind {A B} (m : M A) (k : A -> M B) : M B :=
  match m with
  | (evs, Ret a) => let '(evs', r) := k a in (evs ++ evs', r)
  | (evs, Throw e) => (evs, Throw e)
  end.

(** [try { m } catch (e) { h(e) }]. *)
Definition try_catch {A} (m : M A) (h : Exn -> M A) : M A :=
  match m with
  | (evs, Ret a) => (evs, Ret a)
  | (evs, Throw e) => let '(evs', r) := h e in (evs ++ evs', r)
  end.

(** A loop over a list, collecting the results, and one threading an
    accumulator. *)
Definition traverse {A B} (f : A -> M B) : list A -> M (list B) :=
  fix each (l : list A) : M (list B) :=
    match l with
    | [] => ret []
    | x :: l' => bind (f x) (fun y => bind (each l') (fun ys => ret (y :: ys)))
    end.

Definition foldM {A B} (f : B -> A -> M B) : list A -> B -> M B :=
  fix each (l : list A) (acc : B) : M B :=
    match l with
    | [] => ret acc
    | x :: l' => bind (f acc x) (fun acc' => each l' acc')
    end.

Definition events {A} (m : M A) : list Event := fst m.
Definition outcome {A} (m : M A) : result A := snd m.

(** The value a computation returns, [fallback] when it throws. *)
Definition value_of {A} (m : M A) (fallback : A) : A :=
  match outcome m with Ret a => a | Throw _ => fallback end.

End Js.

Export Js.

Notation "'let!' x ':=' m 'in' k" := (bind m (fun x => k))
  (at level 10, x name, m at level 100, k at level 200).
Notation "m ';;' k" := (bind m (fun _ => k))
  (at level 100, k at level 200, right associativity).

(** ** The metadata registry

    [typedjson/metadata.ts] is not part of the sources at hand; the records
    below hold the fields that [typedjson.ts], [json-member.ts] and
    [json-set-member.ts] read and write. *)

Module Metadata.

(** [JsonMemberMetadata].  [elementType] and [keyType] are set by the
    container decorators only; [isRequired] and [emitDefaultValue] stay
    unassigned ([None]) when the decorator is applied without options. *)
Record JsonMemberMetadata : Type := {
  ctor : Ctor;
  elementType : list Ctor;
  keyType : option Ctor;
  key : string;
  name : string;
  isRequired : option bool;
  emitDefaultValue : option bool
}.

(** [JsonObjectMetadata]: [dataMembers] in insertion order, [knownTypes] in
    the iteration order of the set. *)
Record JsonObjectMetadata : Type := {
  isExplicitlyMarked : bool;
  knownTypes : list Ctor;
  dataMembers : list JsonMemberMetadata
}.

(** The registry: what [JsonObjectMetadata.getFromConstructor] answers. *)
Definition Registry : Type := Ctor -> option JsonObjectMetadata.

End Metadata.

(** ** Settings *)

Module Settings.

Definition ErrorHandler : Type := Exn -> M unit.
Definition TypeResolver : Type := val -> gmap string Ctor -> option Ctor.
Definition NameResolver : Type := Ctor -> string.
Definition TypeHintEmitter : Type := val -> val -> Ctor -> val.
Definition Replacer : Type := string -> val -> val.

(** An element of a [knownTypes] array. *)
Inductive KnownTypeEntry : Type :=
| KtUndefined
| KtNull
| KtCtor (c : Ctor).

#[global] Instance KnownTypeEntry_eq_dec : EqDecision KnownTypeEntry.
Proof. solve_decision. Defined.

(** [ITypedJSONSettings]. *)
Record ITypedJSONSettings : Type := {
  errorHandler : field ErrorHandler;
  typeResolver : field TypeResolver;
  nameResolver : field NameResolver;
  typeHintEmitter : field TypeHintEmitter;
  indent : field Z;
  replacer : field Replacer;
  knownTypes : field (list KnownTypeEntry)
}.

(** The object literal [{}]. *)
Definition empty : ITypedJSONSettings :=
  {| errorHandler := Absent; typeResolver := Absent; nameResolver := Absent;
     typeHintEmitter := Absent; indent := Absent; replacer := Absent;
     knownTypes := Absent |}.

(** [{...g, ...s}]; [Object.assign(g, s)] leaves the same properties in [g]. *)
Definition assign (g s : ITypedJSONSettings) : ITypedJSONSettings :=
  {| errorHandler := spread (errorHandler g) (errorHandler s);
     typeResolver := spread (typeResolver g) (typeResolver s);
     nameResolver := spread (nameResolver g) (nameResolver s);
     typeHintEmitter := spread (typeHintEmitter g) (typeHintEmitter s);
     indent := spread (indent g) (indent s);
     replacer := spread (replacer g) (replacer s);
     knownTypes := spread (knownTypes g) (knownTypes s) |}.

Definition with_knownTypes (s : ITypedJSONSettings) (kts : field (list KnownTypeEntry))
  : ITypedJSONSettings :=
  {| errorHandler := errorHandler s; typeResolver := typeResolver s;
     nameResolver := nameResolver s; typeHintEmitter := typeHintEmitter s;
     indent := indent s; replacer := replacer s; knownTypes := kts |}.

(** [Array.from(new Set(l))]: the first occurrence of each element, in order. *)
Definition dedupe {A} `{EqDecision A} (l : list A) : list A :=
  foldl (fun acc x => if bool_decide (x ∈ acc) then acc else acc ++ [x]) [] l.

End Settings.

(** ** The converter: [typedjson.ts] *)

Module Facade.

Import Settings.

(** The state a [Serializer] and a [Deserializer] keep: what their setters
    ([setErrorHandler], [setTypeHintEmitter], [setTypeResolver],
    [setNameResolver]) were last given, [None] before any call. *)
Record SerializerState : Type := {
  ser_errorHandler : option ErrorHandler;
  ser_typeHintEmitter : option TypeHintEmitter
}.

Record DeserializerState : Type := {
  des_errorHandler : option ErrorHandler;
  des_typeResolver : option TypeResolver;
  des_nameResolver : option NameResolver
}.

(** The type information handed to the deserializer with each call. *)
Record TypeInfo : Type := {
  selfConstructor : Ctor;
  elementConstructor : option (list Ctor);
  keyConstructor : option Ctor;
  knownTypes : gmap string Ctor
}.

(** The methods of [Serializer] and [Deserializer] that the converter calls.
    Both classes live in files that are not part of the sources at hand: the
    converter is embedded over any implementation of them. *)
Record Serializer : Type := {
  ser_convertSingleValue : SerializerState -> val -> Ctor -> M val;
  ser_convertAsArray : SerializerState -> val -> list Ctor -> M val;
  ser_convertAsSet : SerializerState -> val -> Ctor -> M val;
  ser_convertAsMap : SerializerState -> val -> Ctor -> Ctor -> M val
}.

Record Deserializer : Type := {
  des_convertSingleValue : DeserializerState -> val -> TypeInfo -> M val;
  des_convertAsArray : DeserializerState -> val -> TypeInfo -> M val;
  des_convertAsSet : DeserializerState -> val -> TypeInfo -> M val;
  des_convertAsMap : DeserializerState -> val -> TypeInfo -> M val
}.

(** What the converter takes from its surroundings: the metadata registry,
    the class hierarchy, and the platform's [JSON.parse] and
    [JSON.stringify]. *)
Record Host : Type := {
  getFromConstructor : Metadata.Registry;
  superclasses : Ctor -> list Ctor;
  JSON_parse : string -> M val;
  JSON_stringify : val -> option Replacer -> Z -> M val
}.

(** The instance fields of a [TypedJSON]. *)
Record TypedJSON : Type := {
  serializer : SerializerState;
  deserializer : DeserializerState;
  globalKnownTypes : list KnownTypeEntry;
  indent : Z;
  rootConstructor : Ctor;
  errorHandler : ErrorHandler;
  nameResolver : NameResolver;
  replacer : option Replacer
}.

(** [TypedJSON.setGlobalConfig]; the static [_globalConfig] is threaded
    through as [G], [None] while it is still undefined. *)
Definition setGlobalConfig (G : option ITypedJSONSettings) (config : ITypedJSONSettings)
  : option ITypedJSONSettings :=
  match G with
  | Some g => Some (Settings.assign g config)
  | None => Some config
  end.

(** The first statement of [config]: [settings] merged over the global
    configuration, the two [knownTypes] arrays concatenated and
    de-duplicated. *)
Definition merge_global (G : option ITypedJSONSettings) (settings : ITypedJSONSettings)
  : ITypedJSONSettings :=
  match G with
  | Some g =>
      let settings := Settings.assign g settings in
      match truthy (Settings.knownTypes settings), truthy (Settings.knownTypes g) with
      | Some kts, Some gkts =>
          Settings.with_knownTypes settings (Given (Settings.dedupe (kts ++ gkts)))
      | _, _ => settings
      end
  | None => settings
  end.

(** The warnings of the [knownTypes.forEach] in [config]. *)
Definition knownTypes_warnings (kts : list KnownTypeEntry) : list Event :=
  omap id (imap (fun i kt =>
    match kt with
    | KtCtor _ => None
    | _ => Some (ConsoleWarn
        ("TypedJSON.config: 'knownTypes' contains an undefined/null value (element "
           +:+ pretty i +:+ ")."))
    end) kts).

(** The assignments of [config]: to the error handler (of the converter, the
    deserializer and the serializer), the replacer, the type resolver, the
    type-hint emitter, the indentation, the name resolver (of the converter
    and the deserializer) and the known types. *)
Definition set_errorHandler (h : ErrorHandler) (this : TypedJSON) : TypedJSON :=
  {| serializer := {| ser_errorHandler := Some h;
                      ser_typeHintEmitter := ser_typeHintEmitter (serializer this) |};
     deserializer := {| des_errorHandler := Some h;
                        des_typeResolver := des_typeResolver (deserializer this);
                        des_nameResolver := des_nameResolver (deserializer this) |};
     globalKnownTypes := globalKnownTypes this; indent := indent this;
     rootConstructor := rootConstructor this; errorHandler := h;
     nameResolver := nameResolver this; replacer := replacer this |}.

Definition set_replacer (r : Replacer) (this : TypedJSON) : TypedJSON :=
  {| serializer := serializer this; deserializer := deserializer this;
     globalKnownTypes := globalKnownTypes this; indent := indent this;
     rootConstructor := rootConstructor this; errorHandler := errorHandler this;
     nameResolver := nameResolver this; replacer := Some r |}.

Definition set_typeResolver (r : TypeResolver) (this : TypedJSON) : TypedJSON :=
  {| serializer := serializer this;
     deserializer := {| des_errorHandler := des_errorHandler (deserializer this);
                        des_typeResolver := Some r;
                        des_nameResolver := des_nameResolver (deserializer this) |};
     globalKnownTypes := globalKnownTypes this; indent := indent this;
     rootConstructor := rootConstructor this; errorHandler := errorHandler this;
     nameResolver := nameResolver this; replacer := replacer this |}.

Definition set_typeHintEmitter (e : TypeHintEmitter) (this : TypedJSON) : TypedJSON :=
  {| serializer := {| ser_errorHandler := ser_errorHandler (serializer this);
                      ser_typeHintEmitter := Some e |};
     deserializer := deserializer this;
     globalKnownTypes := globalKnownTypes this; indent := indent this;
     rootConstructor := rootConstructor this; errorHandler := errorHandler this;
     nameResolver := nameResolver this; replacer := replacer this |}.

Definition set_indent (n : Z) (this : TypedJSON) : TypedJSON :=
  {| serializer := serializer this; deserializer := deserializer this;
     globalKnownTypes := globalKnownTypes this; indent := n;
     rootConstructor := rootConstructor this; errorHandler := errorHandler this;
     nameResolver := nameResolver this; replacer := replacer this |}.

Definition set_nameResolver (r : NameResolver) (this : TypedJSON) : TypedJSON :=
  {| serializer := serializer this;
     deserializer := {| des_errorHandler := des_errorHandler (deserializer this);
                        des_typeResolver := des_typeResolver (deserializer this);
                        des_nameResolver := Some r |};
     globalKnownTypes := globalKnownTypes this; indent := indent this;
     rootConstructor := rootConstructor this; errorHandler := errorHandler this;
     nameResolver := r; replacer := replacer this |}.

Definition set_globalKnownTypes (kts : list KnownTypeEntry) (this : TypedJSON) : TypedJSON :=
  {| serializer := serializer this; deserializer := deserializer this;
     globalKnownTypes := kts; indent := indent this;
     rootConstructor := rootConstructor this; errorHandler := errorHandler this;
     nameResolver := nameResolver this; replacer := replacer this |}.

(** [if (x) assign(x)]. *)
Definition when {A} (x : option A) (assign : A -> TypedJSON -> TypedJSON) (this : TypedJSON)
  : TypedJSON :=
  match x with Some a => assign a this | None => this end.

(** The rest of [config]: each truthy setting is copied into the instance,
    and the known types are checked for undefined elements. *)
Definition apply_settings (this : TypedJSON) (settings : ITypedJSONSettings) : M TypedJSON :=
  let this := when (truthy (Settings.errorHandler settings)) set_errorHandler this in
  let this := when (truthy (Settings.replacer settings)) set_replacer this in
  let this := when (truthy (Settings.typeResolver settings)) set_typeResolver this in
  let this := when (truthy (Settings.typeHintEmitter settings)) set_typeHintEmitter this in
  let this := when (truthy_num (Settings.indent settings)) set_indent this in
  let this := when (truthy (Settings.nameResolver settings)) set_nameResolver this in
  match truthy (Settings.knownTypes settings) with
  | Some kts => (knownTypes_warnings kts, Ret (set_globalKnownTypes kts this))
  | None => ret this
  end.

(** [config(settings)]. *)
Definition config (G : option ITypedJSONSettings) (this : TypedJSON)
    (settings : ITypedJSONSettings) : M TypedJSON :=
  apply_settings this (merge_global G settings).

(** The error handler a converter starts with: [Helpers.logError(error)]. *)
Definition default_errorHandler : ErrorHandler :=
  fun e => emit (ConsoleErrorExn e).

Definition root_type_message : string :=
  "The TypedJSON root data type must have the @jsonObject decorator used.".

(** The instance fields as their initializers and the first assignments of
    the constructor leave them. *)
Definition fresh (rootConstructor : Ctor) : TypedJSON :=
  {| serializer := {| ser_errorHandler := None; ser_typeHintEmitter := None |};
     deserializer := {| des_errorHandler := None; des_typeResolver := None;
                        des_nameResolver := None |};
     globalKnownTypes := []; indent := 0;
     rootConstructor := rootConstructor;
     errorHandler := default_errorHandler;
     nameResolver := nameof;
     replacer := None |}.

(** [!rootMetadata || !rootMetadata.isExplicitlyMarked]. *)
Definition root_check (H : Host) (rootConstructor : Ctor) : bool :=
  let rootMetadata := getFromConstructor H rootConstructor in
  match rootMetadata with
  | None => true
  | Some md => negb (Metadata.isExplicitlyMarked md)
  end.

(** [new TypedJSON(rootConstructor, settings)]. *)
Definition new_TypedJSON (H : Host) (G : option ITypedJSONSettings)
    (rootConstructor : Ctor) (settings : option ITypedJSONSettings) : M TypedJSON :=
  if root_check H rootConstructor
  then throw (TypeError root_type_message)
  else
    let this := fresh rootConstructor in
    match settings with
    | Some settings => config G this settings
    | None =>
        match G with
        | Some _ => config G this Settings.empty
        | None => ret this
        end
    end.

(** [this.errorHandler(e)]: the invocation is recorded, then the handler
    runs. *)
Definition call_errorHandler (this : TypedJSON) (e : Exn) : M unit :=
  emit (Handled e) ;; errorHandler this e.

(** [call] passed [e] to the error handler of [this]; it returned [fallback]
    when the handler returned, and threw what the handler threw. *)
Definition handled_with (this : TypedJSON) (e : Exn) (fallback : val) (call : M val) : Prop :=
  Handled e ∈ events call /\
  (outcome (errorHandler this e) = Ret tt -> outcome call = Ret fallback) /\
  (forall e', outcome (errorHandler this e) = Throw e' -> outcome call = Throw e').

(** The constructors of a [knownTypes] array that pass [filter(ktc => ktc)]. *)
Definition defined_ctors (kts : list KnownTypeEntry) : list Ctor :=
  omap (fun kt => match kt with KtCtor c => Some c | _ => None end) kts.

(** [knownTypes.set(this.nameResolver(ctor), ctor)]. *)
Definition set_knownType (resolver : NameResolver) (table : gmap string Ctor) (c : Ctor)
  : gmap string Ctor :=
  <[resolver c := c]> table.

(** The last constructor of [l] that resolves to the name [n]. *)
Definition last_named (resolver : NameResolver) (n : string) (l : list Ctor) : option Ctor :=
  last (filter (fun c => resolver c = n) l).

(** [_mapKnownTypes(constructors)]. *)
Definition _mapKnownTypes (this : TypedJSON) (constructors : list KnownTypeEntry)
  : gmap string Ctor :=
  foldl (set_knownType (nameResolver this)) ∅ (defined_ctors constructors).

(** The table [parse] builds before it converts. *)
Definition parse_knownTypes (H : Host) (this : TypedJSON) : gmap string Ctor :=
  let rootMetadata := getFromConstructor H (rootConstructor this) in
  let knownTypes :=
    foldl (set_knownType (nameResolver this)) ∅ (defined_ctors (globalKnownTypes this)) in
  match rootMetadata with
  | Some md => foldl (set_knownType (nameResolver this)) knownTypes (Metadata.knownTypes md)
  | None => knownTypes
  end.

(** The known subtypes of the root class, as [parse] reads them. *)
Definition root_knownTypes (H : Host) (this : TypedJSON) : list Ctor :=
  match getFromConstructor H (rootConstructor this) with
  | Some md => Metadata.knownTypes md
  | None => []
  end.

(** The type information each entry point hands to the deserializer. *)
Definition parse_typeInfo (H : Host) (this : TypedJSON) : TypeInfo :=
  {| selfConstructor := rootConstructor this; elementConstructor := None;
     keyConstructor := None; knownTypes := parse_knownTypes H this |}.

Definition parseAsArray_typeInfo (this : TypedJSON) (elementCtors : list Ctor) : TypeInfo :=
  {| selfConstructor := CArray; elementConstructor := Some elementCtors;
     keyConstructor := None;
     knownTypes := _mapKnownTypes this (globalKnownTypes this) |}.

Definition parseAsSet_typeInfo (this : TypedJSON) : TypeInfo :=
  {| selfConstructor := CArray; elementConstructor := Some [rootConstructor this];
     keyConstructor := None;
     knownTypes := _mapKnownTypes this (globalKnownTypes this) |}.

Definition parseAsMap_typeInfo (this : TypedJSON) (keyConstructor : Ctor) : TypeInfo :=
  {| selfConstructor := CArray; elementConstructor := Some [rootConstructor this];
     keyConstructor := Some keyConstructor;
     knownTypes := _mapKnownTypes this (globalKnownTypes this) |}.

(** [new Array((dimensions - 1) || 0).fill(Array).concat(root)]; a negative
    or too large length makes [new Array] throw. *)
Definition elementConstructorArray (dimensions : Z) (root : Ctor) : M (list Ctor) :=
  let n := if (dimensions - 1 =? 0)%Z then 0%Z else (dimensions - 1)%Z in
  if ((n <? 0) || (4294967295 <? n))%Z
  then throw (RangeError "Invalid array length")
  else ret (replicate (Z.to_nat n) CArray ++ [root]).

(** The [try] block of [parse]. *)
Definition parse_conversion (H : Host) (D : Deserializer) (this : TypedJSON) (json : string)
  : M val :=
  let! plain := JSON_parse H json in
  des_convertSingleValue D (deserializer this) plain (parse_typeInfo H this).

(** [parse(json)]: [result] is still [undefined] when the block threw. *)
Definition parse (H : Host) (D : Deserializer) (this : TypedJSON) (json : string) : M val :=
  try_catch (parse_conversion H D this json)
    (fun e => call_errorHandler this e ;; ret VUndefined).

(** [parseAsArray(json, dimensions = 1)]. *)
Definition parseAsArray (H : Host) (D : Deserializer) (this : TypedJSON) (json : string)
    (dimensions : option Z) : M val :=
  let dimensions := default 1%Z dimensions in
  let! object := JSON_parse H json in
  if instanceof (superclasses H) object CArray then
    let! elementCtors := elementConstructorArray dimensions (rootConstructor this) in
    des_convertAsArray D (deserializer this) object (parseAsArray_typeInfo this elementCtors)
  else
    call_errorHandler this
      (TypeError ("Expected 'json' to define an Array, but got " +:+ typeof object +:+ ".")) ;;
    ret (VArr []).

(** [parseAsSet(json)]. *)
Definition parseAsSet (H : Host) (D : Deserializer) (this : TypedJSON) (json : string)
  : M val :=
  let! object := JSON_parse H json in
  if instanceof (superclasses H) object CArray then
    des_convertAsSet D (deserializer this) object (parseAsSet_typeInfo this)
  else
    call_errorHandler this
      (TypeError ("Expected 'json' to define a Set (using an Array), but got "
                    +:+ typeof object +:+ ".")) ;;
    ret (VSet []).

(** [parseAsMap(json, keyConstructor)]. *)
Definition parseAsMap (H : Host) (D : Deserializer) (this : TypedJSON) (json : string)
    (keyConstructor : Ctor) : M val :=
  let! object := JSON_parse H json in
  if instanceof (superclasses H) object CArray then
    des_convertAsMap D (deserializer this) object (parseAsMap_typeInfo this keyConstructor)
  else
    call_errorHandler this
      (TypeError ("Expected 'json' to define a Set (using an Array), but got "
                    +:+ typeof object +:+ ".")) ;;
    ret (VMap []).

(** The argument of the error handler in [stringify]: evaluating
    [object.constructor] throws when [object] is [undefined] or [null] (the
    text of that exception is the engine's). *)
Definition stringify_type_error (this : TypedJSON) (object : val) : M Exn :=
  match constructor_of object with
  | Some c =>
      ret (TypeError ("Expected object type to be '" +:+ nameof (rootConstructor this)
                        +:+ "', got '" +:+ nameof c +:+ "'."))
  | None =>
      throw (TypeError ("Cannot read property 'constructor' of " +:+
                          match object with VNull => "null" | _ => "undefined" end))
  end.

(** The [try] block of [stringify]. *)
Definition stringify_conversion (H : Host) (S : Serializer) (this : TypedJSON) (object : val)
  : M val :=
  let! serializedObject :=
    ser_convertSingleValue S (serializer this) object (rootConstructor this) in
  JSON_stringify H serializedObject (replacer this) (indent this).

(** [stringify(object)]. *)
Definition stringify (H : Host) (S : Serializer) (this : TypedJSON) (object : val) : M val :=
  if negb (instanceof (superclasses H) object (rootConstructor this)) then
    let! e := stringify_type_error this object in
    call_errorHandler this e ;;
    ret VUndefined
  else
    try_catch (stringify_conversion H S this object)
      (fun e => call_errorHandler this e ;; ret (VStr "")).

(** [stringifyAsArray(object, dimensions = 1)]. *)
Definition stringifyAsArray (H : Host) (S : Serializer) (this : TypedJSON) (object : val)
    (dimensions : option Z) : M val :=
  let dimensions := default 1%Z dimensions in
  let! elementConstructorArray := elementConstructorArray dimensions (rootConstructor this) in
  let! plain := ser_convertAsArray S (serializer this) object elementConstructorArray in
  JSON_stringify H plain (replacer this) (indent this).

(** [stringifyAsSet(object)]. *)
Definition stringifyAsSet (H : Host) (S : Serializer) (this : TypedJSON) (object : val)
  : M val :=
  let! plain := ser_convertAsSet S (serializer this) object (rootConstructor this) in
  JSON_stringify H plain (replacer this) (indent this).

(** [stringifyAsMap(object, keyConstructor)]. *)
Definition stringifyAsMap (H : Host) (S : Serializer) (this : TypedJSON) (object : val)
    (keyConstructor : Ctor) : M val :=
  let! plain :=
    ser_convertAsMap S (serializer this) object keyConstructor (rootConstructor this) in
  JSON_stringify H plain (replacer this) (indent this).

(** The static entry points: each constructs a converter and calls the
    method of the same name. *)
Module Static.

Definition parse H D G (json : string) (rootType : Ctor) (settings : option ITypedJSONSettings)
  : M val :=
  let! tj := new_TypedJSON H G rootType settings in parse H D tj json.

Definition parseAsArray H D G (json : string) (elementType : Ctor)
    (settings : option ITypedJSONSettings) : M val :=
  let! tj := new_TypedJSON H G elementType settings in parseAsArray H D tj json None.

Definition parseAsSet H D G (json : string) (elementType : Ctor)
    (settings : option ITypedJSONSettings) : M val :=
  let! tj := new_TypedJSON H G elementType settings in parseAsSet H D tj json.

Definition parseAsMap H D G (json : string) (keyType valueType : Ctor)
    (settings : option ITypedJSONSettings) : M val :=
  let! tj := new_TypedJSON H G valueType settings in parseAsMap H D tj json keyType.

Definition stringify H S G (object : val) (rootType : Ctor)
    (settings : option ITypedJSONSettings) : M val :=
  let! tj := new_TypedJSON H G rootType settings in stringify H S tj object.

Definition stringifyAsArray H S G (object : val) (elementType : Ctor)
    (dimensions : option Z) (settings : option ITypedJSONSettings) : M val :=
  let! tj := new_TypedJSON H G elementType settings in
  stringifyAsArray H S tj object (Some (default 1%Z dimensions)).

Definition stringifyAsSet H S G (object : val) (elementType : Ctor)
    (settings : option ITypedJSONSettings) : M val :=
  let! tj := new_TypedJSON H G elementType settings in stringifyAsSet H S tj object.

Definition stringifyAsMap H S G (object : val) (keyCtor valueCtor : Ctor)
    (settings : option ITypedJSONSettings) : M val :=
  let! tj := new_TypedJSON H G valueCtor settings in stringifyAsMap H S tj object keyCtor.

End Static.

End Facade.

(** ** The member decorators: [json-member.ts], [json-set-member.ts] *)

Module Decorators.

Import Metadata.

(** What a decorator acts on: the registry and the console. *)
Record RegState : Type := {
  registry : Registry;
  console : list Event
}.

(** [Helpers.logError(message)] and [Helpers.logWarning(message)]. *)
Definition logError (msg : string) (st : RegState) : RegState :=
  {| registry := registry st; console := console st ++ [ConsoleError msg] |}.

Definition logWarning (msg : string) (st : RegState) : RegState :=
  {| registry := registry st; console := console st ++ [ConsoleWarn msg] |}.

(** What the decorators read from ReflectDecorators: whether it is loaded
    ([Helpers.isReflectMetadataSupported]), the ["design:type"] of a property
    of a class, and [Helpers.isSubtypeOf]. *)
Record Reflection : Type := {
  isReflectMetadataSupported : bool;
  designType : Ctor -> string -> option Ctor;
  isSubtypeOf : Ctor -> option Ctor -> bool
}.

(** A member is put under its key: a member of that key is replaced where it
    stands, a new one goes last. *)
Definition set_member (m : JsonMemberMetadata) (ms : list JsonMemberMetadata)
  : list JsonMemberMetadata :=
  if existsb (fun m' => String.eqb (key m') (key m)) ms
  then map (fun m' => if String.eqb (key m') (key m) then m else m') ms
  else ms ++ [m].

(** Modelled from the spec: [injectMetadataInformation] is in
    [typedjson/metadata.ts], which is not part of the sources at hand.  The
    spec's [registerMember] "adds or overwrites (by key) a member on a class
    descriptor"; a class that has no descriptor yet gets one that is not
    explicitly marked. *)
Definition injectMetadataInformation (target : Ctor) (propKey : string)
    (metadata : JsonMemberMetadata) (st : RegState) : RegState :=
  let objectMetadata :=
    default {| isExplicitlyMarked := false; knownTypes := []; dataMembers := [] |}
            (registry st target) in
  let objectMetadata :=
    {| isExplicitlyMarked := isExplicitlyMarked objectMetadata;
       knownTypes := knownTypes objectMetadata;
       dataMembers := set_member metadata (dataMembers objectMetadata) |} in
  {| registry := fun c => if bool_decide (c = target) then Some objectMetadata
                          else registry st c;
     console := console st |}.

(** [isSpecialPropertyType(propCtor, decoratorName)]. *)
Definition isSpecialPropertyType (propCtor : Ctor) (decoratorName : string) (st : RegState)
  : bool * RegState :=
  if bool_decide (propCtor = CArray) then
    (true, logError (decoratorName +:+
       ": property is an Array. Use the jsonArrayMember decorator to serialize this property.") st)
  else if bool_decide (propCtor = CSet) then
    (true, logError (decoratorName +:+
       ": property is a Set. Use the jsonSetMember decorator to serialize this property.") st)
  else if bool_decide (propCtor = CMap) then
    (true, logError (decoratorName +:+
       ": property is a Map. Use the jsonMapMember decorator to serialize this property.") st)
  else (false, st).

(** [IJsonMemberOptions]. *)
Module MemberOptions.
Record IJsonMemberOptions : Type := {
  constructor : field Ctor;
  isRequired : field bool;
  emitDefaultValue : field bool
}.
(** The object literal [{}]. *)
Definition empty : IJsonMemberOptions :=
  {| constructor := Absent; isRequired := Absent; emitDefaultValue := Absent |}.
(** [options.constructor]: the own property when there is one, otherwise the
    [constructor] every object inherits from [Object.prototype]. *)
Definition read_constructor (options : IJsonMemberOptions) : option Ctor :=
  match constructor options with
  | Absent => Some CObject
  | Nullish => None
  | Given c => Some c
  end.
(** [options.hasOwnProperty("constructor")]. *)
Definition hasOwn_constructor (options : IJsonMemberOptions) : bool :=
  match constructor options with Absent => false | _ => true end.
End MemberOptions.

(** [typeof b] for a boolean [b], and the truthiness of a string. *)
Definition typeof_boolean (b : bool) : string := "boolean".
Definition truthy_string (s : string) : bool := negb (String.eqb s "").

Definition decorator_name (decorator : string) (target : Ctor) (propKey : string) : string :=
  decorator +:+ " on " +:+ nameof target +:+ "." +:+ propKey.

(** [jsonMember(target, propKey)]: the decorator used directly.  [target] is
    the prototype of the class, identified by the class. *)
Definition jsonMember_direct (R : Reflection) (target : Ctor) (propKey : string)
    (st : RegState) : RegState :=
  let decoratorName := decorator_name "@jsonMember" target propKey in
  if isReflectMetadataSupported R then
    match designType R target propKey with
    | None =>
        logError (decoratorName +:+
          ": could not resolve detected property constructor at runtime.") st
    | Some reflectPropCtor =>
        let '(special, st) := isSpecialPropertyType reflectPropCtor decoratorName st in
        if special then st
        else
          injectMetadataInformation target propKey
            {| ctor := reflectPropCtor; elementType := []; keyType := None;
               key := propKey; name := propKey;
               isRequired := None; emitDefaultValue := None |} st
    end
  else
    logError (decoratorName +:+
      ": ReflectDecorators is required if no 'constructor' option is specified.") st.

(** The constructor the decorator factory settles on, with the messages
    logged on the way; [None] when it returns before settling. *)
Definition resolve_propCtor (R : Reflection) (options : MemberOptions.IJsonMemberOptions)
    (target : Ctor) (propKey : string) (decoratorName : string) (st : RegState)
  : option Ctor * RegState :=
  if truthy_string (typeof_boolean (MemberOptions.hasOwn_constructor options)) then
    match MemberOptions.read_constructor options with
    | None =>
        (None, logError (decoratorName +:+
           ": cannot resolve specified property constructor at runtime.") st)
    | Some c =>
        let st :=
          if isReflectMetadataSupported R
             && negb (isSubtypeOf R c (designType R target propKey))
          then logWarning (decoratorName +:+
                 ": detected property type does not match 'constructor' option.") st
          else st in
        (Some c, st)
    end
  else if isReflectMetadataSupported R then
    match designType R target propKey with
    | None =>
        (None, logError (decoratorName +:+
           ": cannot resolve detected property constructor at runtime.") st)
    | Some c => (Some c, st)
    end
  else
    (None, logError (decoratorName +:+
       ": ReflectDecorators is required if no 'constructor' option is specified.") st).

(** [jsonMember(options)(target, propKey)]: the decorator factory. *)
Definition jsonMember_factory (R : Reflection)
    (optionsOrTarget : option MemberOptions.IJsonMemberOptions)
    (target : Ctor) (propKey : string) (st : RegState) : RegState :=
  let options := default MemberOptions.empty optionsOrTarget in
  let decoratorName := decorator_name "@jsonMember" target propKey in
  match resolve_propCtor R options target propKey decoratorName st with
  | (None, st) => st
  | (Some propCtor, st) =>
      let '(special, st) := isSpecialPropertyType propCtor decoratorName st in
      if special then st
      else
        injectMetadataInformation target propKey
          {| ctor := propCtor; elementType := []; keyType := None;
             key := propKey; name := propKey;
             isRequired := Some (or_false (MemberOptions.isRequired options));
             emitDefaultValue := Some (or_false (MemberOptions.emitDefaultValue options)) |}
          st
  end.

(** The two declared call signatures of [jsonMember]. *)
Inductive JsonMemberCall : Type :=
| Direct (target : Ctor) (propKey : string)
| Factory (options : option MemberOptions.IJsonMemberOptions) (target : Ctor)
          (propKey : string).

Definition jsonMember (R : Reflection) (call : JsonMemberCall) (st : RegState) : RegState :=
  match call with
  | Direct target propKey => jsonMember_direct R target propKey st
  | Factory options target propKey => jsonMember_factory R options target propKey st
  end.

(** The property constructor a call of [jsonMember] resolves, if any. *)
Definition resolved_ctor (R : Reflection) (call : JsonMemberCall) : option Ctor :=
  match call with
  | Direct target propKey =>
      if isReflectMetadataSupported R then designType R target propKey else None
  | Factory options target propKey =>
      fst (resolve_propCtor R (default MemberOptions.empty options) target propKey ""
             {| registry := fun _ => None; console := [] |})
  end.

(** [IJsonSetMemberOptions]. *)
Module SetMemberOptions.
Record IJsonSetMemberOptions : Type := {
  isRequired : field bool;
  emitDefaultValue : field bool
}.
Definition empty : IJsonSetMemberOptions :=
  {| isRequired := Absent; emitDefaultValue := Absent |}.
End SetMemberOptions.

(** [jsonSetMember(elementConstructor, options = {})(target, propKey)];
    [elementConstructor] is [None] when it is not a function. *)
Definition jsonSetMember (R : Reflection) (elementConstructor : option Ctor)
    (options : option SetMemberOptions.IJsonSetMemberOptions)
    (target : Ctor) (propKey : string) (st : RegState) : RegState :=
  let options := default SetMemberOptions.empty options in
  let decoratorName := decorator_name "@jsonSetMember" target propKey in
  match elementConstructor with
  | None =>
      logError (decoratorName +:+
        ": could not resolve constructor of set elements at runtime.") st
  | Some elementConstructor =>
      if isReflectMetadataSupported R
         && negb (bool_decide (designType R target propKey = Some CSet))
      then logError (decoratorName +:+ ": property is not a Set.") st
      else
        injectMetadataInformation target propKey
          {| ctor := CSet; elementType := [elementConstructor]; keyType := None;
             key := propKey; name := propKey;
             isRequired := Some (or_false (SetMemberOptions.isRequired options));
             emitDefaultValue :=
               Some (or_false (SetMemberOptions.emitDefaultValue options)) |}
          st
  end.

(** The container builtins. *)
Definition is_container (c : Ctor) : bool :=
  match c with CArray | CSet | CMap => true | _ => false end.

(** A member descriptor is object-shaped when it carries no element type:
    it describes a scalar or an object, not a container. *)
Definition object_shaped (m : JsonMemberMetadata) : bool :=
  match elementType m with [] => true | _ => false end.

(** The invariant of the registry: no object-shaped member carries a
    container builtin. *)
Definition containers_are_structural (r : Registry) : Prop :=
  forall c md m, r c = Some md -> m ∈ dataMembers md ->
    object_shaped m = true -> is_container (ctor m) = false.

(** A use of one of the two decorators, and a class file's worth of them. *)
Inductive Decoration : Type :=
| UseJsonMember (call : JsonMemberCall)
| UseJsonSetMember (elementConstructor : option Ctor)
    (options : option SetMemberOptions.IJsonSetMemberOptions)
    (target : Ctor) (propKey : string).

Definition decorate (R : Reflection) (st : RegState) (d : Decoration) : RegState :=
  match d with
  | UseJsonMember call => jsonMember R call st
  | UseJsonSetMember e o target propKey => jsonSetMember R e o target propKey st
  end.

Definition decorate_all (R : Reflection) (ds : list Decoration) (st : RegState) : RegState :=
  foldl (decorate R) st ds.

Definition no_metadata : RegState :=
  {| registry := fun _ => None; console := [] |}.

End Decorators.

(** ** The conversion core

    [typedjson/serializer.ts] and [typedjson/deserializer.ts] are not part of
    the sources at hand.  The definitions of this module are modelled from
    sections 3, 4.2, 4.3 and 4.4 of the specification. *)

Module Core.

Import Metadata.

(** Modelled from the spec: the type tags of section 3, [Scalar(ctor)],
    [Object(ctor)], [Array(elementTypeTag, depth)], [Set(elementTypeTag)]
    and [Map(keyTypeTag, valueTypeTag)]. *)
Inductive TypeTag : Type :=
| Scalar (c : Ctor)
| Object (c : Ctor)
| ArrayOf (elem : TypeTag) (depth : nat)
| SetOf (elem : TypeTag)
| MapOf (keyTag valueTag : TypeTag).

Definition is_scalar_ctor (c : Ctor) : bool :=
  match c with CNumber | CString | CBoolean | CDate => true | _ => false end.

Definition tag_of_ctor (c : Ctor) : TypeTag :=
  if is_scalar_ctor c then Scalar c else Object c.

(** The tag of a list of element constructors as the converter builds it:
    [Array] once per further dimension, then the element type. *)
Definition elements_tag (elementCtors : list Ctor) : TypeTag :=
  ArrayOf (tag_of_ctor (List.last elementCtors CObject)) (length elementCtors).

(** Modelled from the spec: the type tag of a member descriptor, read off
    the fields the decorators fill in ([ctor], and [elementType] and
    [keyType] for a container). *)
Definition typeTag (m : JsonMemberMetadata) : TypeTag :=
  match ctor m, elementType m, keyType m with
  | CArray, _ :: _, _ => elements_tag (elementType m)
  | CSet, [e], _ => SetOf (tag_of_ctor e)
  | CMap, [e], Some k => MapOf (tag_of_ctor k) (tag_of_ctor e)
  | c, _, _ => tag_of_ctor c
  end.

Definition is_true (b : option bool) : bool := default false b.

(** The platform's [Date.prototype.toISOString] and the parsing of such a
    string by the [Date] constructor. *)
Record DateCodec : Type := {
  toISOString : Z -> string;
  fromISOString : string -> option Z
}.

(** The reserved type-hint key. *)
Definition type_hint_key : string := "__type".

(** [props[k]] passed to [f], or [absent] when there is no such property. *)
Definition with_prop {A} (k : string) (props : list (string * val)) (absent : A)
    (f : val -> A) : A :=
  (fix go (ps : list (string * val)) : A :=
     match ps with
     | [] => absent
     | (k', v) :: ps' => if String.eqb k' k then f v else go ps'
     end) props.

Definition get_prop (k : string) (props : list (string * val)) : val :=
  with_prop k props VUndefined (fun v => v).

Definition find_prop (k : string) (props : list (string * val)) : option val :=
  with_prop k props None Some.

(** [props[k] = v]: an existing property keeps its place. *)
Fixpoint obj_set (props : list (string * val)) (k : string) (v : val)
  : list (string * val) :=
  match props with
  | [] => [(k, v)]
  | (k', v') :: ps => if String.eqb k' k then (k, v) :: ps else (k', v') :: obj_set ps k v
  end.

(** SameValueZero on the values of the model: primitives by value; two
    objects met in a traversal are never the same reference. *)
Definition same_value_zero (a b : val) : bool :=
  match a, b with
  | VUndefined, VUndefined | VNull, VNull => true
  | VNum x, VNum y => (x =? y)%Z
  | VStr x, VStr y => String.eqb x y
  | VBool x, VBool y => Bool.eqb x y
  | _, _ => false
  end.

(** [set.add(v)] and [map.set(k, v)] on the entry lists. *)
Definition set_add (items : list val) (v : val) : list val :=
  if existsb (same_value_zero v) items then items else items ++ [v].

Fixpoint map_set (entries : list (val * val)) (k v : val) : list (val * val) :=
  match entries with
  | [] => [(k, v)]
  | (k', v') :: es =>
      if same_value_zero k' k then (k', v) :: es else (k', v') :: map_set es k v
  end.

(** Modelled from the spec: the default [emitTypeHint] of section 4.2.  The
    resolved name of the runtime constructor goes under the reserved key
    when it differs from the statically expected one; otherwise nothing is
    written. *)
Definition default_emitTypeHint (resolver : Ctor -> string)
    (target : list (string * val)) (source : val) (expected : Ctor)
  : list (string * val) :=
  match constructor_of source with
  | Some rc =>
      if bool_decide (rc = expected) then target
      else obj_set target type_hint_key (VStr (resolver rc))
  | None => target
  end.

(** Modelled from the spec: the default [resolveConstructor] of section
    4.2.  Without a type hint the statically expected constructor stands; a
    hint is looked up in the known-types table, and an unknown name is an
    error. *)
Definition default_resolveConstructor (props : list (string * val))
    (knownTypesTable : gmap string Ctor) (expected : Ctor) : Exn + Ctor :=
  match get_prop type_hint_key props with
  | VUndefined | VNull => inr expected
  | VStr n =>
      match knownTypesTable !! n with
      | Some c => inr c
      | None => inl (ConversionError UnresolvableConstructor n)
      end
  | _ => inl (ConversionError UnresolvableConstructor "")
  end.

Section Conversion.

Variable reg : Registry.
Variable dates : DateCodec.
Variable handler : Exn -> M unit.

(** An error goes to the error handler; when the handler returns, the
    conversion goes on with [placeholder]. *)
Definition report {A} (e : Exn) (placeholder : A) : M A :=
  emit (Handled e) ;; handler e ;; ret placeholder.

(** Modelled from the spec: the scalars of section 4.3, transcribed
    directly, a [Date] as its ISO-8601 string. *)
Definition serialize_scalar (c : Ctor) (v : val) : option val :=
  match c, v with
  | CNumber, VNum _ | CString, VStr _ | CBoolean, VBool _ => Some v
  | CDate, VDate ms => Some (VStr (toISOString dates ms))
  | _, _ => None
  end.

(** Modelled from the spec: the scalars of section 4.4, the inverse. *)
Definition deserialize_scalar (c : Ctor) (plain : val) : option val :=
  match c, plain with
  | CNumber, VNum _ | CString, VStr _ | CBoolean, VBool _ => Some plain
  | CDate, VStr s => VDate <$> fromISOString dates s
  | _, _ => None
  end.

(** Modelled from the spec: the zero value emitted for an unset member
    under [emitDefaultValue]; the specification names one for numbers,
    strings and booleans. *)
Definition default_value (tag : TypeTag) : option val :=
  match tag with
  | Scalar CNumber => Some (VNum 0)
  | Scalar CString => Some (VStr "")
  | Scalar CBoolean => Some (VBool false)
  | _ => None
  end.

(** What an unset member contributes to the plain object. *)
Definition unset_member (m : JsonMemberMetadata) : option val :=
  if is_true (emitDefaultValue m) then default_value (typeTag m) else None.

Definition element_tag (elem : TypeTag) (depth : nat) : TypeTag :=
  if (1 <? depth)%nat then ArrayOf elem (depth - 1) else elem.

Variable emitTypeHint : list (string * val) -> val -> Ctor -> list (string * val).

(** Modelled from the spec: the [Serializer] of section 4.3,
    [convert(value, expectedTypeTag)] ([typedjson/serializer.ts] is not part
    of the sources at hand).  A scalar is transcribed; an object is converted
    member by member, in declared order, through the class descriptor of the
    expected type, an absent member being omitted or replaced by its zero
    value, and the type hint is emitted last; an array, a set and a map
    become arrays of their converted elements, a map entry a pair.  A value
    of the wrong shape is reported and leaves [undefined] in its place. *)
Fixpoint serialize (v : val) (tag : TypeTag) {struct v} : M val :=
  match tag with
  | Scalar c =>
      if isValueDefined v then
        match serialize_scalar c v with
        | Some plain => ret plain
        | None => report (ConversionError TypeShapeMismatch (nameof c)) VUndefined
        end
      else ret VUndefined
  | Object c =>
      match v with
      | VObj _ props =>
          match reg c with
          | None => report (ConversionError UnregisteredType (nameof c)) VUndefined
          | Some md =>
              let! target :=
                foldM (fun target m =>
                  let! field :=
                    with_prop (key m) props (ret (unset_member m))
                      (fun fv =>
                         if isValueDefined fv then
                           let! plain := serialize fv (typeTag m) in
                           ret (if isValueDefined plain then Some plain else None)
                         else ret (unset_member m)) in
                  ret (match field with
                       | Some plain => obj_set target (name m) plain
                       | None => target
                       end))
                  (dataMembers md) [] in
              ret (VObj CObject (emitTypeHint target v c))
          end
      | _ => report (ConversionError TypeShapeMismatch (nameof c)) VUndefined
      end
  | ArrayOf elem depth =>
      match v with
      | VArr items =>
          let! plains := traverse (fun x => serialize x (element_tag elem depth)) items in
          ret (VArr plains)
      | _ => report (ConversionError TypeShapeMismatch "Array") VUndefined
      end
  | SetOf elem =>
      match v with
      | VSet items =>
          let! plains := traverse (fun x => serialize x elem) items in
          ret (VArr plains)
      | _ => report (ConversionError TypeShapeMismatch "Set") VUndefined
      end
  | MapOf keyTag valueTag =>
      match v with
      | VMap entries =>
          let! plains :=
            traverse (fun entry =>
              match entry with
              | (k, x) =>
                  let! plainKey := serialize k keyTag in
                  let! plainValue := serialize x valueTag in
                  ret (VArr [plainKey; plainValue])
              end) entries in
          ret (VArr plains)
      | _ => report (ConversionError TypeShapeMismatch "Map") VUndefined
      end
  end.

Variable resolveConstructor :
  list (string * val) -> gmap string Ctor -> Ctor -> Exn + Ctor.
Variable knownTypesTable : gmap string Ctor.

(** Modelled from the spec: the [Deserializer] of section 4.4,
    [convert(plainValue, expectedTypeTag, knownTypesTable)]
    ([typedjson/deserializer.ts] is not part of the sources at hand).  An
    object is instantiated from the constructor that [resolveConstructor]
    resolves and filled member by member: a member found under its
    serialized name is converted and assigned, a missing required member is
    reported, a missing optional one stays unset.  A set is built by adding,
    a map by setting, the converted elements in order.  An error is reported
    where it is met and leaves [undefined] (for a map entry, nothing) in its
    place. *)
Fixpoint deserialize (plain : val) (tag : TypeTag) {struct plain} : M val :=
  match tag with
  | Scalar c =>
      match deserialize_scalar c plain with
      | Some v => ret v
      | None => report (ConversionError TypeShapeMismatch (nameof c)) VUndefined
      end
  | Object c =>
      match plain with
      | VObj _ props =>
          match resolveConstructor props knownTypesTable c with
          | inl e => report e VUndefined
          | inr rc =>
              match reg rc with
              | None => report (ConversionError UnregisteredType (nameof rc)) VUndefined
              | Some md =>
                  let! fields :=
                    foldM (fun fields m =>
                      with_prop (name m) props
                        (if is_true (isRequired m)
                         then report (ConversionError MissingRequiredMember (name m)) fields
                         else ret fields)
                        (fun fp =>
                           let! fv := deserialize fp (typeTag m) in
                           ret (if isValueDefined fv then obj_set fields (key m) fv
                                else fields)))
                      (dataMembers md) [] in
                  ret (VObj rc fields)
              end
          end
      | _ => report (ConversionError TypeShapeMismatch (nameof c)) VUndefined
      end
  | ArrayOf elem depth =>
      match plain with
      | VArr items =>
          let! vs := traverse (fun x => deserialize x (element_tag elem depth)) items in
          ret (VArr vs)
      | _ => report (ConversionError TypeShapeMismatch "Array") VUndefined
      end
  | SetOf elem =>
      match plain with
      | VArr items =>
          let! vs :=
            foldM (fun set x => let! v := deserialize x elem in ret (set_add set v))
              items [] in
          ret (VSet vs)
      | _ => report (ConversionError TypeShapeMismatch "Set") VUndefined
      end
  | MapOf keyTag valueTag =>
      match plain with
      | VArr pairs =>
          let! es :=
            foldM (fun map entry =>
              match entry with
              | VArr [pk; pv] =>
                  let! k := deserialize pk keyTag in
                  let! v := deserialize pv valueTag in
                  ret (map_set map k v)
              | _ => report (ConversionError TypeShapeMismatch "Map entry") map
              end) pairs [] in
          ret (VMap es)
      | _ => report (ConversionError TypeShapeMismatch "Map") VUndefined
      end
  end.

(** No two entries are the same value: what a [Set], and the keys of a
    [Map], look like. *)
Fixpoint distinct (l : list val) : bool :=
  match l with
  | [] => true
  | x :: l' => negb (existsb (same_value_zero x) l') && distinct l'
  end.

(** Two lists of the same length whose elements are related pairwise. *)
Definition all2 {A B} (f : A -> B -> bool) : list A -> list B -> bool :=
  fix each (l : list A) (l' : list B) : bool :=
    match l, l' with
    | [], [] => true
    | x :: l, y :: l' => f x y && each l l'
    | _, _ => false
    end.

(** [conforms v tag]: the runtime type of [v], and of every value inside it,
    is the declared one.  An instance of a class holds a value of the
    declared type in each declared field, the fields in declaration order. *)
Fixpoint conforms (v : val) (tag : TypeTag) {struct v} : bool :=
  match tag with
  | Scalar c =>
      match c, v with
      | CNumber, VNum _ | CString, VStr _ | CBoolean, VBool _ | CDate, VDate _ => true
      | _, _ => false
      end
  | Object c =>
      match v with
      | VObj rc props =>
          bool_decide (rc = c) &&
          match reg c with
          | Some md =>
              all2 (fun prop m =>
                      match prop with
                      | (k, fv) => String.eqb k (key m) && conforms fv (typeTag m)
                      end) props (dataMembers md)
          | None => false
          end
      | _ => false
      end
  | ArrayOf elem depth =>
      match v with
      | VArr items =>
          (1 <=? depth)%nat && forallb (fun x => conforms x (element_tag elem depth)) items
      | _ => false
      end
  | SetOf elem =>
      match v with
      | VSet items => forallb (fun x => conforms x elem) items && distinct items
      | _ => false
      end
  | MapOf keyTag valueTag =>
      match v with
      | VMap entries =>
          forallb (fun entry =>
                     match entry with
                     | (k, x) => conforms k keyTag && conforms x valueTag
                     end) entries
          && distinct (map fst entries)
      | _ => false
      end
  end.

(** A member that an instance may leave unset: it is not required, and
    nothing is emitted for it when it is unset. *)
Definition may_stay_unset (m : JsonMemberMetadata) : bool :=
  negb (is_true (isRequired m)) &&
  match unset_member m with None => true | Some _ => false end.

(** [fits v tag]: no value in [v] is polymorphic, the runtime type of [v],
    and of every value inside it, is the declared one.  An instance of a
    class holds, under the key of each declared member, a value of the
    declared type, or nothing ([undefined], or no property at all) where the
    member may stay unset; the order of its properties is free, and it may
    have properties that are not declared. *)
Fixpoint fits (v : val) (tag : TypeTag) {struct v} : bool :=
  match tag with
  | Scalar c =>
      match c, v with
      | CNumber, VNum _ | CString, VStr _ | CBoolean, VBool _ | CDate, VDate _ => true
      | _, _ => false
      end
  | Object c =>
      match v with
      | VObj rc props =>
          bool_decide (rc = c) &&
          match reg c with
          | Some md =>
              forallb (fun m =>
                         with_prop (key m) props (may_stay_unset m)
                           (fun fv =>
                              match fv with
                              | VUndefined => may_stay_unset m
                              | VNull => false
                              | _ => fits fv (typeTag m)
                              end)) (dataMembers md)
          | None => false
          end
      | _ => false
      end
  | ArrayOf elem depth =>
      match v with
      | VArr items => forallb (fun x => fits x (element_tag elem depth)) items
      | _ => false
      end
  | SetOf elem =>
      match v with
      | VSet items => forallb (fun x => fits x elem) items && distinct items
      | _ => false
      end
  | MapOf keyTag valueTag =>
      match v with
      | VMap entries =>
          forallb (fun entry =>
                     match entry with
                     | (k, x) => fits k keyTag && fits x valueTag
                     end) entries
          && distinct (map fst entries)
      | _ => false
      end
  end.

Definition is_undefined (v : val) : bool :=
  match v with VUndefined => true | _ => false end.

(** [same_fields v v']: the two values are equal field by field.  Primitives
    and dates are equal by value; two instances are of the same registered
    class and hold, under the key of each declared member, values that are
    equal field by field, or both nothing; arrays, sets and maps hold such
    values in the same order. *)
Fixpoint same_fields (v v' : val) {struct v} : bool :=
  match v, v' with
  | VUndefined, VUndefined | VNull, VNull => true
  | VNum x, VNum y => (x =? y)%Z
  | VStr x, VStr y => String.eqb x y
  | VBool x, VBool y => Bool.eqb x y
  | VDate x, VDate y => (x =? y)%Z
  | VObj c props, VObj c' props' =>
      bool_decide (c = c') &&
      match reg c with
      | Some md =>
          forallb (fun m =>
                     with_prop (key m) props (is_undefined (get_prop (key m) props'))
                       (fun fv => same_fields fv (get_prop (key m) props')))
            (dataMembers md)
      | None => false
      end
  | VArr items, VArr items' | VSet items, VSet items' => all2 same_fields items items'
  | VMap entries, VMap entries' =>
      all2 (fun entry entry' =>
              match entry, entry' with
              | (k, x), (k', x') => same_fields k k' && same_fields x x'
              end) entries entries'
  | _, _ => false
  end.

End Conversion.

(** The serialized names of the members of a class are distinct, and none of
    them is the reserved key. *)
Definition wf_names (reg : Registry) : Prop :=
  forall c md, reg c = Some md ->
    NoDup (map name (dataMembers md)) /\ type_hint_key ∉ map name (dataMembers md).

(** A class descriptor is well formed when its members have distinct keys
    and distinct serialized names, none of them the reserved key. *)
Definition wf_class (md : JsonObjectMetadata) : Prop :=
  NoDup (map key (dataMembers md)) /\
  NoDup (map name (dataMembers md)) /\
  type_hint_key ∉ map name (dataMembers md).

Definition wf_registry (reg : Registry) : Prop :=
  forall c md, reg c = Some md -> wf_class md.

(** [v] round-trips under [tag]: it is a defined value, serializing it
    reports no error and yields a defined plain value, and deserializing that
    plain value reports no error and yields [v] again. *)
Definition round_trips (reg : Registry) (dates : DateCodec) (hs hd : Exn -> M unit)
    (resolver : Ctor -> string) (table : gmap string Ctor) (v : val) (tag : TypeTag) : Prop :=
  let plain := value_of (serialize reg dates hs (default_emitTypeHint resolver) v tag)
                 VUndefined in
  isValueDefined v = true /\
  serialize reg dates hs (default_emitTypeHint resolver) v tag = ([], Ret plain) /\
  isValueDefined plain = true /\
  deserialize reg dates hd default_resolveConstructor table plain tag = ([], Ret v).

(** The codec of dates is well formed when parsing undoes printing. *)
Definition wf_dates (dates : DateCodec) : Prop :=
  forall ms, fromISOString dates (toISOString dates ms) = Some ms.

End Core.

(** ** The platform's JSON text codec

    The specification takes the raw JSON text codec as a given primitive.
    This module gives [JSON.stringify] and [JSON.parse] as ECMAScript
    defines them, on the values of the model: numbers are integers, and a
    text with a fraction, an exponent or a [\u] escape is outside the
    fragment read here.  An integer is printed and read digit by digit, as
    ECMAScript does below 2^53 (a double past that is rounded, and is
    printed with an exponent from 1e21 on); the properties of an object
    keep the order of the text, as ECMAScript has it for keys that are not
    array indices. *)

Module Json.

Definition dquote : ascii := ascii_of_nat 34.
Definition backslash : ascii := ascii_of_nat 92.
Definition newline : string := String (ascii_of_nat 10) "".

Definition hex_digit (n : nat) : ascii :=
  if (n <? 10)%nat then ascii_of_nat (48 + n) else ascii_of_nat (87 + n).

(** QuoteJSONString, one character. *)
Definition escape_char (c : ascii) : string :=
  let n := nat_of_ascii c in
  if Ascii.eqb c dquote then String backslash (String dquote "")
  else if Ascii.eqb c backslash then String backslash (String backslash "")
  else if (n =? 8)%nat then String backslash "b"
  else if (n =? 12)%nat then String backslash "f"
  else if (n =? 10)%nat then String backslash "n"
  else if (n =? 13)%nat then String backslash "r"
  else if (n =? 9)%nat then String backslash "t"
  else if (n <? 32)%nat then
    String backslash ("u00" +:+ String (hex_digit (n / 16)) (String (hex_digit (n mod 16)) ""))
  else String c "".

Fixpoint escape (s : string) : string :=
  match s with
  | EmptyString => ""
  | String c s' => escape_char c +:+ escape s'
  end.

Definition quote (s : string) : string :=
  String dquote (escape s +:+ String dquote "").

Definition number_text (n : Z) : string := NilZero.string_of_int (Z.to_int n).

Fixpoint join (sep : string) (parts : list string) : string :=
  match parts with
  | [] => ""
  | [p] => p
  | p :: ps => p +:+ sep +:+ join sep ps
  end.

(** An array or an object around its parts, at indentation [cur] with the
    indentation unit [gap]. *)
Definition wrap (gap cur opening closing : string) (parts : list string) : string :=
  match parts with
  | [] => opening +:+ closing
  | _ =>
      if String.eqb gap "" then opening +:+ join "," parts +:+ closing
      else
        let inner := cur +:+ gap in
        opening +:+ newline +:+ inner +:+ join ("," +:+ newline +:+ inner) parts
          +:+ newline +:+ cur +:+ closing
  end.

Section Text.

Variable dates : Core.DateCodec.
Variable gap : string.

(** SerializeJSONProperty: [None] for a value that has no JSON text. *)
Fixpoint text (cur : string) (v : val) {struct v} : option string :=
  match v with
  | VUndefined => None
  | VNull => Some "null"
  | VNum n => Some (number_text n)
  | VStr s => Some (quote s)
  | VBool b => Some (if b then "true" else "false")
  | VDate ms => Some (quote (Core.toISOString dates ms))
  | VArr items =>
      Some (wrap gap cur "[" "]"
        ((fix each (l : list val) : list string :=
            match l with
            | [] => []
            | x :: l' => default "null" (text (cur +:+ gap) x) :: each l'
            end) items))
  | VObj _ props =>
      Some (wrap gap cur "{" "}"
        ((fix each (ps : list (string * val)) : list string :=
            match ps with
            | [] => []
            | (k, x) :: ps' =>
                match text (cur +:+ gap) x with
                | Some t =>
                    (quote k +:+ (if String.eqb gap "" then ":" else ": ") +:+ t) :: each ps'
                | None => each ps'
                end
            end) props))
  | VSet _ | VMap _ => Some "{}"
  end.

End Text.

(** The replacer function applied from the root down; [None] when the
    nesting exhausts the stack. *)
Fixpoint replace_with (fuel : nat) (r : Settings.Replacer) (k : string) (v : val)
  : option val :=
  match fuel with
  | O => None
  | S fuel =>
      match r k v with
      | VArr items =>
          VArr <$> mapM id (imap (fun i x => replace_with fuel r (pretty i) x) items)
      | VObj c props =>
          VObj c <$> mapM (fun kx => pair (fst kx) <$> replace_with fuel r (fst kx) (snd kx))
                          props
      | v' => Some v'
      end
  end.

Definition stack_depth : nat := 1000.

(** The indentation unit of [JSON.stringify(_, _, indent)]. *)
Definition gap_of (indent : Z) : string :=
  string_of_list_ascii (repeat " "%char (Z.to_nat (Z.min 10 indent))).

(** [JSON.stringify(v, replacer, indent)]. *)
Definition stringify (dates : Core.DateCodec) (v : val) (replacer : option Settings.Replacer)
    (indent : Z) : M val :=
  let print v :=
    match text dates (gap_of indent) "" v with
    | Some t => VStr t
    | None => VUndefined
    end in
  match replacer with
  | None => ret (print v)
  | Some r =>
      match replace_with stack_depth r "" v with
      | Some v' => ret (print v')
      | None => throw (RangeError "Maximum call stack size exceeded")
      end
  end.

(** *** Reading *)

Inductive parsed (A : Type) : Type :=
| Parsed (a : A) (rest : string)
| Malformed
| Unsupported.
Arguments Parsed {A} a rest.
Arguments Malformed {A}.
Arguments Unsupported {A}.

Definition is_ws (c : ascii) : bool :=
  let n := nat_of_ascii c in
  (n =? 32)%nat || (n =? 9)%nat || (n =? 10)%nat || (n =? 13)%nat.

Fixpoint skip_ws (s : string) : string :=
  match s with
  | String c s' => if is_ws c then skip_ws s' else s
  | EmptyString => s
  end.

Definition digit_of (c : ascii) : option Z :=
  let n := nat_of_ascii c in
  if (48 <=? n)%nat && (n <=? 57)%nat then Some (Z.of_nat (n - 48)) else None.

Definition is_digit (c : ascii) : bool :=
  match digit_of c with Some _ => true | None => false end.

Fixpoint read_digits (s : string) (acc : Z) : Z * string :=
  match s with
  | String c s' =>
      match digit_of c with
      | Some d => read_digits s' (10 * acc + d)%Z
      | None => (acc, s)
      end
  | EmptyString => (acc, s)
  end.

(** A number: an optional minus, then [0] or a digit sequence without a
    leading zero. *)
Definition read_number (s : string) : parsed val :=
  let '(negative, s) :=
    match s with
    | String "-" s' => (true, s')
    | _ => (false, s)
    end in
  match s with
  | String c s' =>
      match digit_of c with
      | Some d =>
          let '(n, rest) := if (d =? 0)%Z then (0%Z, s') else read_digits s' d in
          match rest with
          | String c' _ =>
              if is_digit c' then Malformed
              else if Ascii.eqb c' "." || Ascii.eqb c' "e" || Ascii.eqb c' "E" then Unsupported
              else Parsed (VNum (if negative then - n else n)%Z) rest
          | EmptyString => Parsed (VNum (if negative then - n else n)%Z) rest
          end
      | None => Malformed
      end
  | EmptyString => Malformed
  end.

(** The characters of a string up to its closing quote; [acc] holds the
    characters read so far, last first. *)
Fixpoint read_string (s : string) (acc : list ascii) : parsed string :=
  match s with
  | EmptyString => Malformed
  | String c s' =>
      if Ascii.eqb c dquote then Parsed (string_of_list_ascii (rev acc)) s'
      else if Ascii.eqb c backslash then
        match s' with
        | String e s'' =>
            if Ascii.eqb e dquote then read_string s'' (dquote :: acc)
            else if Ascii.eqb e backslash then read_string s'' (backslash :: acc)
            else if Ascii.eqb e "/" then read_string s'' ("/"%char :: acc)
            else if Ascii.eqb e "b" then read_string s'' (ascii_of_nat 8 :: acc)
            else if Ascii.eqb e "f" then read_string s'' (ascii_of_nat 12 :: acc)
            else if Ascii.eqb e "n" then read_string s'' (ascii_of_nat 10 :: acc)
            else if Ascii.eqb e "r" then read_string s'' (ascii_of_nat 13 :: acc)
            else if Ascii.eqb e "t" then read_string s'' (ascii_of_nat 9 :: acc)
            else if Ascii.eqb e "u" then Unsupported
            else Malformed
        | EmptyString => Malformed
        end
      else if (nat_of_ascii c <? 32)%nat then Malformed
      else read_string s' (c :: acc)
  end.

Definition strip_prefix (p s : string) : option string :=
  if String.prefix p s then Some (String.substring (String.length p)
                                    (String.length s - String.length p) s)
  else None.

(** A value, the elements of an array after its first bracket, and the
    members of an object after its first brace.  Every call consumes a
    character, so the length of the text bounds the calls. *)
Fixpoint read_value (fuel : nat) (s : string) {struct fuel} : parsed val :=
  match fuel with
  | O => Malformed
  | S fuel =>
      let s := skip_ws s in
      match s with
      | EmptyString => Malformed
      | String c r =>
          if Ascii.eqb c dquote then
            match read_string r [] with
            | Parsed str rest => Parsed (VStr str) rest
            | Malformed => Malformed
            | Unsupported => Unsupported
            end
          else if Ascii.eqb c "[" then
            match skip_ws r with
            | String "]" rest => Parsed (VArr []) rest
            | r' =>
                match read_elements fuel r' with
                | Parsed vs rest => Parsed (VArr vs) rest
                | Malformed => Malformed
                | Unsupported => Unsupported
                end
            end
          else if Ascii.eqb c "{" then
            match skip_ws r with
            | String "}" rest => Parsed (VObj CObject []) rest
            | r' =>
                match read_members fuel r' [] with
                | Parsed props rest => Parsed (VObj CObject props) rest
                | Malformed => Malformed
                | Unsupported => Unsupported
                end
            end
          else if Ascii.eqb c "-" || is_digit c then read_number s
          else
            match strip_prefix "null" s, strip_prefix "true" s, strip_prefix "false" s with
            | Some rest, _, _ => Parsed VNull rest
            | _, Some rest, _ => Parsed (VBool true) rest
            | _, _, Some rest => Parsed (VBool false) rest
            | _, _, _ => Malformed
            end
      end
  end
with read_elements (fuel : nat) (s : string) {struct fuel} : parsed (list val) :=
  match fuel with
  | O => Malformed
  | S fuel =>
      match read_value fuel s with
      | Parsed v rest =>
          match skip_ws rest with
          | String "," rest' =>
              match read_elements fuel rest' with
              | Parsed vs rest'' => Parsed (v :: vs) rest''
              | Malformed => Malformed
              | Unsupported => Unsupported
              end
          | String "]" rest' => Parsed [v] rest'
          | _ => Malformed
          end
      | Malformed => Malformed
      | Unsupported => Unsupported
      end
  end
with read_members (fuel : nat) (s : string) (acc : list (string * val)) {struct fuel}
  : parsed (list (string * val)) :=
  match fuel with
  | O => Malformed
  | S fuel =>
      match skip_ws s with
      | String c r =>
          if Ascii.eqb c dquote then
            match read_string r [] with
            | Parsed k rest =>
                match skip_ws rest with
                | String ":" rest' =>
                    match read_value fuel rest' with
                    | Parsed v rest'' =>
                        let acc := Core.obj_set acc k v in
                        match skip_ws rest'' with
                        | String "," more => read_members fuel more acc
                        | String "}" done => Parsed acc done
                        | _ => Malformed
                        end
                    | Malformed => Malformed
                    | Unsupported => Unsupported
                    end
                | _ => Malformed
                end
            | Malformed => Malformed
            | Unsupported => Unsupported
            end
          else Malformed
      | EmptyString => Malformed
      end
  end.

(** [JSON.parse(json)]. *)
Definition parse (json : string) : M val :=
  match read_value (S (String.length json)) json with
  | Parsed v rest =>
      if String.eqb (skip_ws rest) "" then ret v
      else throw (SyntaxError "Unexpected token in JSON")
  | Malformed => throw (SyntaxError "Unexpected token in JSON")
  | Unsupported => throw (UserError "JSON text outside the modelled fragment")
  end.

End Json.

(** ** The converter over the conversion core *)

Module Standard.

Import Facade.

(** The error handler of a serializer or deserializer: the one last set, or
    the logging one. *)
Definition handler_of (h : option Settings.ErrorHandler) : Settings.ErrorHandler :=
  default default_errorHandler h.

(** A type-hint emitter set through the settings takes the place of the
    default one; it is given the plain object and returns it. *)
Definition emitter_of (e : option Settings.TypeHintEmitter)
  : list (string * val) -> val -> Ctor -> list (string * val) :=
  match e with
  | None => Core.default_emitTypeHint nameof
  | Some f => fun target source expected =>
      match f (VObj CObject target) source expected with
      | VObj _ target' => target'
      | _ => target
      end
  end.

(** A type resolver set through the settings takes the place of the default
    one; the expected constructor stands when it resolves nothing. *)
Definition resolver_of (r : option Settings.TypeResolver)
  : list (string * val) -> gmap string Ctor -> Ctor -> Exn + Ctor :=
  match r with
  | None => Core.default_resolveConstructor
  | Some f => fun props table expected =>
      inr (default expected (f (VObj CObject props) table))
  end.

(** Modelled from the spec: the methods of [Serializer] that the converter
    calls ([typedjson/serializer.ts] is not part of the sources at hand).
    By section 6 the array, set and map variants differ from the conversion
    of a single value in the top-level type tag only. *)
Definition serializer (reg : Metadata.Registry) (dates : Core.DateCodec) : Serializer :=
  let convert st v tag :=
    Core.serialize reg dates (handler_of (ser_errorHandler st))
      (emitter_of (ser_typeHintEmitter st)) v tag in
  {| ser_convertSingleValue := fun st v selfType => convert st v (Core.tag_of_ctor selfType);
     ser_convertAsArray := fun st v elementCtors => convert st v (Core.elements_tag elementCtors);
     ser_convertAsSet := fun st v elementCtor =>
       convert st v (Core.SetOf (Core.tag_of_ctor elementCtor));
     ser_convertAsMap := fun st v keyCtor valueCtor =>
       convert st v (Core.MapOf (Core.tag_of_ctor keyCtor) (Core.tag_of_ctor valueCtor)) |}.

(** The element type of a container, last in [elementConstructor]. *)
Definition element_ctor (typeInfo : TypeInfo) : Ctor :=
  List.last (default [] (elementConstructor typeInfo)) CObject.

(** Modelled from the spec: the methods of [Deserializer] that the
    converter calls ([typedjson/deserializer.ts] is not part of the sources
    at hand), each with the type tag its type information stands for. *)
Definition deserializer (reg : Metadata.Registry) (dates : Core.DateCodec) : Deserializer :=
  let convert st plain typeInfo tag :=
    Core.deserialize reg dates (handler_of (des_errorHandler st))
      (resolver_of (des_typeResolver st)) (knownTypes typeInfo) plain tag in
  {| des_convertSingleValue := fun st plain typeInfo =>
       convert st plain typeInfo (Core.tag_of_ctor (selfConstructor typeInfo));
     des_convertAsArray := fun st plain typeInfo =>
       convert st plain typeInfo (Core.elements_tag (default [] (elementConstructor typeInfo)));
     des_convertAsSet := fun st plain typeInfo =>
       convert st plain typeInfo (Core.SetOf (Core.tag_of_ctor (element_ctor typeInfo)));
     des_convertAsMap := fun st plain typeInfo =>
       convert st plain typeInfo
         (Core.MapOf (Core.tag_of_ctor (default CObject (keyConstructor typeInfo)))
                     (Core.tag_of_ctor (element_ctor typeInfo))) |}.

(** A host: a registry and a class hierarchy around the JSON codec. *)
Definition host (reg : Metadata.Registry) (supers : Ctor -> list Ctor)
    (dates : Core.DateCodec) : Host :=
  {| getFromConstructor := reg; superclasses := supers;
     JSON_parse := Json.parse; JSON_stringify := Json.stringify dates |}.

(** A codec of dates to run examples with: the time value in decimal. *)
Definition decimal_dates : Core.DateCodec :=
  {| Core.toISOString := fun ms => NilZero.string_of_int (Z.to_int ms);
     Core.fromISOString := fun s => Z.of_int <$> NilZero.int_of_string s |}.

End Standard.

(** ** A small program to run the converter on *)

Module Examples.

Import Metadata.

Definition Point : Ctor := CClass 1 "Point".
Definition Shape : Ctor := CClass 2 "Shape".
Definition Circle : Ctor := CClass 3 "Circle".
Definition Route : Ctor := CClass 4 "Route".
(** Two classes of the same name, from two modules. *)
Definition Account : Ctor := CClass 10 "Account".
Definition LegacyAccount : Ctor := CClass 11 "Account".

Definition member (k : string) (c : Ctor) (elements : list Ctor) (keys : option Ctor)
  : JsonMemberMetadata :=
  {| ctor := c; elementType := elements; keyType := keys; key := k; name := k;
     isRequired := Some false; emitDefaultValue := Some false |}.

Definition jsonObject (known : list Ctor) (members : list JsonMemberMetadata)
  : JsonObjectMetadata :=
  {| isExplicitlyMarked := true; knownTypes := known; dataMembers := members |}.

(** [class Point { x: number; y: number }],
    [class Shape { name: string }] with [Circle] as a known type,
    [class Circle extends Shape { radius: number }],
    [class Route { start: Point; label: string; open: boolean; at: Date;
                   grid: number[][]; stops: Set<number>;
                   fares: Map<string, number> }];
    [Number] answers as a root type of its own. *)
Definition registry : Registry := fun c =>
  if bool_decide (c = Point) then
    Some (jsonObject [] [member "x" CNumber [] None; member "y" CNumber [] None])
  else if bool_decide (c = Shape) then
    Some (jsonObject [Circle] [member "name" CString [] None])
  else if bool_decide (c = Circle) then
    Some (jsonObject [] [member "name" CString [] None; member "radius" CNumber [] None])
  else if bool_decide (c = Route) then
    Some (jsonObject []
            [member "start" Point [] None;
             member "label" CString [] None;
             member "open" CBoolean [] None;
             member "at" CDate [] None;
             member "grid" CArray [CArray; CNumber] None;
             member "stops" CSet [CNumber] None;
             member "fares" CMap [CNumber] (Some CString)])
  else if bool_decide (c = CNumber) then Some (jsonObject [] [])
  else None.

Definition superclasses (c : Ctor) : list Ctor :=
  if bool_decide (c = Circle) then [Shape] else [].

Definition host : Facade.Host :=
  Standard.host registry superclasses Standard.decimal_dates.
Definition serializer : Facade.Serializer :=
  Standard.serializer registry Standard.decimal_dates.
Definition deserializer : Facade.Deserializer :=
  Standard.deserializer registry Standard.decimal_dates.

(** An error handler that re-throws. *)
Definition rethrow : Settings.ErrorHandler := fun e => throw e.

(** [{ errorHandler: e => { throw e; } }] and [{ knownTypes: [...] }]. *)
Definition strict : Settings.ITypedJSONSettings :=
  {| Settings.errorHandler := Given rethrow; Settings.typeResolver := Absent;
     Settings.nameResolver := Absent; Settings.typeHintEmitter := Absent;
     Settings.indent := Absent; Settings.replacer := Absent;
     Settings.knownTypes := Absent |}.

Definition known (ctors : list Ctor) : Settings.ITypedJSONSettings :=
  Settings.with_knownTypes Settings.empty (Given (map Settings.KtCtor ctors)).

(** The converter that [new TypedJSON(Point, known [Account; LegacyAccount])]
    constructs. *)
Definition accounts_converter : Facade.TypedJSON :=
  {| Facade.serializer := Facade.serializer (Facade.fresh Point);
     Facade.deserializer := Facade.deserializer (Facade.fresh Point);
     Facade.globalKnownTypes := [Settings.KtCtor Account; Settings.KtCtor LegacyAccount];
     Facade.indent := 0;
     Facade.rootConstructor := Point;
     Facade.errorHandler := Facade.default_errorHandler;
     Facade.nameResolver := nameof;
     Facade.replacer := None |}.

(** A text with a quoted word in it. *)
Definition quoted (s : string) : string :=
  String Json.dquote (s +:+ String Json.dquote "").

Definition route : val :=
  VObj Route
    [("start", VObj Point [("x", VNum 1); ("y", VNum (-2))]);
     ("label", VStr "harbour line");
     ("open", VBool true);
     ("at", VDate 1500000000000);
     ("grid", VArr [VArr [VNum 1; VNum 2]; VArr [VNum 3]]);
     ("stops", VSet [VNum 4; VNum 7]);
     ("fares", VMap [(VStr "adult", VNum 3); (VStr "child", VNum 1)])].

(** ReflectDecorators loaded, every property declared as an array. *)
Definition arrays_everywhere : Decorators.Reflection :=
  {| Decorators.isReflectMetadataSupported := true;
     Decorators.designType := fun _ _ => Some CArray;
     Decorators.isSubtypeOf := fun c d => bool_decide (Some c = d) |}.

End Examples.

(** ** The global configuration as a shared object

    [setGlobalConfig] keeps the object it is first given and assigns into
    that object afterwards.  Here the settings objects live in a heap, and
    [TypedJSON._globalConfig] holds a reference to one of them. *)

Module Shared.

Import Settings.

Definition ref : Type := positive.

Record Statics : Type := {
  heap : ref -> ITypedJSONSettings;
  _globalConfig : option ref
}.

(** [TypedJSON.setGlobalConfig(config)]. *)
Definition setGlobalConfig (config : ref) (st : Statics) : Statics :=
  match _globalConfig st with
  | Some g =>
      let assigned := Settings.assign (heap st g) (heap st config) in
      {| heap := fun r => if bool_decide (r = g) then assigned else heap st r;
         _globalConfig := Some g |}
  | None => {| heap := heap st; _globalConfig := Some config |}
  end.

(** What a converter reads through [TypedJSON._globalConfig]. *)
Definition read (st : Statics) : option ITypedJSONSettings :=
  heap st <$> _globalConfig st.

End Shared.

(** ** Invariants of a converter and of the registry *)

Module Invariants.

Import Facade Metadata Decorators.

(** The serializer and the deserializer were handed the error handler of
    the converter, or none was ever set and the converter logs. *)
Definition handlers_agree (this : TypedJSON) : Prop :=
  match ser_errorHandler (serializer this), des_errorHandler (deserializer this) with
  | None, None => errorHandler this = default_errorHandler
  | Some hs, Some hd => hs = errorHandler this /\ hd = errorHandler this
  | _, _ => False
  end.

(** The deserializer was handed the name resolver of the converter, or none
    was ever set and the converter resolves a class to its name. *)
Definition resolvers_agree (this : TypedJSON) : Prop :=
  match des_nameResolver (deserializer this) with
  | None => nameResolver this = nameof
  | Some r => r = nameResolver this
  end.

(** An exception that leaves [m] is one that the error handler threw, on an
    error that [m] had passed to it. *)
Definition thrown_by_handler {A} (handler : Exn -> M unit) (m : M A) : Prop :=
  forall e', outcome m = Throw e' ->
    exists e, Handled e ∈ events m /\ outcome (handler e) = Throw e'.

(** A member descriptor as [jsonMember] or [jsonSetMember] builds it: named
    by its property key, without a key type, and either a [Set] with one
    element type or no container and no element type. *)
Definition as_decorated (m : JsonMemberMetadata) : Prop :=
  name m = key m /\ keyType m = None /\
  ((ctor m = CSet /\ exists e, elementType m = [e]) \/
   (is_container (ctor m) = false /\ elementType m = [])).

(** Every member of every class of a registry. *)
Definition every_member (P : JsonMemberMetadata -> Prop) (r : Registry) : Prop :=
  forall c md m, r c = Some md -> m ∈ dataMembers md -> P m.

End Invariants.

(** ** A name resolver that throws

    [Settings.NameResolver] is the name resolver of a converter where it
    returns.  A resolver that a caller wrote may also throw on a
    constructor: [throws c] is its exception then.  [parse] calls the
    resolver on each known type while it builds its table, before its [try]
    block, so the first exception of the resolver leaves [parse] as it is. *)

Module Resolving.

Import Facade.

Definition Throws : Type := Ctor -> option Exn.

(** The constructors that [parse] resolves, in the order of its two loops:
    the defined elements of the global known types, then the known types of
    the root class. *)
Definition resolved_by_parse (H : Host) (this : TypedJSON) : list Ctor :=
  defined_ctors (globalKnownTypes this) ++ root_knownTypes H this.

(** [parse(json)] of a converter whose name resolver throws where [throws]
    says. *)
Definition parse (throws : Throws) (H : Host) (D : Deserializer) (this : TypedJSON)
    (json : string) : M val :=
  match omap throws (resolved_by_parse H this) with
  | e :: _ => throw e
  | [] => Facade.parse H D this json
  end.

End Resolving.

(** ** Property keys that are symbols, options that are null

    A decorator is handed the key of the property it decorates, a string or
    a symbol, and each of the decorators first builds its [decoratorName]
    from the key in a template literal, which throws on a symbol.
    [Decorators] has the decorators where they get past that line, on a
    string key; here are their calls on any key.  An exception leaves the
    registry and the console as they were. *)

Module Keyed.

Import Metadata Decorators.

Inductive PropertyKey : Type :=
| StringKey (s : string)
| SymbolKey (description : string).

(** [`${propKey}`]. *)
Definition text_of (propKey : PropertyKey) : M string :=
  match propKey with
  | StringKey s => ret s
  | SymbolKey _ => throw (TypeError "Cannot convert a Symbol value to a string")
  end.

(** The two declared call signatures of [jsonMember], on any key. *)
Inductive JsonMemberCall : Type :=
| Direct (target : Ctor) (propKey : PropertyKey)
| Factory (options : option MemberOptions.IJsonMemberOptions) (target : Ctor)
          (propKey : PropertyKey).

(** [jsonMember(target, propKey)] and [jsonMember(options)(target, propKey)]:
    both paths build [decoratorName] before anything else. *)
Definition jsonMember (R : Reflection) (call : JsonMemberCall) (st : RegState)
  : M RegState :=
  match call with
  | Direct target propKey =>
      let! propKey := text_of propKey in
      ret (Decorators.jsonMember R (Decorators.Direct target propKey) st)
  | Factory options target propKey =>
      let! propKey := text_of propKey in
      ret (Decorators.jsonMember R (Decorators.Factory options target propKey) st)
  end.

(** The [options] argument of [jsonSetMember]: left out (or [undefined],
    which the default parameter replaces by [{}]), [null], or an object. *)
Inductive SetMemberOptionsArg : Type :=
| NoOptions
| NullOptions
| Options (options : SetMemberOptions.IJsonSetMemberOptions).

(** What [jsonSetMember] checks before it builds the member. *)
Definition accepts_a_set (R : Reflection) (elementConstructor : option Ctor)
    (target : Ctor) (propKey : string) : bool :=
  match elementConstructor with
  | None => false
  | Some _ =>
      negb (isReflectMetadataSupported R
            && negb (bool_decide (designType R target propKey = Some CSet)))
  end.

(** [jsonSetMember(elementConstructor, options)(target, propKey)].  The name
    is built first; the two checks log and return whatever the options are;
    past them, reading [options.emitDefaultValue] throws when the options
    are [null]. *)
Definition jsonSetMember (R : Reflection) (elementConstructor : option Ctor)
    (options : SetMemberOptionsArg) (target : Ctor) (propKey : PropertyKey)
    (st : RegState) : M RegState :=
  let! propKey := text_of propKey in
  match options with
  | NoOptions =>
      ret (Decorators.jsonSetMember R elementConstructor None target propKey st)
  | Options options =>
      ret (Decorators.jsonSetMember R elementConstructor (Some options) target propKey st)
  | NullOptions =>
      if accepts_a_set R elementConstructor target propKey
      then throw (TypeError "Cannot read property 'emitDefaultValue' of null")
      else ret (Decorators.jsonSetMember R elementConstructor None target propKey st)
  end.

End Keyed.

(** ** More of the small program *)

Module Scenarios.

(** Three settings objects in the heap, none of them the global
    configuration yet. *)
Definition statics : Shared.Statics :=
  {| Shared.heap := fun r =>
       if bool_decide (r = 1%positive) then Examples.strict
       else if bool_decide (r = 2%positive) then Examples.known [Examples.Circle]
       else Settings.empty;
     Shared._globalConfig := None |}.

(** A converter of [Point] whose error handler re-throws. *)
Definition strict_converter : Facade.TypedJSON :=
  Facade.set_errorHandler Examples.rethrow (Facade.fresh Examples.Point).

(** The converter that [new TypedJSON(Point, known [Shape])] constructs
    while the global configuration is [known [Circle]]. *)
Definition shapes_converter : Facade.TypedJSON :=
  {| Facade.serializer := Facade.serializer (Facade.fresh Examples.Point);
     Facade.deserializer := Facade.deserializer (Facade.fresh Examples.Point);
     Facade.globalKnownTypes :=
       [Settings.KtCtor Examples.Shape; Settings.KtCtor Examples.Circle];
     Facade.indent := 0;
     Facade.rootConstructor := Examples.Point;
     Facade.errorHandler := Facade.default_errorHandler;
     Facade.nameResolver := nameof;
     Facade.replacer := None |}.

(** An error handler that gives up on the errors of a conversion, with an
    exception of its own, and lets every other error pass. *)
Definition selective : Settings.ErrorHandler := fun e =>
  match e with
  | ConversionError _ _ => throw (UserError "abort")
  | _ => ret tt
  end.

Definition selective_settings : Settings.ITypedJSONSettings :=
  {| Settings.errorHandler := Given selective; Settings.typeResolver := Absent;
     Settings.nameResolver := Absent; Settings.typeHintEmitter := Absent;
     Settings.indent := Absent; Settings.replacer := Absent;
     Settings.knownTypes := Absent |}.

(** The converter that [new TypedJSON(Point, selective_settings)]
    constructs. *)
Definition selective_converter : Facade.TypedJSON :=
  Facade.set_errorHandler selective (Facade.fresh Examples.Point).

(** The text of a point whose [x] is a string. *)
Definition misfit_point_text : string :=
  "{" +:+ Examples.quoted "x" +:+ ":" +:+ Examples.quoted "one" +:+ "}".

(** A name resolver that throws on [Circle]. *)
Definition circle_throws : Resolving.Throws := fun c =>
  if bool_decide (c = Examples.Circle) then Some (UserError "resolver") else None.

(** A route with its properties in another order, a property that is not
    declared, and most of its members unset. *)
Definition sparse_route : val :=
  VObj Examples.Route
    [("note", VStr "not declared");
     ("label", VStr "harbour line");
     ("start", VObj Examples.Point [("y", VNum 2)]);
     ("stops", VSet [VNum 4; VNum 7])].

Definition Tally : Ctor := CClass 20 "Tally".
Definition Tagged : Ctor := CClass 21 "Tagged".
Definition Pair : Ctor := CClass 22 "Pair".
Definition Badge : Ctor := CClass 23 "Badge".

Definition member_with (k n : string) (c : Ctor) (required emitDefault : bool)
  : Metadata.JsonMemberMetadata :=
  {| Metadata.ctor := c; Metadata.elementType := []; Metadata.keyType := None;
     Metadata.key := k; Metadata.name := n;
     Metadata.isRequired := Some required;
     Metadata.emitDefaultValue := Some emitDefault |}.

(** [class Tally { @jsonMember({ emitDefaultValue: true }) count: number }],
    [class Tagged { @jsonMember({ name: "__type" }) kind: string }],
    [class Pair { @jsonMember({ name: "side" }) left: number;
                  @jsonMember({ name: "side" }) right: number }],
    [class Badge { @jsonMember({ isRequired: true }) id: number;
                   @jsonMember label: string }]. *)
Definition awkward : Metadata.Registry := fun c =>
  if bool_decide (c = Tally) then
    Some (Examples.jsonObject [] [member_with "count" "count" CNumber false true])
  else if bool_decide (c = Tagged) then
    Some (Examples.jsonObject [] [member_with "kind" Core.type_hint_key CString false false])
  else if bool_decide (c = Pair) then
    Some (Examples.jsonObject []
            [member_with "left" "side" CNumber false false;
             member_with "right" "side" CNumber false false])
  else if bool_decide (c = Badge) then
    Some (Examples.jsonObject []
            [member_with "id" "id" CNumber true false;
             member_with "label" "label" CString false false])
  else None.

(** The registry of a program that has decorated nothing. *)
Definition nothing_registered : Metadata.Registry :=
  Decorators.registry Decorators.no_metadata.

(** A serializer that fails on every value. *)
Definition failing_serializer : Facade.Serializer :=
  {| Facade.ser_convertSingleValue := fun _ _ _ => throw (UserError "serializer");
     Facade.ser_convertAsArray := fun _ _ _ => throw (UserError "serializer");
     Facade.ser_convertAsSet := fun _ _ _ => throw (UserError "serializer");
     Facade.ser_convertAsMap := fun _ _ _ _ => throw (UserError "serializer") |}.

(** ReflectDecorators loaded, every property declared as a number. *)
Definition numbers_everywhere : Decorators.Reflection :=
  {| Decorators.isReflectMetadataSupported := true;
     Decorators.designType := fun _ _ => Some CNumber;
     Decorators.isSubtypeOf := fun c d => bool_decide (Some c = d) |}.

End Scenarios.

(** * Properties of the converter *)

Import Facade.

(** ** The effect monad *)

Lemma bind_ret {A B} (a : A) (k : A -> M B) : bind (ret a) k = k a.
Proof. unfold bind, ret. destruct (k a) as [evs r]. reflexivity. Qed.

Lemma bind_events_ret {A B} evs (a : A) (k : A -> M B) :
  bind (evs, Ret a) k = (evs ++ events (k a), outcome (k a)).
Proof. unfold bind. destruct (k a). reflexivity. Qed.

Lemma try_catch_throw {A} evs e (h : Exn -> M A) :
  try_catch (evs, Throw e) h = (evs ++ events (h e), outcome (h e)).
Proof. unfold try_catch. destruct (h e). reflexivity. Qed.

Lemma try_catch_returns {A} (m : M A) (a : A) h :
  outcome m = Ret a -> try_catch m h = m.
Proof. destruct m as [evs r]. cbn [outcome snd]. intros ->. reflexivity. Qed.

(** ** The error handler *)

Lemma call_errorHandler_eq this e :
  call_errorHandler this e
  = (Handled e :: events (errorHandler this e), outcome (errorHandler this e)).
Proof.
  unfold call_errorHandler, emit. rewrite bind_events_ret. reflexivity.
Qed.

(** [this.errorHandler(e); return fallback;] after any events. *)
Lemma handled_then_return this e fallback evs :
  let call := bind (evs, Ret tt) (fun _ => call_errorHandler this e ;; ret fallback) in
  handled_with this e fallback call.
Proof.
  intros call. subst call. unfold handled_with.
  rewrite bind_events_ret, call_errorHandler_eq.
  destruct (errorHandler this e) as [hevs [[]|e'']]; cbn.
  - split; [set_solver|]. split; [reflexivity|discriminate].
  - split; [set_solver|]. split; [discriminate|]. intros e' [= ->]. reflexivity.
Qed.

(** [catch (e) { this.errorHandler(e); } return fallback;] *)
Lemma caught_by_handler this (m : M val) (fallback : val) e :
  outcome m = Throw e ->
  handled_with this e fallback
    (try_catch m (fun e => call_errorHandler this e ;; ret fallback)).
Proof.
  destruct m as [evs r]. cbn [outcome snd]. intros ->.
  pose proof (handled_then_return this e fallback evs) as Hcall.
  cbn zeta in Hcall. rewrite bind_events_ret in Hcall.
  rewrite try_catch_throw. exact Hcall.
Qed.

(** ** The constructor *)

Lemma not_registered_throws H G root settings :
  root_check H root = true ->
  new_TypedJSON H G root settings = throw (TypeError root_type_message).
Proof. intros Hroot. unfold new_TypedJSON. rewrite Hroot. reflexivity. Qed.

Lemma registered_constructs H G root settings :
  root_check H root = false ->
  new_TypedJSON H G root settings
  = match settings with
    | Some settings => apply_settings (fresh root) (merge_global G settings)
    | None =>
        match G with
        | Some _ => apply_settings (fresh root) (merge_global G Settings.empty)
        | None => ret (fresh root)
        end
    end.
Proof. intros Hroot. unfold new_TypedJSON. rewrite Hroot. reflexivity. Qed.

(** C4.  A root constructor that has no class metadata, or whose metadata
    is not explicitly marked, makes [new TypedJSON] throw the [TypeError] at
    once: the call records no event, so no error handler is invoked (not even
    one passed in [settings]), and every static entry point throws the same
    error before it converts anything. *)
Theorem unregistered_root_is_rejected_at_construction
    (H : Host) (S : Serializer) (D : Deserializer)
    (G : option Settings.ITypedJSONSettings) (root : Ctor)
    (settings : option Settings.ITypedJSONSettings) :
  (getFromConstructor H root = None \/
   exists md, getFromConstructor H root = Some md /\ Metadata.isExplicitlyMarked md = false) ->
  let rejected {A} (call : M A) := call = ([], Throw (TypeError root_type_message)) in
  rejected (new_TypedJSON H G root settings) /\
  (forall json, rejected (Static.parse H D G json root settings)) /\
  (forall json, rejected (Static.parseAsArray H D G json root settings)) /\
  (forall json, rejected (Static.parseAsSet H D G json root settings)) /\
  (forall json keyType, rejected (Static.parseAsMap H D G json keyType root settings)) /\
  (forall object, rejected (Static.stringify H S G object root settings)) /\
  (forall object dimensions,
     rejected (Static.stringifyAsArray H S G object root dimensions settings)) /\
  (forall object, rejected (Static.stringifyAsSet H S G object root settings)) /\
  (forall object keyCtor, rejected (Static.stringifyAsMap H S G object keyCtor root settings)).
Proof.
  intros Hroot rejected.
  assert (Hnew : new_TypedJSON H G root settings = throw (TypeError root_type_message)).
  { apply not_registered_throws. unfold root_check.
    destruct Hroot as [-> | (md & -> & ->)]; reflexivity. }
  unfold rejected, Static.parse, Static.parseAsArray, Static.parseAsSet, Static.parseAsMap,
    Static.stringify, Static.stringifyAsArray, Static.stringifyAsSet, Static.stringifyAsMap.
  rewrite Hnew.
  repeat split; intros; reflexivity.
Qed.

(** ** Arguments of the wrong type *)

Lemma primitive_instanceof supers v c :
  prototype_chain supers v = [] -> instanceof supers v c = false.
Proof.
  intros Hchain. unfold instanceof. rewrite Hchain.
  apply bool_decide_eq_false, not_elem_of_nil.
Qed.

(** C9, at the arguments where the code departs from it.  [undefined] and
    [null] are not instances of the root constructor, yet [stringify] does
    not reach the error handler for them: building the message reads
    [object.constructor], which throws, and that exception leaves the call
    with no handler invoked and no [undefined] returned. *)
Theorem stringify_of_undefined_throws_past_the_handler
    (H : Host) (S : Serializer) (this : TypedJSON) :
  stringify H S this VUndefined
    = ([], Throw (TypeError "Cannot read property 'constructor' of undefined")) /\
  stringify H S this VNull
    = ([], Throw (TypeError "Cannot read property 'constructor' of null")).
Proof.
  split; unfold stringify; rewrite primitive_instanceof by reflexivity; reflexivity.
Qed.

(** On every other argument that is not an instance of the root constructor
    [stringify] does what C9 says: the handler receives the [TypeError], and
    the call returns [undefined] when the handler returns.  The serializer
    has no part in the result. *)
Lemma stringify_of_a_foreign_value
    (H : Host) (S S' : Serializer) (this : TypedJSON) (object : val) (c : Ctor) :
  instanceof (superclasses H) object (rootConstructor this) = false ->
  constructor_of object = Some c ->
  handled_with this
    (TypeError ("Expected object type to be '" +:+ nameof (rootConstructor this)
                  +:+ "', got '" +:+ nameof c +:+ "'."))
    VUndefined (stringify H S this object) /\
  stringify H S this object = stringify H S' this object.
Proof.
  intros Hinst Hctor. unfold stringify. rewrite Hinst. cbn [negb].
  unfold stringify_type_error. rewrite Hctor, bind_ret.
  split; [|reflexivity].
  pose proof (handled_then_return this
                (TypeError ("Expected object type to be '" +:+ nameof (rootConstructor this)
                              +:+ "', got '" +:+ nameof c +:+ "'."))
                VUndefined []) as Hcall.
  cbn zeta in Hcall. rewrite bind_events_ret in Hcall. exact Hcall.
Qed.

(** The empty string comes from the [catch] alone: whenever [stringify]
    returns it, either the conversion threw or [JSON.stringify] itself
    returned it. *)
Lemma stringify_empty_string
    (H : Host) (S : Serializer) (this : TypedJSON) (object : val) :
  outcome (stringify H S this object) = Ret (VStr "") ->
  instanceof (superclasses H) object (rootConstructor this) = true /\
  ((exists e, outcome (stringify_conversion H S this object) = Throw e) \/
   outcome (stringify_conversion H S this object) = Ret (VStr "")).
Proof.
  unfold stringify.
  destruct (instanceof (superclasses H) object (rootConstructor this)) eqn:Hinst;
    cbn [negb].
  - intros Hout. split; [reflexivity|].
    destruct (stringify_conversion H S this object) as [evs [v|e]] eqn:Hconv.
    + right. exact Hout.
    + left. eauto.
  - unfold stringify_type_error.
    destruct (constructor_of object) as [c|]; [|discriminate].
    rewrite bind_ret, call_errorHandler_eq.
    destruct (errorHandler this _) as [hevs [[]|e'']]; discriminate.
Qed.

(** The [else] branch the three container parsers share. *)
Lemma non_array_is_rejected (H : Host) (this : TypedJSON) (json : string)
    (evs : list Event) (object : val) (convert : val -> M val) (e : val -> Exn)
    (empty : val) :
  JSON_parse H json = (evs, Ret object) ->
  instanceof (superclasses H) object CArray = false ->
  handled_with this (e object) empty
    (let! object := JSON_parse H json in
     if instanceof (superclasses H) object CArray then convert object
     else call_errorHandler this (e object) ;; ret empty).
Proof.
  intros Hparse Hinst.
  pose proof (handled_then_return this (e object) empty evs) as Hcall.
  cbn zeta in Hcall. rewrite bind_events_ret in Hcall.
  rewrite Hparse, bind_events_ret, Hinst. exact Hcall.
Qed.

(** C10.  When [JSON.parse] returns a value that is not an array,
    [parseAsArray], [parseAsSet] and [parseAsMap] pass a [TypeError] to the
    error handler; when the handler returns they return an empty array, an
    empty set and an empty map, and when it throws its exception leaves the
    call. *)
Theorem container_parsers_reject_a_non_array
    (H : Host) (D : Deserializer) (this : TypedJSON) (json : string)
    (evs : list Event) (object : val) :
  JSON_parse H json = (evs, Ret object) ->
  instanceof (superclasses H) object CArray = false ->
  let expected (what : string) :=
    TypeError ("Expected 'json' to define " +:+ what +:+ ", but got "
                 +:+ typeof object +:+ ".") in
  (forall dimensions,
     handled_with this (expected "an Array") (VArr [])
       (parseAsArray H D this json dimensions)) /\
  handled_with this (expected "a Set (using an Array)") (VSet [])
    (parseAsSet H D this json) /\
  (forall keyConstructor,
     handled_with this (expected "a Set (using an Array)") (VMap [])
       (parseAsMap H D this json keyConstructor)).
Proof.
  intros Hparse Hinst expected. subst expected.
  split; [|split].
  - intros dimensions.
    exact (non_array_is_rejected H this json evs object _
             (fun object => TypeError ("Expected 'json' to define an Array, but got "
                                         +:+ typeof object +:+ "."))
             (VArr []) Hparse Hinst).
  - exact (non_array_is_rejected H this json evs object _
             (fun object => TypeError ("Expected 'json' to define a Set (using an Array), but got "
                                         +:+ typeof object +:+ "."))
             (VSet []) Hparse Hinst).
  - intros keyConstructor.
    exact (non_array_is_rejected H this json evs object _
             (fun object => TypeError ("Expected 'json' to define a Set (using an Array), but got "
                                         +:+ typeof object +:+ "."))
             (VMap []) Hparse Hinst).
Qed.

(** ** The known-types table *)

Lemma last_named_cons resolver n c l :
  last_named resolver n (c :: l)
  = match last_named resolver n l with
    | Some c' => Some c'
    | None => if decide (resolver c = n) then Some c else None
    end.
Proof.
  unfold last_named. rewrite filter_cons.
  destruct (decide (resolver c = n)) as [Heq|Hne].
  - rewrite last_cons. destruct (last (filter _ l)); reflexivity.
  - destruct (last (filter _ l)); reflexivity.
Qed.

(** A table built by successive [set] maps a name to the last constructor
    set under it. *)
Lemma lookup_foldl_set_knownType resolver l : forall (table : gmap string Ctor) n,
  foldl (set_knownType resolver) table l !! n
  = match last_named resolver n l with
    | Some c => Some c
    | None => table !! n
    end.
Proof.
  induction l as [|c l IH]; intros table n.
  - reflexivity.
  - cbn [foldl]. rewrite IH, last_named_cons.
    destruct (last_named resolver n l) as [c'|]; [reflexivity|].
    unfold set_knownType. rewrite lookup_insert.
    destruct (decide (resolver c = n)); reflexivity.
Qed.

Lemma last_named_app resolver n l1 l2 :
  last_named resolver n (l1 ++ l2)
  = match last_named resolver n l2 with
    | Some c => Some c
    | None => last_named resolver n l1
    end.
Proof.
  induction l1 as [|c l1 IH]; cbn [app].
  - destruct (last_named resolver n l2); reflexivity.
  - rewrite !last_named_cons, IH.
    destruct (last_named resolver n l2); reflexivity.
Qed.

Lemma parse_knownTypes_eq H this :
  parse_knownTypes H this
  = foldl (set_knownType (nameResolver this))
      (_mapKnownTypes this (globalKnownTypes this)) (root_knownTypes H this).
Proof.
  unfold parse_knownTypes, root_knownTypes, _mapKnownTypes.
  destruct (getFromConstructor H (rootConstructor this)); reflexivity.
Qed.

(** C2, as the code has it.  [parseAsArray], [parseAsSet] and [parseAsMap]
    hand the deserializer one and the same table, built by [_mapKnownTypes]
    from the globally configured known types alone; [parse] hands it that
    table extended by the known types of the root class, a name being mapped
    to the last root known type that resolves to it, if any, and otherwise as
    in the table of the globals. *)
Theorem known_types_of_each_entry_point (H : Host) (this : TypedJSON) :
  let globals := _mapKnownTypes this (globalKnownTypes this) in
  (forall elementCtors, knownTypes (parseAsArray_typeInfo this elementCtors) = globals) /\
  knownTypes (parseAsSet_typeInfo this) = globals /\
  (forall keyConstructor, knownTypes (parseAsMap_typeInfo this keyConstructor) = globals) /\
  knownTypes (parse_typeInfo H this)
    = foldl (set_knownType (nameResolver this)) globals (root_knownTypes H this) /\
  (forall n,
     knownTypes (parse_typeInfo H this) !! n
     = match last_named (nameResolver this) n (root_knownTypes H this) with
       | Some c => Some c
       | None => globals !! n
       end).
Proof.
  intros globals. split; [|split; [|split; [|split]]].
  - reflexivity.
  - reflexivity.
  - reflexivity.
  - apply parse_knownTypes_eq.
  - intros n. cbn [knownTypes parse_typeInfo].
    rewrite parse_knownTypes_eq. apply lookup_foldl_set_knownType.
Qed.

(** C3, as the code has it.  A known-types table maps a name to the last
    constructor put under it: a later constructor that resolves to the name
    of an earlier one replaces it, and building the table reports nothing. *)
Theorem later_known_type_replaces_earlier (H : Host) (this : TypedJSON) :
  (forall constructors n,
     _mapKnownTypes this constructors !! n
     = last_named (nameResolver this) n (defined_ctors constructors)) /\
  (forall n,
     parse_knownTypes H this !! n
     = last_named (nameResolver this) n
         (defined_ctors (globalKnownTypes this) ++ root_knownTypes H this)) /\
  (forall constructors c,
     _mapKnownTypes this (constructors ++ [Settings.KtCtor c]) !! nameResolver this c
     = Some c).
Proof.
  assert (Hmap : forall constructors n,
     _mapKnownTypes this constructors !! n
     = last_named (nameResolver this) n (defined_ctors constructors)).
  { intros constructors n. unfold _mapKnownTypes.
    rewrite lookup_foldl_set_knownType, lookup_empty.
    destruct (last_named _ n _); reflexivity. }
  split; [exact Hmap|split].
  - intros n. rewrite parse_knownTypes_eq, lookup_foldl_set_knownType.
    rewrite last_named_app, Hmap. reflexivity.
  - intros constructors c. rewrite Hmap.
    unfold defined_ctors. rewrite omap_app. cbn [omap list_omap].
    rewrite last_named_app, last_named_cons. cbn.
    rewrite decide_True by reflexivity. reflexivity.
Qed.


(** ** The global configuration *)

(** C8, as the code has it.  A converter constructed while a global
    configuration is set is the converter constructed without one from the
    settings merged over that configuration: a setting the caller supplies
    replaces the global one key by key, and the two [knownTypes] arrays are
    concatenated and de-duplicated. *)
Theorem global_configuration_acts_as_merged_settings
    (H : Host) (g : Settings.ITypedJSONSettings) (root : Ctor)
    (s : Settings.ITypedJSONSettings) :
  new_TypedJSON H (Some g) root (Some s)
    = new_TypedJSON H None root (Some (merge_global (Some g) s)) /\
  new_TypedJSON H (Some g) root None
    = new_TypedJSON H None root (Some (merge_global (Some g) Settings.empty)) /\
  Settings.errorHandler (merge_global (Some g) s)
    = spread (Settings.errorHandler g) (Settings.errorHandler s) /\
  Settings.typeResolver (merge_global (Some g) s)
    = spread (Settings.typeResolver g) (Settings.typeResolver s) /\
  Settings.nameResolver (merge_global (Some g) s)
    = spread (Settings.nameResolver g) (Settings.nameResolver s) /\
  Settings.typeHintEmitter (merge_global (Some g) s)
    = spread (Settings.typeHintEmitter g) (Settings.typeHintEmitter s) /\
  Settings.indent (merge_global (Some g) s)
    = spread (Settings.indent g) (Settings.indent s) /\
  Settings.replacer (merge_global (Some g) s)
    = spread (Settings.replacer g) (Settings.replacer s) /\
  Settings.knownTypes (merge_global (Some g) s)
    = match truthy (spread (Settings.knownTypes g) (Settings.knownTypes s)),
            truthy (Settings.knownTypes g) with
      | Some kts, Some gkts => Given (Settings.dedupe (kts ++ gkts))
      | _, _ => spread (Settings.knownTypes g) (Settings.knownTypes s)
      end.
Proof.
  assert (Hfields : forall s',
    let m := merge_global (Some g) s' in
    Settings.errorHandler m = spread (Settings.errorHandler g) (Settings.errorHandler s') /\
    Settings.typeResolver m = spread (Settings.typeResolver g) (Settings.typeResolver s') /\
    Settings.nameResolver m = spread (Settings.nameResolver g) (Settings.nameResolver s') /\
    Settings.typeHintEmitter m
      = spread (Settings.typeHintEmitter g) (Settings.typeHintEmitter s') /\
    Settings.indent m = spread (Settings.indent g) (Settings.indent s') /\
    Settings.replacer m = spread (Settings.replacer g) (Settings.replacer s')).
  { intros s'. cbn [merge_global].
    destruct (truthy (Settings.knownTypes (Settings.assign g s'))),
             (truthy (Settings.knownTypes g)); repeat split. }
  split; [|split].
  - destruct (root_check H root) eqn:Hroot.
    + by rewrite !(not_registered_throws H _ root _ Hroot).
    + rewrite !(registered_constructs H _ root _ Hroot). reflexivity.
  - destruct (root_check H root) eqn:Hroot.
    + by rewrite !(not_registered_throws H _ root _ Hroot).
    + rewrite !(registered_constructs H _ root _ Hroot). reflexivity.
  - destruct (Hfields s) as (He & Htr & Hnr & Hth & Hi & Hr).
    repeat (split; [assumption|]).
    cbn [merge_global Settings.assign Settings.knownTypes].
    destruct (truthy (spread (Settings.knownTypes g) (Settings.knownTypes s))),
             (truthy (Settings.knownTypes g)); reflexivity.
Qed.


(** ** The properties at work on the example program *)

(** An unregistered root at work. *)
Lemma unregistered_root_witness :
  Static.parse Examples.host Examples.deserializer None "{}" Examples.Account None
  = ([], Throw (TypeError root_type_message)).
Proof.
  exact (proj1 (proj2 (unregistered_root_is_rejected_at_construction
           Examples.host Examples.serializer Examples.deserializer None
           Examples.Account None (or_introl eq_refl))) "{}").
Defined.

(** An object where an array is expected: [parseAsSet] tells the handler
    and returns the empty set. *)
Lemma non_array_witness :
  handled_with (fresh Examples.Point)
    (TypeError "Expected 'json' to define a Set (using an Array), but got object.")
    (VSet [])
    (parseAsSet Examples.host Examples.deserializer (fresh Examples.Point) "{}").
Proof.
  exact (proj1 (proj2 (container_parsers_reject_a_non_array
           Examples.host Examples.deserializer (fresh Examples.Point) "{}" []
           (VObj CObject []) eq_refl eq_refl))).
Defined.

(** C2 as stated fails: for a converter of [Shape], whose class lists
    [Circle] as a known type, the table of [parse] knows ["Circle"] and the
    tables of the three container parsers do not. *)
Lemma root_known_types_are_missing_from_the_array_table :
  knownTypes (parse_typeInfo Examples.host (fresh Examples.Shape))
    <> knownTypes (parseAsArray_typeInfo (fresh Examples.Shape) [Examples.Shape]) /\
  knownTypes (parse_typeInfo Examples.host (fresh Examples.Shape)) !! "Circle"
    = Some Examples.Circle /\
  knownTypes (parseAsArray_typeInfo (fresh Examples.Shape) [Examples.Shape]) !! "Circle"
    = None /\
  knownTypes (parseAsSet_typeInfo (fresh Examples.Shape)) !! "Circle" = None /\
  knownTypes (parseAsMap_typeInfo (fresh Examples.Shape) CString) !! "Circle" = None /\
  new_TypedJSON Examples.host None Examples.Shape None = ret (fresh Examples.Shape).
Proof.
  assert (Hparse : knownTypes (parse_typeInfo Examples.host (fresh Examples.Shape))
                     !! "Circle" = Some Examples.Circle) by (vm_compute; reflexivity).
  assert (Harray : knownTypes (parseAsArray_typeInfo (fresh Examples.Shape) [Examples.Shape])
                     !! "Circle" = None) by (vm_compute; reflexivity).
  split; [|split; [exact Hparse|split; [exact Harray|]]].
  - intros Heq. rewrite Heq, Harray in Hparse. discriminate.
  - repeat split; vm_compute; reflexivity.
Qed.

(** C3 as stated fails: two distinct classes named ["Account"] among the
    known types leave the later one in the table, and the conversions run
    without any event, so without an ambiguity being reported. *)
Lemma colliding_names_are_not_reported :
  Examples.Account <> Examples.LegacyAccount /\
  nameof Examples.Account = nameof Examples.LegacyAccount /\
  new_TypedJSON Examples.host None Examples.Point
    (Some (Examples.known [Examples.Account; Examples.LegacyAccount]))
  = ([], Ret Examples.accounts_converter) /\
  _mapKnownTypes Examples.accounts_converter (globalKnownTypes Examples.accounts_converter)
    !! "Account" = Some Examples.LegacyAccount /\
  parse_knownTypes Examples.host Examples.accounts_converter !! "Account"
    = Some Examples.LegacyAccount /\
  parseAsArray Examples.host Examples.deserializer Examples.accounts_converter "[]" None
  = ([], Ret (VArr [])) /\
  parse Examples.host Examples.deserializer Examples.accounts_converter "{}"
  = ([], Ret (VObj Examples.Point [])).
Proof.
  split; [discriminate|]. split; [reflexivity|].
  split; [reflexivity|].
  split; [vm_compute; reflexivity|].
  split; [vm_compute; reflexivity|].
  split; vm_compute; reflexivity.
Qed.

(** C8 as stated fails: the same call of the static [stringify], with the
    same arguments and no settings, returns [undefined] before and throws
    after a call of [setGlobalConfig] that installs a re-throwing handler. *)
Lemma global_configuration_changes_a_conversion :
  Static.stringify Examples.host Examples.serializer None (VNum 5) Examples.Point None
  <> Static.stringify Examples.host Examples.serializer
       (setGlobalConfig None Examples.strict) (VNum 5) Examples.Point None /\
  outcome (Static.stringify Examples.host Examples.serializer None
             (VNum 5) Examples.Point None)
  = Ret VUndefined /\
  outcome (Static.stringify Examples.host Examples.serializer
             (setGlobalConfig None Examples.strict) (VNum 5) Examples.Point None)
  = Throw (TypeError "Expected object type to be 'Point', got 'Number'.").
Proof.
  assert (H1 : outcome (Static.stringify Examples.host Examples.serializer None
             (VNum 5) Examples.Point None) = Ret VUndefined) by (vm_compute; reflexivity).
  assert (H2 : outcome (Static.stringify Examples.host Examples.serializer
             (setGlobalConfig None Examples.strict) (VNum 5) Examples.Point None)
          = Throw (TypeError "Expected object type to be 'Point', got 'Number'."))
    by (vm_compute; reflexivity).
  split; [|split; assumption].
  intros Heq. rewrite Heq, H2 in H1. discriminate.
Qed.

(** * Properties of the member decorators *)

Section DecoratorProperties.

Import Metadata Decorators.

Variable R : Reflection.

Lemma isSpecialPropertyType_container c decoratorName st :
  is_container c = true ->
  exists msg, isSpecialPropertyType c decoratorName st = (true, logError msg st).
Proof.
  destruct c; try discriminate; intros _; eexists; reflexivity.
Qed.

Lemma isSpecialPropertyType_other c decoratorName st :
  is_container c = false ->
  isSpecialPropertyType c decoratorName st = (false, st).
Proof.
  destruct c; try discriminate; intros _; reflexivity.
Qed.

(** What [resolve_propCtor] settles on does not depend on the state, and it
    only writes to the console. *)
Lemma resolve_propCtor_spec options target propKey decoratorName st :
  let r := resolve_propCtor R options target propKey decoratorName st in
  fst r = fst (resolve_propCtor R options target propKey "" no_metadata) /\
  registry (snd r) = registry st /\
  exists logged, console (snd r) = console st ++ logged /\
    (is_Some (fst r) -> forall ev, ev ∈ logged -> exists msg, ev = ConsoleWarn msg).
Proof.
  unfold resolve_propCtor. cbn [typeof_boolean truthy_string String.eqb negb].
  destruct (MemberOptions.read_constructor options) as [c|].
  - destruct (isReflectMetadataSupported R && negb (isSubtypeOf R c (designType R target propKey)));
      cbn.
    + split; [reflexivity|]. split; [reflexivity|].
      eexists. split; [reflexivity|].
      intros _ ev Hev. apply list_elem_of_singleton in Hev. eauto.
    + split; [reflexivity|]. split; [reflexivity|].
      exists []. split; [by rewrite app_nil_r|]. intros _ ev Hev. by apply not_elem_of_nil in Hev.
  - cbn. split; [reflexivity|]. split; [reflexivity|].
    eexists. split; [reflexivity|]. intros [? [=]].
Qed.

Lemma set_member_elem m ms m' :
  m' ∈ set_member m ms -> m' = m \/ m' ∈ ms.
Proof.
  unfold set_member. destruct (existsb _ ms).
  - intros Hin. apply list_elem_of_fmap in Hin as (y & -> & Hy).
    destruct (String.eqb (key y) (key m)); auto.
  - intros Hin. apply elem_of_app in Hin as [Hin|Hin]; [auto|].
    apply list_elem_of_singleton in Hin. auto.
Qed.

(** Injecting a member that is not an object-shaped container keeps the
    invariant. *)
Lemma inject_keeps_containers_structural target propKey m st :
  (object_shaped m = true -> is_container (ctor m) = false) ->
  containers_are_structural (registry st) ->
  containers_are_structural (registry (injectMetadataInformation target propKey m st)).
Proof.
  intros Hm Hinv c md m' Hlookup Hin Hshape.
  cbn [injectMetadataInformation registry] in Hlookup.
  destruct (bool_decide (c = target)) eqn:Hc.
  - injection Hlookup as <-. cbn [dataMembers] in Hin.
    apply set_member_elem in Hin as [->|Hin]; [auto|].
    destruct (registry st target) as [md0|] eqn:Htarget; cbn in Hin.
    + exact (Hinv target md0 m' Htarget Hin Hshape).
    + by apply not_elem_of_nil in Hin.
  - exact (Hinv c md m' Hlookup Hin Hshape).
Qed.

Lemma jsonMember_keeps_containers_structural call st :
  containers_are_structural (registry st) ->
  containers_are_structural (registry (jsonMember R call st)).
Proof.
  intros Hinv. destruct call as [target propKey|options target propKey]; cbn [jsonMember].
  - unfold jsonMember_direct.
    destruct (isReflectMetadataSupported R); [|exact Hinv].
    destruct (designType R target propKey) as [c|]; [|exact Hinv].
    destruct (is_container c) eqn:Hc.
    + destruct (isSpecialPropertyType_container c
                  (decorator_name "@jsonMember" target propKey) st Hc) as [msg ->].
      exact Hinv.
    + rewrite isSpecialPropertyType_other by exact Hc.
      apply inject_keeps_containers_structural; [intros _; exact Hc|exact Hinv].
  - unfold jsonMember_factory.
    pose proof (resolve_propCtor_spec (default MemberOptions.empty options) target propKey
                  (decorator_name "@jsonMember" target propKey) st) as (_ & Hreg & _).
    destruct (resolve_propCtor R _ target propKey _ st) as [[c|] st1]; cbn [snd] in Hreg.
    + destruct (is_container c) eqn:Hc.
      * destruct (isSpecialPropertyType_container c
                    (decorator_name "@jsonMember" target propKey) st1 Hc) as [msg ->].
        cbn [logError registry]. rewrite Hreg. exact Hinv.
      * rewrite isSpecialPropertyType_other by exact Hc.
        apply inject_keeps_containers_structural; [intros _; exact Hc|].
        rewrite Hreg. exact Hinv.
    + rewrite Hreg. exact Hinv.
Qed.

Lemma jsonSetMember_keeps_containers_structural e o target propKey st :
  containers_are_structural (registry st) ->
  containers_are_structural (registry (jsonSetMember R e o target propKey st)).
Proof.
  intros Hinv. unfold jsonSetMember.
  destruct e as [e|]; [|exact Hinv].
  destruct (isReflectMetadataSupported R && _); [exact Hinv|].
  apply inject_keeps_containers_structural; [discriminate|exact Hinv].
Qed.

(** C6.  When the property constructor that [jsonMember] resolves is
    [Array], [Set] or [Map], the decorator leaves the registry as it was and
    logs an error (after at most warnings); [jsonMember] keeps the invariant
    that no object-shaped member descriptor carries a container builtin, and
    so does every sequence of [jsonMember] and [jsonSetMember] decorations
    from an empty registry. *)
Theorem jsonMember_rejects_container_builtins :
  (forall call st c,
     resolved_ctor R call = Some c -> is_container c = true ->
     registry (jsonMember R call st) = registry st /\
     exists warnings msg,
       console (jsonMember R call st) = console st ++ warnings ++ [ConsoleError msg] /\
       forall ev, ev ∈ warnings -> exists w, ev = ConsoleWarn w) /\
  (forall call st,
     containers_are_structural (registry st) ->
     containers_are_structural (registry (jsonMember R call st))) /\
  (forall ds, containers_are_structural (registry (decorate_all R ds no_metadata))).
Proof.
  split; [|split].
  - intros call st c Hres Hc.
    destruct call as [target propKey|options target propKey];
      cbn [jsonMember resolved_ctor] in *.
    + unfold jsonMember_direct.
      destruct (isReflectMetadataSupported R); [|discriminate].
      rewrite Hres.
      destruct (isSpecialPropertyType_container c
                  (decorator_name "@jsonMember" target propKey) st Hc) as [msg ->].
      split; [reflexivity|]. exists [], msg. split; [reflexivity|].
      intros ev Hev. by apply not_elem_of_nil in Hev.
    + unfold jsonMember_factory.
      pose proof (resolve_propCtor_spec (default MemberOptions.empty options) target propKey
                    (decorator_name "@jsonMember" target propKey) st)
        as (Hfst & Hreg & logged & Hcon & Hwarn).
      unfold no_metadata in Hfst. rewrite Hres in Hfst.
      destruct (resolve_propCtor R _ target propKey _ st) as [r st1].
      cbn [fst snd] in *. subst r.
      destruct (isSpecialPropertyType_container c
                  (decorator_name "@jsonMember" target propKey) st1 Hc) as [msg ->].
      cbn [logError registry console]. split; [exact Hreg|].
      exists logged, msg. rewrite Hcon, <- app_assoc. split; [reflexivity|].
      apply Hwarn. eauto.
  - exact jsonMember_keeps_containers_structural.
  - intros ds. unfold decorate_all.
    assert (Hgen : forall st, containers_are_structural (registry st) ->
              containers_are_structural (registry (foldl (decorate R) st ds))).
    { induction ds as [|d ds IH]; intros st Hinv; [exact Hinv|].
      cbn [foldl]. apply IH. destruct d; cbn [decorate].
      - by apply jsonMember_keeps_containers_structural.
      - by apply jsonSetMember_keeps_containers_structural. }
    apply Hgen. intros c md m Hlookup. discriminate.
Qed.

End DecoratorProperties.

(** A property declared as an array, decorated with [jsonMember]. *)
Lemma array_member_witness :
  Decorators.registry
    (Decorators.jsonMember Examples.arrays_everywhere
       (Decorators.Direct Examples.Route "grid") Decorators.no_metadata)
  = Decorators.registry Decorators.no_metadata.
Proof.
  exact (proj1 (proj1 (jsonMember_rejects_container_builtins Examples.arrays_everywhere)
           (Decorators.Direct Examples.Route "grid") Decorators.no_metadata CArray
           eq_refl eq_refl)).
Defined.

(** * Properties of the conversion core *)

(** ** Induction on values *)

Section val_induction.

Variable P : val -> Prop.
Hypothesis Pundefined : P VUndefined.
Hypothesis Pnull : P VNull.
Hypothesis Pnum : forall n, P (VNum n).
Hypothesis Pstr : forall s, P (VStr s).
Hypothesis Pbool : forall b, P (VBool b).
Hypothesis Pdate : forall ms, P (VDate ms).
Hypothesis Parr : forall items, Forall P items -> P (VArr items).
Hypothesis Pobj : forall c props, Forall (fun prop => P (snd prop)) props -> P (VObj c props).
Hypothesis Pset : forall items, Forall P items -> P (VSet items).
Hypothesis Pmap :
  forall entries, Forall (fun e => P (fst e) /\ P (snd e)) entries -> P (VMap entries).

Fixpoint val_nested_ind (v : val) : P v :=
  let all :=
    fix all (l : list val) : Forall P l :=
      match l with
      | [] => @List.Forall_nil _ P
      | x :: l' => @List.Forall_cons _ P x l' (val_nested_ind x) (all l')
      end in
  match v with
  | VUndefined => Pundefined
  | VNull => Pnull
  | VNum n => Pnum n
  | VStr s => Pstr s
  | VBool b => Pbool b
  | VDate ms => Pdate ms
  | VArr items => Parr items (all items)
  | VObj c props =>
      Pobj c props
        ((fix each (l : list (string * val)) : Forall (fun prop => P (snd prop)) l :=
            match l with
            | [] => @List.Forall_nil _ _
            | prop :: l' =>
                @List.Forall_cons _ (fun prop => P (snd prop)) prop l'
                  (val_nested_ind (snd prop)) (each l')
            end) props)
  | VSet items => Pset items (all items)
  | VMap entries =>
      Pmap entries
        ((fix each (l : list (val * val)) : Forall (fun e => P (fst e) /\ P (snd e)) l :=
            match l with
            | [] => @List.Forall_nil _ _
            | e :: l' =>
                @List.Forall_cons _ (fun e => P (fst e) /\ P (snd e)) e l'
                  (conj (val_nested_ind (fst e)) (val_nested_ind (snd e))) (each l')
            end) entries)
  end.

End val_induction.

(** ** Loops that meet no error *)

Lemma bind_quiet {A B} (a : A) (k : A -> M B) : bind ([], Ret a) k = k a.
Proof. unfold bind. destruct (k a). reflexivity. Qed.

Lemma traverse_cons {A B} (f : A -> M B) x l :
  traverse f (x :: l) = let! y := f x in let! ys := traverse f l in ret (y :: ys).
Proof. reflexivity. Qed.

Lemma foldM_cons {A B} (f : B -> A -> M B) x l acc :
  foldM f (x :: l) acc = let! acc' := f acc x in foldM f l acc'.
Proof. reflexivity. Qed.

Lemma traverse_quiet {A B} (f : A -> M B) (g : A -> B) (l : list A) :
  Forall (fun x => f x = ([], Ret (g x))) l ->
  traverse f l = ([], Ret (map g l)).
Proof.
  induction 1 as [|x l Hx _ IH]; [reflexivity|].
  rewrite traverse_cons, Hx, (bind_quiet (g x)), IH. reflexivity.
Qed.

Lemma traverse_back {A B} (f : B -> M A) (g : A -> B) (l : list A) :
  Forall (fun x => f (g x) = ([], Ret x)) l ->
  traverse f (map g l) = ([], Ret l).
Proof.
  induction 1 as [|x l Hx _ IH]; [reflexivity|].
  cbn [map]. rewrite traverse_cons, Hx, (bind_quiet x), IH. reflexivity.
Qed.

Lemma foldM_quiet {A B} (f : B -> A -> M B) (g : B -> A -> B) (l : list A) :
  (forall acc x, x ∈ l -> f acc x = ([], Ret (g acc x))) ->
  forall acc, foldM f l acc = ([], Ret (foldl g acc l)).
Proof.
  induction l as [|x l IH]; intros Hf acc; [reflexivity|].
  rewrite foldM_cons, Hf, (bind_quiet (g acc x)) by apply list_elem_of_here.
  apply IH. intros acc' y Hy. apply Hf. by apply list_elem_of_further.
Qed.

Lemma foldM_back {A B C} (f : C -> B -> M C) (g : A -> B) (h : C -> A -> C) (l : list A) :
  (forall acc x, x ∈ l -> f acc (g x) = ([], Ret (h acc x))) ->
  forall acc, foldM f (map g l) acc = ([], Ret (foldl h acc l)).
Proof.
  induction l as [|x l IH]; intros Hf acc; [reflexivity|].
  cbn [map]. rewrite foldM_cons, Hf, (bind_quiet (h acc x)) by apply list_elem_of_here.
  apply IH. intros acc' y Hy. apply Hf. by apply list_elem_of_further.
Qed.

(** ** Properties and sets *)

Lemma with_prop_find {A} k props (absent : A) f :
  Core.with_prop k props absent f
  = from_option f absent (Core.find_prop k props).
Proof.
  unfold Core.find_prop, Core.with_prop.
  induction props as [|[k' v] props IH]; [reflexivity|].
  destruct (String.eqb k' k); [reflexivity|exact IH].
Qed.

Lemma find_prop_cons k k' v props :
  Core.find_prop k ((k', v) :: props)
  = if String.eqb k' k then Some v else Core.find_prop k props.
Proof. reflexivity. Qed.

Lemma find_prop_None k props :
  k ∉ map fst props -> Core.find_prop k props = None.
Proof.
  induction props as [|[k' v] props IH]; [reflexivity|].
  cbn [map fst]. rewrite not_elem_of_cons. intros [Hne Hnin].
  rewrite find_prop_cons.
  destruct (String.eqb_spec k' k) as [->|_]; [done|auto].
Qed.

Lemma find_prop_elem k v props :
  NoDup (map fst props) -> (k, v) ∈ props -> Core.find_prop k props = Some v.
Proof.
  induction props as [|[k' v'] props IH]; intros Hnd Hin.
  - by apply not_elem_of_nil in Hin.
  - cbn [map fst] in Hnd. apply NoDup_cons in Hnd as [Hk' Hnd].
    rewrite find_prop_cons. apply elem_of_cons in Hin as [[= <- <-]|Hin].
    + by rewrite String.eqb_refl.
    + destruct (String.eqb_spec k' k) as [->|_]; [|auto].
      exfalso. apply Hk'. apply list_elem_of_fmap. by exists (k, v).
Qed.

Lemma obj_set_fresh props k v :
  k ∉ map fst props -> Core.obj_set props k v = props ++ [(k, v)].
Proof.
  induction props as [|[k' v'] props IH]; [reflexivity|].
  cbn [map fst]. rewrite not_elem_of_cons. intros [Hne Hnin].
  cbn [Core.obj_set app].
  destruct (String.eqb_spec k' k) as [->|_]; [done|].
  by rewrite IH.
Qed.

(** Writing the members of a class one after the other, each under a name
    of its own, lists them in order. *)
Lemma foldl_obj_set {A} (label : A -> string) (value : A -> val) (l : list A) :
  NoDup (map label l) ->
  forall acc, (forall x, x ∈ l -> label x ∉ map fst acc) ->
  foldl (fun props x => Core.obj_set props (label x) (value x)) acc l
  = acc ++ map (fun x => (label x, value x)) l.
Proof.
  induction l as [|x l IH]; intros Hnd acc Hfresh.
  - by rewrite app_nil_r.
  - cbn [map] in Hnd. apply NoDup_cons in Hnd as [Hx Hnd].
    cbn [foldl map]. rewrite obj_set_fresh by (apply Hfresh, list_elem_of_here).
    rewrite IH; [by rewrite <- app_assoc|exact Hnd|].
    intros y Hy. rewrite map_app. cbn [map fst].
    rewrite elem_of_app, list_elem_of_singleton.
    intros [Hin|Heq].
    + revert Hin. apply Hfresh. by apply list_elem_of_further.
    + apply Hx. rewrite <- Heq. apply list_elem_of_fmap. by exists y.
Qed.

Lemma same_value_zero_sym a b : Core.same_value_zero a b = Core.same_value_zero b a.
Proof.
  destruct a, b; cbn; try reflexivity.
  - apply Z.eqb_sym.
  - apply String.eqb_sym.
  - destruct b, b0; reflexivity.
Qed.

Lemma existsb_snoc {A} (f : A -> bool) l x :
  existsb f (l ++ [x]) = existsb f l || f x.
Proof. rewrite existsb_app. cbn. by rewrite orb_false_r. Qed.

(** Adding the elements of a set to a set that holds none of them lists
    them in order. *)
Lemma foldl_set_add items : forall acc,
  Core.distinct items = true ->
  (forall x, x ∈ items -> existsb (Core.same_value_zero x) acc = false) ->
  foldl Core.set_add acc items = acc ++ items.
Proof.
  induction items as [|x items IH]; intros acc Hd Hfresh.
  - by rewrite app_nil_r.
  - cbn [Core.distinct] in Hd. apply andb_true_iff in Hd as [Hx Hd].
    apply negb_true_iff in Hx.
    cbn [foldl]. unfold Core.set_add at 2.
    rewrite Hfresh by apply list_elem_of_here.
    rewrite IH; [by rewrite <- app_assoc|exact Hd|].
    intros y Hy. rewrite existsb_snoc, Hfresh by (by apply list_elem_of_further).
    cbn [orb]. rewrite same_value_zero_sym.
    destruct (Core.same_value_zero x y) eqn:Hxy; [|reflexivity].
    assert (existsb (Core.same_value_zero x) items = true); [|congruence].
    apply existsb_exists. exists y. split; [by apply list_elem_of_In|exact Hxy].
Qed.

Lemma map_set_fresh entries k v :
  existsb (fun k' => Core.same_value_zero k' k) (map fst entries) = false ->
  Core.map_set entries k v = entries ++ [(k, v)].
Proof.
  induction entries as [|[k' v'] entries IH]; [reflexivity|].
  cbn [map fst existsb Core.map_set app]. intros Hf.
  apply orb_false_iff in Hf as [-> Hf]. by rewrite IH.
Qed.

Lemma foldl_map_set entries : forall acc,
  Core.distinct (map fst entries) = true ->
  (forall e, e ∈ entries ->
     existsb (fun k' => Core.same_value_zero k' (fst e)) (map fst acc) = false) ->
  foldl (fun m e => Core.map_set m (fst e) (snd e)) acc entries = acc ++ entries.
Proof.
  induction entries as [|[k v] entries IH]; intros acc Hd Hfresh.
  - by rewrite app_nil_r.
  - cbn [map fst Core.distinct] in Hd. apply andb_true_iff in Hd as [Hk Hd].
    apply negb_true_iff in Hk.
    cbn [foldl fst snd]. rewrite map_set_fresh by (apply (Hfresh (k, v)), list_elem_of_here).
    rewrite IH; [by rewrite <- app_assoc|exact Hd|].
    intros e He. rewrite map_app, existsb_app.
    rewrite Hfresh by (by apply list_elem_of_further).
    cbn. rewrite orb_false_r.
    destruct (Core.same_value_zero k (fst e)) eqn:Hke; [|reflexivity].
    assert (existsb (Core.same_value_zero k) (map fst entries) = true); [|congruence].
    apply existsb_exists. exists (fst e). split; [|exact Hke].
    apply in_map. by apply list_elem_of_In.
Qed.

(** ** The round trip *)

Section Roundtrip.

Import Metadata.

Variable reg : Registry.
Variable dates : Core.DateCodec.
Variables hs hd : Exn -> M unit.
Variable resolver : Ctor -> string.
Variable table : gmap string Ctor.

Hypothesis Hreg : Core.wf_registry reg.
Hypothesis Hdates : Core.wf_dates dates.

Abbreviation ser := (Core.serialize reg dates hs (Core.default_emitTypeHint resolver)).
Abbreviation des := (Core.deserialize reg dates hd Core.default_resolveConstructor table).
Abbreviation plain_of v tag := (value_of (ser v tag) VUndefined).

Abbreviation round_trips := (Core.round_trips reg dates hs hd resolver table).

Lemma round_trips_intro v tag p :
  isValueDefined v = true -> ser v tag = ([], Ret p) -> isValueDefined p = true ->
  des p tag = ([], Ret v) -> round_trips v tag.
Proof.
  intros Hv Hs Hp Hd. unfold Core.round_trips. rewrite Hs. cbn. auto.
Qed.

Lemma scalar_round_trips v c :
  Core.conforms reg v (Core.Scalar c) = true -> round_trips v (Core.Scalar c).
Proof.
  intros Hc. cbn in Hc.
  destruct c, v; try discriminate.
  - apply (round_trips_intro _ _ (VNum n)); reflexivity.
  - apply (round_trips_intro _ _ (VStr s)); reflexivity.
  - apply (round_trips_intro _ _ (VBool b)); reflexivity.
  - apply (round_trips_intro _ _ (VStr (Core.toISOString dates ms))); try reflexivity.
    cbn. rewrite Hdates. reflexivity.
Qed.

Lemma forallb_Forall_impl (f : val -> bool) (P Q : val -> Prop) items :
  forallb f items = true ->
  Forall P items ->
  (forall x, f x = true -> P x -> Q x) ->
  Forall Q items.
Proof.
  intros Hall HP Himpl. induction HP as [|x items Hx _ IH]; [constructor|].
  cbn [forallb] in Hall. apply andb_true_iff in Hall as [Hfx Hall].
  constructor; auto.
Qed.

Lemma list_round_trips items tag :
  Forall (fun x => round_trips x tag) items ->
  traverse (fun x => ser x tag) items = ([], Ret (map (fun x => plain_of x tag) items)) /\
  traverse (fun p => des p tag) (map (fun x => plain_of x tag) items) = ([], Ret items).
Proof.
  intros Hall. split.
  - apply traverse_quiet. eapply Forall_impl; [exact Hall|].
    intros x (_ & Hs & _). exact Hs.
  - apply (traverse_back (fun p => des p tag)). eapply Forall_impl; [exact Hall|].
    intros x (_ & _ & _ & Hd). exact Hd.
Qed.

Lemma array_round_trips items elem depth :
  Forall (fun x => round_trips x (Core.element_tag elem depth)) items ->
  round_trips (VArr items) (Core.ArrayOf elem depth).
Proof.
  intros Hall. destruct (list_round_trips items _ Hall) as [Hs Hd].
  apply (round_trips_intro _ _
           (VArr (map (fun x => plain_of x (Core.element_tag elem depth)) items)));
    try reflexivity.
  - cbn [Core.serialize]. rewrite Hs. reflexivity.
  - cbn [Core.deserialize]. rewrite Hd. reflexivity.
Qed.

Lemma set_round_trips items elem :
  Forall (fun x => round_trips x elem) items ->
  Core.distinct items = true ->
  round_trips (VSet items) (Core.SetOf elem).
Proof.
  intros Hall Hdistinct. destruct (list_round_trips items _ Hall) as [Hs _].
  apply (round_trips_intro _ _ (VArr (map (fun x => plain_of x elem) items)));
    try reflexivity.
  - cbn [Core.serialize]. rewrite Hs. reflexivity.
  - cbn [Core.deserialize].
    rewrite (foldM_back _ (fun x => plain_of x elem) Core.set_add).
    + rewrite foldl_set_add by done. reflexivity.
    + intros set x Hx. rewrite Forall_forall in Hall.
      destruct (Hall x Hx) as (_ & _ & _ & ->). reflexivity.
Qed.

Lemma map_round_trips entries keyTag valueTag :
  Forall (fun e => round_trips (fst e) keyTag /\ round_trips (snd e) valueTag) entries ->
  Core.distinct (map fst entries) = true ->
  round_trips (VMap entries) (Core.MapOf keyTag valueTag).
Proof.
  intros Hall Hdistinct.
  pose (plain_entry := fun e : val * val =>
          VArr [plain_of (fst e) keyTag; plain_of (snd e) valueTag]).
  apply (round_trips_intro _ _ (VArr (map plain_entry entries))); try reflexivity.
  - cbn [Core.serialize]. rewrite (traverse_quiet _ plain_entry); [reflexivity|].
    eapply Forall_impl; [exact Hall|].
    intros [k x] [(_ & Hk & _) (_ & Hx & _)]. cbn [fst snd] in *.
    rewrite Hk, bind_quiet, Hx, bind_quiet. reflexivity.
  - cbn [Core.deserialize].
    rewrite (foldM_back _ plain_entry (fun m e => Core.map_set m (fst e) (snd e))).
    + rewrite foldl_map_set by done. reflexivity.
    + intros m [k x] He. rewrite Forall_forall in Hall.
      destruct (Hall _ He) as [(_ & _ & _ & Hk) (_ & _ & _ & Hx)].
      cbn [fst snd plain_entry] in *. rewrite Hk, bind_quiet, Hx, bind_quiet. reflexivity.
Qed.

Lemma get_prop_find k props :
  Core.get_prop k props = default VUndefined (Core.find_prop k props).
Proof.
  unfold Core.get_prop. rewrite with_prop_find.
  destruct (Core.find_prop k props); reflexivity.
Qed.

(** The fields of an instance, read back through the keys of its class. *)
Lemma fields_by_key (Q : val -> JsonMemberMetadata -> Prop) all props ms :
  (forall k v, (k, v) ∈ props -> Core.find_prop k all = Some v) ->
  Forall2 (fun prop m => fst prop = key m /\ Q (snd prop) m) props ms ->
  map (fun m => (key m, Core.get_prop (key m) all)) ms = props /\
  Forall (fun m => Q (Core.get_prop (key m) all) m) ms.
Proof.
  intros Hfind Hall. induction Hall as [|[k v] m props ms [Hk HQ] _ IH].
  - split; [reflexivity|constructor].
  - cbn [fst snd] in *. subst k.
    assert (Hv : Core.get_prop (key m) all = v).
    { rewrite get_prop_find, (Hfind (key m) v) by apply list_elem_of_here. reflexivity. }
    destruct IH as [IH1 IH2].
    { intros k' v' Hin. apply Hfind. by apply list_elem_of_further. }
    split.
    + cbn [map]. rewrite Hv, IH1. reflexivity.
    + constructor; [by rewrite Hv|exact IH2].
Qed.

Lemma object_round_trips c props md :
  reg c = Some md ->
  Forall2 (fun prop m => fst prop = key m /\ round_trips (snd prop) (Core.typeTag m))
    props (dataMembers md) ->
  round_trips (VObj c props) (Core.Object c).
Proof.
  intros Hc Hfields.
  destruct (Hreg c md Hc) as (Hkeys & Hnames & Hhint).
  set (ms := dataMembers md) in *.
  set (V := fun m => Core.get_prop (key m) props).
  set (P := fun m => plain_of (V m) (Core.typeTag m)).
  set (target := map (fun m => (name m, P m)) ms).
  assert (Hfst : map fst props = map key ms).
  { clear -Hfields. induction Hfields as [|? ? ? ? [Hk _] _ IH]; [reflexivity|].
    cbn [map]. by rewrite Hk, IH. }
  assert (Hfind : forall k v, (k, v) ∈ props -> Core.find_prop k props = Some v).
  { intros k v. apply find_prop_elem. by rewrite Hfst. }
  destruct (fields_by_key (fun v m => round_trips v (Core.typeTag m)) props props ms
              Hfind Hfields) as [Hprops Hgood].
  rewrite Forall_forall in Hgood.
  assert (Htarget_fst : map fst target = map name ms).
  { unfold target. rewrite map_map. reflexivity. }
  apply (round_trips_intro _ _ (VObj CObject target)); try reflexivity.
  - cbn [Core.serialize]. rewrite Hc. fold ms.
    rewrite (foldM_quiet _ (fun acc m => Core.obj_set acc (name m) (P m))).
    + rewrite bind_quiet, foldl_obj_set; [|exact Hnames|intros; apply not_elem_of_nil].
      cbn [app]. fold target. unfold Core.default_emitTypeHint. cbn [constructor_of].
      rewrite bool_decide_eq_true_2 by reflexivity. reflexivity.
    + intros acc m Hm. destruct (Hgood m Hm) as (Hdef & Hser & Hpdef & _).
      rewrite with_prop_find.
      assert (Hlook : Core.find_prop (key m) props = Some (V m)).
      { apply Hfind. rewrite <- Hprops. apply list_elem_of_fmap. by exists m. }
      rewrite Hlook. cbn [from_option]. fold (V m) in Hdef, Hser, Hpdef.
      fold (P m) in Hser, Hpdef.
      rewrite Hdef, Hser, (bind_quiet (P m)), Hpdef, (bind_quiet (Some (P m))). reflexivity.
  - assert (Hres : Core.default_resolveConstructor target table c = inr c).
    { unfold Core.default_resolveConstructor.
      rewrite get_prop_find, find_prop_None by (by rewrite Htarget_fst). reflexivity. }
    cbn [Core.deserialize]. rewrite Hres, Hc. fold ms.
    rewrite (foldM_quiet _ (fun acc m => Core.obj_set acc (key m) (V m))).
    + rewrite bind_quiet, foldl_obj_set; [|exact Hkeys|intros; apply not_elem_of_nil].
      cbn [app]. unfold V. rewrite Hprops. reflexivity.
    + intros acc m Hm. destruct (Hgood m Hm) as (Hdef & _ & _ & Hdes).
      rewrite with_prop_find.
      assert (Hlook : Core.find_prop (name m) target = Some (P m)).
      { apply find_prop_elem; [by rewrite Htarget_fst|].
        unfold target. apply list_elem_of_fmap. by exists m. }
      rewrite Hlook. cbn [from_option]. fold (V m) in Hdef, Hdes. fold (P m) in Hdes.
      rewrite Hdes, (bind_quiet (V m)), Hdef. reflexivity.
Qed.

Lemma all2_Forall2 {A B} (f : A -> B -> bool) l l' :
  Core.all2 f l l' = true -> Forall2 (fun x y => f x y = true) l l'.
Proof.
  revert l'. induction l as [|x l IH]; intros [|y l'] Hall; try discriminate.
  - constructor.
  - cbn [Core.all2] in Hall. apply andb_true_iff in Hall as [Hxy Hall].
    constructor; [exact Hxy|]. apply IH. exact Hall.
Qed.

(** The round trip of every conforming value. *)
Lemma conforming_value_round_trips v :
  forall tag, Core.conforms reg v tag = true -> round_trips v tag.
Proof.
  induction v as [| | | | | |items IH|c props IH|items IH|entries IH]
    using val_nested_ind; intros tag Hconf.
  all: destruct tag as [sc|oc|elem depth|elem|keyTag valueTag];
    try (apply scalar_round_trips; exact Hconf);
    try (cbn in Hconf; discriminate).
  - (* arrays *)
    cbn [Core.conforms] in Hconf. apply andb_true_iff in Hconf as [_ Hall].
    apply array_round_trips.
    apply (forallb_Forall_impl _ _ _ items Hall IH). auto.
  - (* instances *)
    cbn [Core.conforms] in Hconf. apply andb_true_iff in Hconf as [Hrc Hall].
    apply bool_decide_eq_true in Hrc. subst c.
    destruct (reg oc) as [md|] eqn:Hoc; [|discriminate].
    apply (object_round_trips oc props md Hoc).
    apply all2_Forall2 in Hall.
    clear -Hall IH. induction Hall as [|[k fv] m props ms Hf _ IHall]; [constructor|].
    apply Forall_cons in IH as [IHfv IH].
    apply andb_true_iff in Hf as [Hk Hfv]. apply String.eqb_eq in Hk.
    constructor; [|auto]. split; [exact Hk|]. apply IHfv. exact Hfv.
  - (* sets *)
    cbn [Core.conforms] in Hconf. apply andb_true_iff in Hconf as [Hall Hdistinct].
    apply set_round_trips; [|exact Hdistinct].
    apply (forallb_Forall_impl _ _ _ items Hall IH). auto.
  - (* maps *)
    cbn [Core.conforms] in Hconf. apply andb_true_iff in Hconf as [Hall Hdistinct].
    apply map_round_trips; [|exact Hdistinct].
    clear Hdistinct. induction IH as [|[k x] entries [IHk IHx] _ IHall]; [constructor|].
    cbn [forallb] in Hall. apply andb_true_iff in Hall as [Hkx Hall].
    apply andb_true_iff in Hkx as [Hk Hx].
    constructor; [|auto]. split; [apply IHk|apply IHx]; assumption.
Qed.

End Roundtrip.

(** ** Writing the members that are set *)

Lemma find_prop_obj_set k k' v props :
  Core.find_prop k (Core.obj_set props k' v)
  = if String.eqb k' k then Some v else Core.find_prop k props.
Proof.
  induction props as [|[k0 v0] props IH]; cbn [Core.obj_set].
  - rewrite find_prop_cons. reflexivity.
  - destruct (String.eqb_spec k0 k') as [->|Hne].
    + rewrite !find_prop_cons. destruct (String.eqb k' k); reflexivity.
    + rewrite !find_prop_cons, IH.
      destruct (String.eqb_spec k0 k) as [->|_]; [|reflexivity].
      destruct (String.eqb_spec k' k) as [->|_]; [done|reflexivity].
Qed.

Lemma find_prop_Some k v props :
  Core.find_prop k props = Some v -> (k, v) ∈ props.
Proof.
  induction props as [|[k' v'] props IH]; [discriminate|].
  rewrite find_prop_cons. destruct (String.eqb_spec k' k) as [->|_].
  - intros [= ->]. apply list_elem_of_here.
  - intros Hfind. apply list_elem_of_further. auto.
Qed.

Section Writing.

Context {A : Type}.
Variable label : A -> string.
Variable value : A -> option val.

Abbreviation written :=
  (foldl (fun props x =>
            match value x with
            | Some v => Core.obj_set props (label x) v
            | None => props
            end)).

Lemma written_elsewhere k l : forall acc,
  (forall x, x ∈ l -> label x = k -> value x = None) ->
  Core.find_prop k (written acc l) = Core.find_prop k acc.
Proof.
  induction l as [|a l IH]; intros acc Hnone; [reflexivity|].
  cbn [foldl]. rewrite IH by (intros x Hx; apply Hnone; by apply list_elem_of_further).
  destruct (value a) as [v|] eqn:Hv; [|reflexivity].
  rewrite find_prop_obj_set.
  destruct (String.eqb_spec (label a) k) as [Heq|_]; [|reflexivity].
  rewrite (Hnone a (list_elem_of_here _ _) Heq) in Hv. discriminate.
Qed.

Lemma written_fresh k l acc :
  k ∉ map label l -> Core.find_prop k (written acc l) = Core.find_prop k acc.
Proof.
  intros Hk. apply written_elsewhere. intros x Hx Heq. exfalso. apply Hk.
  rewrite <- Heq. apply list_elem_of_fmap. by exists x.
Qed.

(** Under labels that are distinct, a member is read back as written. *)
Lemma written_member l : forall acc x,
  NoDup (map label l) -> x ∈ l ->
  Core.find_prop (label x) (written acc l)
  = match value x with Some v => Some v | None => Core.find_prop (label x) acc end.
Proof.
  induction l as [|a l IH]; intros acc x Hnd Hin.
  - by apply not_elem_of_nil in Hin.
  - cbn [map] in Hnd. apply NoDup_cons in Hnd as [Ha Hnd]. cbn [foldl].
    apply elem_of_cons in Hin as [->|Hin].
    + rewrite written_fresh by exact Ha.
      destruct (value a); [|reflexivity].
      by rewrite find_prop_obj_set, String.eqb_refl.
    + rewrite IH by assumption.
      destruct (value x); [reflexivity|].
      destruct (value a); [|reflexivity].
      rewrite find_prop_obj_set.
      destruct (String.eqb_spec (label a) (label x)) as [Heq|_]; [|reflexivity].
      exfalso. apply Ha. rewrite Heq. apply list_elem_of_fmap. by exists x.
Qed.

(** Under any labels, what is read under a label was written by a member of
    that label. *)
Lemma written_by_some_member k l : forall acc,
  k ∈ map label l ->
  (forall x, x ∈ l -> label x = k -> is_Some (value x)) ->
  exists x, x ∈ l /\ label x = k /\ is_Some (value x) /\
            Core.find_prop k (written acc l) = value x.
Proof.
  induction l as [|a l IH]; intros acc Hin Hsome.
  - by apply not_elem_of_nil in Hin.
  - cbn [map] in Hin. destruct (decide (k ∈ map label l)) as [Hk|Hk].
    + destruct (IH (match value a with
                    | Some v => Core.obj_set acc (label a) v
                    | None => acc
                    end) Hk) as (x & Hx & Hlabel & Hvalue & Hfind).
      { intros x Hx. apply Hsome. by apply list_elem_of_further. }
      exists x. split; [by apply list_elem_of_further|]. by repeat split.
    + apply elem_of_cons in Hin as [Heq|Hin]; [|done].
      exists a. split; [apply list_elem_of_here|]. split; [done|].
      destruct (Hsome a (list_elem_of_here _ _) (eq_sym Heq)) as [v Hv].
      split; [by exists v|].
      cbn [foldl]. rewrite written_fresh by exact Hk.
      rewrite Hv, find_prop_obj_set. subst k. by rewrite String.eqb_refl.
Qed.

End Writing.

(** ** Values that are equal field by field *)

Section SameFields.

Variable reg : Metadata.Registry.

(** Two values that are equal field by field are the same primitive, or
    both objects, which SameValueZero tells from every value. *)
Lemma same_fields_cases v v' :
  Core.same_fields reg v v' = true ->
  v' = v \/
  forall u, Core.same_value_zero v u = false /\ Core.same_value_zero u v = false /\
            Core.same_value_zero v' u = false /\ Core.same_value_zero u v' = false.
Proof.
  destruct v, v'; cbn [Core.same_fields]; try discriminate; intros Hsame.
  1, 2: by left.
  all: try (right; intros u; destruct u; repeat split; reflexivity).
  all: left.
  - apply Z.eqb_eq in Hsame. by subst.
  - apply String.eqb_eq in Hsame. by subst.
  - apply Bool.eqb_prop in Hsame. by subst.
Qed.

Lemma same_fields_same_value_zero v v' w w' :
  Core.same_fields reg v v' = true -> Core.same_fields reg w w' = true ->
  Core.same_value_zero v' w' = Core.same_value_zero v w.
Proof.
  intros Hv Hw.
  destruct (same_fields_cases v v' Hv) as [->|Hv'].
  - destruct (same_fields_cases w w' Hw) as [->|Hw']; [reflexivity|].
    destruct (Hw' v) as (_ & -> & _ & ->). reflexivity.
  - destruct (Hv' w') as (_ & _ & -> & _). destruct (Hv' w) as (-> & _). reflexivity.
Qed.

Lemma distinct_map (f : val -> val) l :
  (forall x y, x ∈ l -> y ∈ l ->
     Core.same_value_zero (f x) (f y) = Core.same_value_zero x y) ->
  Core.distinct (map f l) = Core.distinct l.
Proof.
  induction l as [|a l IH]; intros Hf; [reflexivity|].
  cbn [map Core.distinct]. rewrite IH.
  - f_equal. f_equal.
    assert (Hrest : forall l', (forall y, y ∈ l' -> y ∈ a :: l) ->
              existsb (Core.same_value_zero (f a)) (map f l')
              = existsb (Core.same_value_zero a) l').
    { induction l' as [|b l' IH']; intros Hin; [reflexivity|].
      cbn [map existsb]. rewrite Hf, IH'.
      - reflexivity.
      - intros y Hy. apply Hin. by apply list_elem_of_further.
      - apply list_elem_of_here.
      - apply Hin, list_elem_of_here. }
    apply Hrest. intros y Hy. by apply list_elem_of_further.
  - intros x y Hx Hy. apply Hf; by apply list_elem_of_further.
Qed.

End SameFields.

Lemma traverse_map {A B C} (f : B -> M C) (g : A -> B) (l : list A) :
  traverse f (map g l) = traverse (fun x => f (g x)) l.
Proof.
  induction l as [|x l IH]; [reflexivity|].
  cbn [map]. rewrite !traverse_cons, IH. reflexivity.
Qed.

(** ** The round trip of a value that fits its type *)

Section Fitting.

Import Metadata.

Variable reg : Registry.
Variable dates : Core.DateCodec.
Variables hs hd : Exn -> M unit.
Variable resolver : Ctor -> string.
Variable table : gmap string Ctor.

Hypothesis Hnames : Core.wf_names reg.
Hypothesis Hdates : Core.wf_dates dates.

Abbreviation ser := (Core.serialize reg dates hs (Core.default_emitTypeHint resolver)).
Abbreviation des := (Core.deserialize reg dates hd Core.default_resolveConstructor table).
Abbreviation plain_of v tag := (value_of (ser v tag) VUndefined).
Abbreviation back_of v tag := (value_of (des (plain_of v tag) tag) VUndefined).

(** [v] comes back under [tag]: it is a defined value, serializing it
    reports no error and yields a defined plain value, and deserializing that
    plain value reports no error and yields a defined value that is equal to
    [v] field by field. *)
Abbreviation comes_back v tag :=
  (isValueDefined v = true /\
   ser v tag = ([], Ret (plain_of v tag)) /\
   isValueDefined (plain_of v tag) = true /\
   des (plain_of v tag) tag = ([], Ret (back_of v tag)) /\
   isValueDefined (back_of v tag) = true /\
   Core.same_fields reg v (back_of v tag) = true).

Lemma comes_back_intro v tag p b :
  isValueDefined v = true -> ser v tag = ([], Ret p) -> isValueDefined p = true ->
  des p tag = ([], Ret b) -> isValueDefined b = true ->
  Core.same_fields reg v b = true -> comes_back v tag.
Proof.
  intros Hv Hs Hp Hd Hb Hsame. rewrite Hs. cbn [value_of outcome snd].
  rewrite Hd. cbn [value_of outcome snd]. auto 10.
Qed.

Lemma scalar_comes_back v c :
  Core.fits reg v (Core.Scalar c) = true -> comes_back v (Core.Scalar c).
Proof.
  intros Hfit. cbn in Hfit.
  destruct c, v; try discriminate.
  - apply (comes_back_intro _ _ (VNum n) (VNum n)); try reflexivity.
    cbn. apply Z.eqb_refl.
  - apply (comes_back_intro _ _ (VStr s) (VStr s)); try reflexivity.
    cbn. apply String.eqb_refl.
  - apply (comes_back_intro _ _ (VBool b) (VBool b)); try reflexivity.
    cbn. by destruct b.
  - apply (comes_back_intro _ _ (VStr (Core.toISOString dates ms)) (VDate ms));
      try reflexivity.
    + cbn. rewrite Hdates. reflexivity.
    + cbn. apply Z.eqb_refl.
Qed.

Lemma list_comes_back items tag :
  Forall (fun x => comes_back x tag) items ->
  traverse (fun x => ser x tag) items = ([], Ret (map (fun x => plain_of x tag) items)) /\
  traverse (fun p => des p tag) (map (fun x => plain_of x tag) items)
    = ([], Ret (map (fun x => back_of x tag) items)) /\
  Core.all2 (Core.same_fields reg) items (map (fun x => back_of x tag) items) = true.
Proof.
  intros Hall. split; [|split].
  - apply traverse_quiet. eapply Forall_impl; [exact Hall|].
    intros x (_ & Hs & _). exact Hs.
  - rewrite traverse_map. apply (traverse_quiet _ (fun x => back_of x tag)).
    eapply Forall_impl; [exact Hall|].
    intros x (_ & _ & _ & Hd & _). exact Hd.
  - induction Hall as [|x items (_ & _ & _ & _ & _ & Hsame) _ IH]; [reflexivity|].
    cbn [map Core.all2]. rewrite Hsame, IH. reflexivity.
Qed.

Lemma array_comes_back items elem depth :
  Forall (fun x => comes_back x (Core.element_tag elem depth)) items ->
  comes_back (VArr items) (Core.ArrayOf elem depth).
Proof.
  intros Hall. destruct (list_comes_back items _ Hall) as (Hs & Hd & Hsame).
  apply (comes_back_intro _ _
           (VArr (map (fun x => plain_of x (Core.element_tag elem depth)) items))
           (VArr (map (fun x => back_of x (Core.element_tag elem depth)) items)));
    try reflexivity.
  - cbn [Core.serialize]. rewrite Hs. reflexivity.
  - cbn [Core.deserialize]. rewrite Hd. reflexivity.
  - exact Hsame.
Qed.

Lemma back_distinct (f : val -> val) items :
  Forall (fun x => Core.same_fields reg x (f x) = true) items ->
  Core.distinct (map f items) = Core.distinct items.
Proof.
  intros Hall. rewrite Forall_forall in Hall.
  apply distinct_map. intros x y Hx Hy.
  apply (same_fields_same_value_zero reg); auto.
Qed.

Lemma set_comes_back items elem :
  Forall (fun x => comes_back x elem) items ->
  Core.distinct items = true ->
  comes_back (VSet items) (Core.SetOf elem).
Proof.
  intros Hall Hdistinct. destruct (list_comes_back items _ Hall) as (Hs & _ & Hsame).
  apply (comes_back_intro _ _ (VArr (map (fun x => plain_of x elem) items))
           (VSet (map (fun x => back_of x elem) items)));
    try reflexivity.
  - cbn [Core.serialize]. rewrite Hs. reflexivity.
  - cbn [Core.deserialize].
    rewrite (foldM_back _ (fun x => plain_of x elem)
               (fun set x => Core.set_add set (back_of x elem))).
    + rewrite <- (foldl_fmap Core.set_add [] items (fun x => back_of x elem)).
      rewrite foldl_set_add; [reflexivity| |reflexivity].
      rewrite back_distinct; [exact Hdistinct|].
      eapply Forall_impl; [exact Hall|]. intros x (_ & _ & _ & _ & _ & Hx). exact Hx.
    + intros set x Hx. rewrite Forall_forall in Hall.
      destruct (Hall x Hx) as (_ & _ & _ & -> & _). reflexivity.
  - exact Hsame.
Qed.

Lemma map_comes_back entries keyTag valueTag :
  Forall (fun e => comes_back (fst e) keyTag /\ comes_back (snd e) valueTag) entries ->
  Core.distinct (map fst entries) = true ->
  comes_back (VMap entries) (Core.MapOf keyTag valueTag).
Proof.
  intros Hall Hdistinct.
  pose (plain_entry := fun e : val * val =>
          VArr [plain_of (fst e) keyTag; plain_of (snd e) valueTag]).
  pose (back_entry := fun e : val * val =>
          (back_of (fst e) keyTag, back_of (snd e) valueTag)).
  apply (comes_back_intro _ _ (VArr (map plain_entry entries))
           (VMap (map back_entry entries))); try reflexivity.
  - cbn [Core.serialize]. rewrite (traverse_quiet _ plain_entry); [reflexivity|].
    eapply Forall_impl; [exact Hall|].
    intros [k x] [(_ & Hk & _) (_ & Hx & _)]. cbn [fst snd] in *.
    rewrite Hk, bind_quiet, Hx, bind_quiet. reflexivity.
  - cbn [Core.deserialize].
    rewrite (foldM_back _ plain_entry
               (fun m e => Core.map_set m (fst (back_entry e)) (snd (back_entry e)))).
    + rewrite <- (foldl_fmap (fun m e => Core.map_set m (fst e) (snd e)) [] entries
                    back_entry).
      rewrite foldl_map_set; [reflexivity| |reflexivity].
      assert (Hkeys : forall l, map fst (back_entry <$> l)
                                = map (fun k => back_of k keyTag) (map fst l)).
      { induction l as [|e l IHl]; [reflexivity|].
        cbn [fmap list_fmap map]. f_equal. exact IHl. }
      rewrite Hkeys, back_distinct; [exact Hdistinct|].
      clear -Hall. induction Hall as [|[k x] entries [Hk _] _ IH]; [constructor|].
      cbn [map fst]. constructor; [|exact IH].
      destruct Hk as (_ & _ & _ & _ & _ & Hk). exact Hk.
    + intros m [k x] He. rewrite Forall_forall in Hall.
      destruct (Hall _ He) as [(_ & _ & _ & Hk & _) (_ & _ & _ & Hx & _)].
      cbn [fst snd plain_entry back_entry] in *.
      rewrite Hk, bind_quiet, Hx, bind_quiet. reflexivity.
  - cbn [Core.same_fields]. clear Hdistinct.
    induction Hall as [|[k x] entries [Hk Hx] _ IH]; [reflexivity|].
    cbn [map Core.all2 back_entry fst snd] in *.
    destruct Hk as (_ & _ & _ & _ & _ & ->). destruct Hx as (_ & _ & _ & _ & _ & ->).
    exact IH.
Qed.

(** What a fitting instance holds under the key of a declared member. *)
Lemma member_of_fitting_instance (props : list (string * val)) (m : JsonMemberMetadata) :
  Core.with_prop (key m) props (Core.may_stay_unset m)
    (fun fv => match fv with
               | VUndefined => Core.may_stay_unset m
               | VNull => false
               | _ => Core.fits reg fv (Core.typeTag m)
               end) = true ->
  ((Core.find_prop (key m) props = None \/ Core.find_prop (key m) props = Some VUndefined)
   /\ Core.may_stay_unset m = true) \/
  exists fv, Core.find_prop (key m) props = Some fv /\ isValueDefined fv = true /\
             Core.fits reg fv (Core.typeTag m) = true.
Proof.
  rewrite with_prop_find.
  destruct (Core.find_prop (key m) props) as [fv|]; cbn [from_option]; intros Hfit.
  - destruct fv; try discriminate Hfit.
    1: left; split; [by right|exact Hfit].
    all: right; eexists; split; [reflexivity|]; split; [reflexivity|exact Hfit].
  - left. split; [by left|exact Hfit].
Qed.

Lemma may_stay_unset_spec m :
  Core.may_stay_unset m = true ->
  Core.is_true (isRequired m) = false /\ Core.unset_member m = None.
Proof.
  unfold Core.may_stay_unset. intros Hm. apply andb_true_iff in Hm as [Hreq Hunset].
  apply negb_true_iff in Hreq. split; [exact Hreq|].
  by destruct (Core.unset_member m).
Qed.

Lemma object_comes_back c props md :
  reg c = Some md ->
  Forall (fun prop => forall tag, Core.fits reg (snd prop) tag = true ->
                                  comes_back (snd prop) tag) props ->
  forallb (fun m =>
             Core.with_prop (key m) props (Core.may_stay_unset m)
               (fun fv => match fv with
                          | VUndefined => Core.may_stay_unset m
                          | VNull => false
                          | _ => Core.fits reg fv (Core.typeTag m)
                          end)) (dataMembers md) = true ->
  comes_back (VObj c props) (Core.Object c).
Proof.
  intros Hc IH Hfits.
  destruct (Hnames c md Hc) as [Hnd Hhint].
  set (ms := dataMembers md) in *.
  (* the value an instance holds for a member, if it holds one *)
  pose (held := fun k : string =>
          match Core.find_prop k props with
          | Some fv => if isValueDefined fv then Some fv else None
          | None => None
          end).
  assert (Hheld : forall m, m ∈ ms ->
            match held (key m) with
            | Some fv =>
                Core.find_prop (key m) props = Some fv /\ isValueDefined fv = true /\
                comes_back fv (Core.typeTag m)
            | None =>
                (Core.find_prop (key m) props = None \/
                 Core.find_prop (key m) props = Some VUndefined) /\
                Core.is_true (isRequired m) = false /\ Core.unset_member m = None
            end).
  { intros m Hm. rewrite forallb_forall in Hfits.
    specialize (Hfits m (proj1 (list_elem_of_In _ _) Hm)).
    apply member_of_fitting_instance in Hfits
      as [[Hnone Hunset]|(fv & Hfind & Hdef & Hfit)].
    - apply may_stay_unset_spec in Hunset. unfold held.
      destruct Hnone as [->| ->]; cbn [isValueDefined]; (split; [tauto|exact Hunset]).
    - assert (Hh : held (key m) = Some fv) by (unfold held; by rewrite Hfind, Hdef).
      rewrite Hh. split; [exact Hfind|]. split; [exact Hdef|].
      rewrite Forall_forall in IH.
      apply (IH (key m, fv) (find_prop_Some _ _ _ Hfind)). exact Hfit. }
  pose (plain_at := fun m => (fun fv => plain_of fv (Core.typeTag m)) <$> held (key m)).
  pose (back_at := fun m => (fun fv => back_of fv (Core.typeTag m)) <$> held (key m)).
  set (target := foldl (fun acc m =>
                          match plain_at m with
                          | Some v => Core.obj_set acc (name m) v
                          | None => acc
                          end) [] ms).
  set (fields := foldl (fun acc m =>
                          match back_at m with
                          | Some v => Core.obj_set acc (key m) v
                          | None => acc
                          end) [] ms).
  apply (comes_back_intro _ _ (VObj CObject target) (VObj c fields)); try reflexivity.
  - cbn [Core.serialize]. rewrite Hc. fold ms.
    rewrite (foldM_quiet _ (fun acc m =>
               match plain_at m with
               | Some v => Core.obj_set acc (name m) v
               | None => acc
               end)).
    + rewrite bind_quiet. fold target.
      unfold Core.default_emitTypeHint. cbn [constructor_of].
      rewrite bool_decide_eq_true_2 by reflexivity. reflexivity.
    + intros acc m Hm. specialize (Hheld m Hm). rewrite with_prop_find.
      unfold plain_at. destruct (held (key m)) as [fv|].
      * destruct Hheld as (-> & Hdef & _ & Hser & Hp & _). cbn [from_option].
        rewrite Hdef, Hser, bind_quiet, Hp, bind_ret. reflexivity.
      * destruct Hheld as ([-> | ->] & _ & Hunset); cbn [from_option isValueDefined];
          rewrite Hunset; reflexivity.
  - assert (Hres : Core.default_resolveConstructor target table c = inr c).
    { unfold Core.default_resolveConstructor, target.
      rewrite get_prop_find, written_fresh by exact Hhint. reflexivity. }
    cbn [Core.deserialize]. rewrite Hres, Hc. fold ms.
    rewrite (foldM_quiet _ (fun acc m =>
               match back_at m with
               | Some v => Core.obj_set acc (key m) v
               | None => acc
               end)).
    + rewrite bind_quiet. reflexivity.
    + intros acc m Hm. specialize (Hheld m Hm). rewrite with_prop_find.
      assert (Hlook : Core.find_prop (name m) target = plain_at m).
      { unfold target. rewrite (written_member name plain_at ms [] m Hnd Hm).
        by destruct (plain_at m). }
      rewrite Hlook. unfold plain_at, back_at. destruct (held (key m)) as [fv|].
      * destruct Hheld as (_ & _ & _ & _ & _ & Hdes & Hb & _).
        cbn [fmap option_fmap option_map from_option].
        rewrite Hdes, bind_quiet, Hb. reflexivity.
      * destruct Hheld as (_ & Hreq & _).
        cbn [fmap option_fmap option_map from_option]. rewrite Hreq. reflexivity.
  - cbn [Core.same_fields]. rewrite bool_decide_eq_true_2 by reflexivity.
    rewrite Hc. fold ms. cbn [andb]. apply forallb_forall. intros m Hm.
    apply list_elem_of_In in Hm. pose proof (Hheld m Hm) as Hm'.
    rewrite with_prop_find, get_prop_find.
    destruct (held (key m)) as [fv|] eqn:Hfv.
    + destruct Hm' as (-> & _ & _). cbn [from_option].
      destruct (written_by_some_member key back_at (key m) ms [])
        as (m' & Hm'in & Hkey & _ & Hfind).
      { apply list_elem_of_fmap. by exists m. }
      { intros x _ Hx. unfold back_at. rewrite Hx, Hfv. by eexists. }
      fold fields in Hfind. rewrite Hfind. unfold back_at. rewrite Hkey, Hfv.
      cbn [fmap option_fmap option_map default from_option id].
      pose proof (Hheld m' Hm'in) as Hback. rewrite Hkey, Hfv in Hback.
      destruct Hback as (_ & _ & _ & _ & _ & _ & _ & Hsame). exact Hsame.
    + assert (Hnone : Core.find_prop (key m) fields = None).
      { unfold fields. rewrite written_elsewhere; [reflexivity|].
        intros x _ Hx. unfold back_at. by rewrite Hx, Hfv. }
      rewrite Hnone. destruct Hm' as ([-> | ->] & _); reflexivity.
Qed.

(** The round trip of every value that fits its type. *)
Lemma fitting_value_comes_back v :
  forall tag, Core.fits reg v tag = true -> comes_back v tag.
Proof.
  induction v as [| | | | | |items IH|c props IH|items IH|entries IH]
    using val_nested_ind; intros tag Hfit.
  all: destruct tag as [sc|oc|elem depth|elem|keyTag valueTag];
    try (apply scalar_comes_back; exact Hfit);
    try (cbn in Hfit; discriminate).
  - (* arrays *)
    cbn [Core.fits] in Hfit. apply array_comes_back.
    apply (forallb_Forall_impl _ _ _ items Hfit IH). auto.
  - (* instances *)
    cbn [Core.fits] in Hfit. apply andb_true_iff in Hfit as [Hrc Hall].
    apply bool_decide_eq_true in Hrc. subst c.
    destruct (reg oc) as [md|] eqn:Hoc; [|discriminate].
    exact (object_comes_back oc props md Hoc IH Hall).
  - (* sets *)
    cbn [Core.fits] in Hfit. apply andb_true_iff in Hfit as [Hall Hdistinct].
    apply set_comes_back; [|exact Hdistinct].
    apply (forallb_Forall_impl _ _ _ items Hall IH). auto.
  - (* maps *)
    cbn [Core.fits] in Hfit. apply andb_true_iff in Hfit as [Hall Hdistinct].
    apply map_comes_back; [|exact Hdistinct].
    clear Hdistinct. induction IH as [|[k x] entries [IHk IHx] _ IHall]; [constructor|].
    cbn [forallb] in Hall. apply andb_true_iff in Hall as [Hkx Hall].
    apply andb_true_iff in Hkx as [Hk Hx].
    constructor; [|auto]. split; [apply IHk|apply IHx]; assumption.
Qed.

End Fitting.


(** ** The round trip and the container examples at work *)

Lemma example_registry_wf : Core.wf_registry Examples.registry.
Proof.
  intros c md. unfold Examples.registry.
  repeat case_bool_decide; intros [= <-]; cbn.
  all: split; [|split]; apply (bool_decide_unpack _); vm_compute; exact I.
Qed.

Lemma decimal_dates_wf : Core.wf_dates Standard.decimal_dates.
Proof.
  intros ms. cbn.
  assert (Hnil : forall d, Z.to_int ms = d -> d <> Decimal.Pos Decimal.Nil /\ d <> Decimal.Neg Decimal.Nil).
  { intros d Hd. split; intros ->.
    - assert (ms = 0%Z) by (rewrite <- (DecimalZ.of_to ms), Hd; reflexivity).
      subst ms. discriminate Hd.
    - assert (ms = 0%Z) by (rewrite <- (DecimalZ.of_to ms), Hd; reflexivity).
      subst ms. discriminate Hd. }
  destruct (Hnil _ eq_refl) as [Hpos Hneg].
  rewrite NilZero.isi by assumption. cbn. by rewrite DecimalZ.of_to.
Qed.

Lemma example_names_wf : Core.wf_names Examples.registry.
Proof.
  intros c md Hc. destruct (example_registry_wf c md Hc) as (_ & Hnames & Hhint).
  by split.
Qed.






(** * Errors of a conversion *)

(** ** The core reports to the error handler *)

Section Funnel.

Variable handler : Exn -> M unit.

Lemma ret_thrown_by_handler {A} (a : A) : Invariants.thrown_by_handler handler (ret a).
Proof. intros e' [=]. Qed.

Lemma bind_thrown_by_handler {A B} (m : M A) (k : A -> M B) :
  Invariants.thrown_by_handler handler m -> (forall a, Invariants.thrown_by_handler handler (k a)) ->
  Invariants.thrown_by_handler handler (bind m k).
Proof.
  intros Hm Hk. destruct m as [evs [a|e]].
  - rewrite bind_events_ret. intros e' Hout. cbn [outcome snd] in Hout.
    destruct (Hk a e' Hout) as (e0 & Hin & Hthrow).
    exists e0. split; [|exact Hthrow]. cbn [events fst]. apply elem_of_app. by right.
  - intros e' Hout. cbn in Hout. injection Hout as ->.
    destruct (Hm e' eq_refl) as (e0 & Hin & Hthrow). by exists e0.
Qed.

Lemma report_thrown_by_handler {A} (e : Exn) (placeholder : A) :
  Invariants.thrown_by_handler handler (Core.report handler e placeholder).
Proof.
  intros e' Hout. exists e. unfold Core.report, emit in *.
  rewrite bind_events_ret in *. cbn [events outcome fst snd] in *.
  destruct (handler e) as [hevs [[]|e'']] eqn:Hh; cbn in *.
  - discriminate.
  - split; [apply list_elem_of_here|]. congruence.
Qed.

Lemma traverse_thrown_by_handler {A B} (f : A -> M B) l :
  Forall (fun x => Invariants.thrown_by_handler handler (f x)) l ->
  Invariants.thrown_by_handler handler (traverse f l).
Proof.
  induction 1 as [|x l Hx _ IH]; [apply ret_thrown_by_handler|].
  rewrite traverse_cons. apply bind_thrown_by_handler; [exact Hx|].
  intros y. apply bind_thrown_by_handler; [exact IH|].
  intros ys. apply ret_thrown_by_handler.
Qed.

Lemma foldM_thrown_by_handler {A B} (f : B -> A -> M B) l :
  Forall (fun x => forall acc, Invariants.thrown_by_handler handler (f acc x)) l ->
  forall acc, Invariants.thrown_by_handler handler (foldM f l acc).
Proof.
  induction 1 as [|x l Hx _ IH]; intros acc; [apply ret_thrown_by_handler|].
  rewrite foldM_cons. apply bind_thrown_by_handler; [apply Hx|exact IH].
Qed.

Lemma with_prop_thrown_by_handler {A} k props (absent : M A) f :
  Invariants.thrown_by_handler handler absent ->
  Forall (fun prop => Invariants.thrown_by_handler handler (f (snd prop))) props ->
  Invariants.thrown_by_handler handler (Core.with_prop k props absent f).
Proof.
  intros Habsent. induction 1 as [|[k' v] props Hv _ IH]; [exact Habsent|].
  cbn [Core.with_prop]. destruct (String.eqb k' k); [exact Hv|exact IH].
Qed.

Variable reg : Metadata.Registry.
Variable dates : Core.DateCodec.
Variable emitTypeHint : list (string * val) -> val -> Ctor -> list (string * val).

Lemma serialize_thrown_by_handler v :
  forall tag, Invariants.thrown_by_handler handler (Core.serialize reg dates handler emitTypeHint v tag).
Proof.
  induction v as [| | | | | |items IH|c props IH|items IH|entries IH]
    using val_nested_ind; intros tag.
  all: destruct tag as [sc|oc|elem depth|elem|keyTag valueTag]; cbn [Core.serialize].
  all: try apply report_thrown_by_handler.
  all: try (destruct (isValueDefined _); [|apply ret_thrown_by_handler];
            destruct (Core.serialize_scalar _ _);
            [apply ret_thrown_by_handler|apply report_thrown_by_handler]).
  all: try apply ret_thrown_by_handler.
  - (* arrays *)
    apply bind_thrown_by_handler; [|intros; apply ret_thrown_by_handler].
    apply traverse_thrown_by_handler. eapply Forall_impl; [exact IH|]. auto.
  - (* instances *)
    destruct (reg oc) as [md|]; [|apply report_thrown_by_handler].
    apply bind_thrown_by_handler; [|intros; apply ret_thrown_by_handler].
    apply foldM_thrown_by_handler. apply Forall_forall. intros m _ target.
    apply bind_thrown_by_handler; [|intros; apply ret_thrown_by_handler].
    apply with_prop_thrown_by_handler; [apply ret_thrown_by_handler|].
    eapply Forall_impl; [exact IH|]. intros [k fv] Hfv. cbn [snd] in *.
    destruct (isValueDefined fv); [|apply ret_thrown_by_handler].
    apply bind_thrown_by_handler; [apply Hfv|intros; apply ret_thrown_by_handler].
  - (* sets *)
    apply bind_thrown_by_handler; [|intros; apply ret_thrown_by_handler].
    apply traverse_thrown_by_handler. eapply Forall_impl; [exact IH|]. auto.
  - (* maps *)
    apply bind_thrown_by_handler; [|intros; apply ret_thrown_by_handler].
    apply traverse_thrown_by_handler. eapply Forall_impl; [exact IH|].
    intros [k x] [Hk Hx]. cbn [fst snd] in *.
    apply bind_thrown_by_handler; [apply Hk|]. intros pk.
    apply bind_thrown_by_handler; [apply Hx|intros; apply ret_thrown_by_handler].
Qed.

Variable resolveConstructor : list (string * val) -> gmap string Ctor -> Ctor -> Exn + Ctor.
Variable table : gmap string Ctor.

Abbreviation des := (Core.deserialize reg dates handler resolveConstructor table).

Lemma deserialize_thrown_by_handler plain :
  (forall tag, Invariants.thrown_by_handler handler (des plain tag)) /\
  match plain with
  | VArr items => Forall (fun x => forall tag, Invariants.thrown_by_handler handler (des x tag)) items
  | _ => True
  end.
Proof.
  induction plain as [| | | | | |items IH|c props IH|items IH|entries IH]
    using val_nested_ind.
  all: split; [intros tag|try exact I].
  all: try (destruct tag as [sc|oc|elem depth|elem|keyTag valueTag]; cbn [Core.deserialize]).
  all: try apply report_thrown_by_handler.
  all: try (destruct (Core.deserialize_scalar _ _);
            [apply ret_thrown_by_handler|apply report_thrown_by_handler]).
  - (* an array of elements *)
    apply bind_thrown_by_handler; [|intros; apply ret_thrown_by_handler].
    apply traverse_thrown_by_handler. eapply Forall_impl; [exact IH|].
    intros x [Hx _]. apply Hx.
  - (* the elements of a set *)
    apply bind_thrown_by_handler; [|intros; apply ret_thrown_by_handler].
    apply foldM_thrown_by_handler. eapply Forall_impl; [exact IH|].
    intros x [Hx _] set.
    apply bind_thrown_by_handler; [apply Hx|intros; apply ret_thrown_by_handler].
  - (* the entries of a map *)
    apply bind_thrown_by_handler; [|intros; apply ret_thrown_by_handler].
    apply foldM_thrown_by_handler. eapply Forall_impl; [exact IH|].
    intros entry [_ Hentry] map.
    destruct entry as [| | | | | |[|pk [|pv [|? ?]]]| | |];
      try apply report_thrown_by_handler.
    apply Forall_cons in Hentry as [Hpk Hentry]. apply Forall_cons in Hentry as [Hpv _].
    apply bind_thrown_by_handler; [apply Hpk|]. intros k.
    apply bind_thrown_by_handler; [apply Hpv|intros; apply ret_thrown_by_handler].
  - eapply Forall_impl; [exact IH|]. intros x [Hx _]. exact Hx.
  - (* an instance *)
    destruct (resolveConstructor props table oc) as [e|rc]; [apply report_thrown_by_handler|].
    destruct (reg rc) as [md|]; [|apply report_thrown_by_handler].
    apply bind_thrown_by_handler; [|intros; apply ret_thrown_by_handler].
    apply foldM_thrown_by_handler. apply Forall_forall. intros m _ fields.
    apply with_prop_thrown_by_handler.
    + destruct (Core.is_true (Metadata.isRequired m));
        [apply report_thrown_by_handler|apply ret_thrown_by_handler].
    + eapply Forall_impl; [exact IH|]. intros [k fp] [Hfp _]. cbn [snd] in *.
      apply bind_thrown_by_handler; [apply Hfp|intros; apply ret_thrown_by_handler].
Qed.

End Funnel.

Lemma agreed_handlers this :
  Invariants.handlers_agree this ->
  Standard.handler_of (ser_errorHandler (serializer this)) = errorHandler this /\
  Standard.handler_of (des_errorHandler (deserializer this)) = errorHandler this.
Proof.
  unfold Invariants.handlers_agree, Standard.handler_of.
  destruct (ser_errorHandler (serializer this)) as [hs|];
    destruct (des_errorHandler (deserializer this)) as [hd|]; cbn; try tauto.
  intros Hh. by rewrite Hh.
Qed.

Lemma quiet_handler_returns {A} handler (m : M A) :
  Invariants.thrown_by_handler handler m ->
  (forall e, exists evs, handler e = (evs, Ret tt)) ->
  exists evs a, m = (evs, Ret a).
Proof.
  intros Hm Hquiet. destruct m as [evs [a|e']]; [by eexists _, _|].
  destruct (Hm e' eq_refl) as (e & _ & Hthrow).
  destruct (Hquiet e) as [hevs Hh]. rewrite Hh in Hthrow. discriminate.
Qed.

(** ** The error handler of [parse] and [stringify] *)




(** * Further properties of the converter *)

(** ** Assigning settings *)

Lemma assign_assoc a b c :
  Settings.assign (Settings.assign a b) c = Settings.assign a (Settings.assign b c).
Proof.
  unfold Settings.assign; cbn. f_equal; unfold spread;
  match goal with |- context [match ?f c with _ => _ end] => destruct (f c) end; reflexivity.
Qed.

Lemma assign_idemp a : Settings.assign a a = a.
Proof.
  destruct a as [e t n h i r k]. unfold Settings.assign. cbn.
  f_equal; match goal with |- spread ?x ?x = _ => destruct x; reflexivity end.
Qed.

Lemma spread_cases {A} (x y : field A) :
  (y <> Absent -> spread x y = y) /\ (y = Absent -> spread x y = x).
Proof. destruct y; cbn; split; congruence. Qed.

(** Two calls of [setGlobalConfig] act as one call with the second object
    assigned over the first.  A property the later object has replaces the
    earlier one, a [knownTypes] array included (the arrays are not merged)
    and an undefined error handler too; a property it lacks is kept. *)
Theorem setGlobalConfig_twice
    (G : option Settings.ITypedJSONSettings) (c1 c2 : Settings.ITypedJSONSettings) :
  setGlobalConfig (setGlobalConfig G c1) c2 = setGlobalConfig G (Settings.assign c1 c2) /\
  exists g1 g2,
    setGlobalConfig G c1 = Some g1 /\
    setGlobalConfig (setGlobalConfig G c1) c2 = Some g2 /\
    (Settings.knownTypes c2 <> Absent -> Settings.knownTypes g2 = Settings.knownTypes c2) /\
    (Settings.knownTypes c2 = Absent -> Settings.knownTypes g2 = Settings.knownTypes g1) /\
    (Settings.errorHandler c2 <> Absent ->
       Settings.errorHandler g2 = Settings.errorHandler c2) /\
    (Settings.errorHandler c2 = Absent ->
       Settings.errorHandler g2 = Settings.errorHandler g1).
Proof.
  split.
  - destruct G as [g|]; cbn [setGlobalConfig]; [|reflexivity].
    by rewrite assign_assoc.
  - destruct G as [g|]; cbn [setGlobalConfig]; eexists _, _;
      (split; [reflexivity|]); (split; [reflexivity|]);
      cbn [Settings.assign Settings.knownTypes Settings.errorHandler];
      repeat split; apply spread_cases.
Qed.

(** ** The object behind the global configuration *)

(** Reading the shared object gives the configuration of the converter's
    own [setGlobalConfig]. *)
Lemma shared_setGlobalConfig_read config st :
  Shared.read (Shared.setGlobalConfig config st)
  = setGlobalConfig (Shared.read st) (Shared.heap st config).
Proof.
  unfold Shared.read, Shared.setGlobalConfig.
  destruct (Shared._globalConfig st) as [g|]; cbn; [|reflexivity].
  by rewrite bool_decide_eq_true_2.
Qed.

Lemma shared_setGlobalConfig_later first later : forall st,
  Shared._globalConfig st = Some first ->
  let st' := foldl (fun st config => Shared.setGlobalConfig config st) st later in
  Shared._globalConfig st' = Some first /\
  (forall r, r <> first -> Shared.heap st' r = Shared.heap st r) /\
  Shared.heap st' first
  = foldl Settings.assign (Shared.heap st first)
      (map (Shared.heap st) (filter (fun r => r <> first) later)).
Proof.
  induction later as [|c later IH]; intros st Hg; cbn [foldl].
  - split; [exact Hg|]. split; reflexivity.
  - assert (Hstep : Shared._globalConfig (Shared.setGlobalConfig c st) = Some first)
      by (unfold Shared.setGlobalConfig; by rewrite Hg).
    destruct (IH _ Hstep) as (Hg' & Hframe & Hfirst). cbn zeta in *.
    assert (Hother : forall r, r <> first ->
              Shared.heap (Shared.setGlobalConfig c st) r = Shared.heap st r).
    { intros r Hr. unfold Shared.setGlobalConfig. rewrite Hg. cbn.
      by rewrite bool_decide_eq_false_2. }
    split; [exact Hg'|]. split.
    + intros r Hr. by rewrite Hframe, Hother.
    + rewrite Hfirst.
      assert (Hmap : map (Shared.heap (Shared.setGlobalConfig c st))
                       (filter (fun r => r <> first) later)
                     = map (Shared.heap st) (filter (fun r => r <> first) later)).
      { apply map_ext_in. intros r Hr. apply Hother.
        apply list_elem_of_In, list_elem_of_filter in Hr. tauto. }
      rewrite Hmap. rewrite filter_cons.
      unfold Shared.setGlobalConfig at 1. rewrite Hg. cbn [Shared.heap].
      rewrite bool_decide_eq_true_2 by reflexivity.
      destruct (decide (c <> first)) as [Hne|Heq].
      * reflexivity.
      * assert (c = first) as -> by (destruct (decide (c = first)); tauto).
        by rewrite assign_idemp.
Qed.

(** [setGlobalConfig] keeps the object of its first call and assigns into
    it: after any further calls the global configuration is still that
    object, it holds its own settings overwritten by those of the later
    objects in turn, and no other object was written to.  Passing the
    first object again changes nothing. *)
Theorem setGlobalConfig_writes_to_the_first_object
    (st : Shared.Statics) (first : Shared.ref) (later : list Shared.ref) :
  Shared._globalConfig st = None ->
  let st' :=
    foldl (fun st config => Shared.setGlobalConfig config st) st (first :: later) in
  Shared._globalConfig st' = Some first /\
  (forall r, r <> first -> Shared.heap st' r = Shared.heap st r) /\
  Shared.heap st' first
  = foldl Settings.assign (Shared.heap st first)
      (map (Shared.heap st) (filter (fun r => r <> first) later)).
Proof.
  intros Hnone st'. subst st'. cbn [foldl].
  assert (Hfirst : Shared.setGlobalConfig first st
                   = {| Shared.heap := Shared.heap st; Shared._globalConfig := Some first |})
    by (unfold Shared.setGlobalConfig; by rewrite Hnone).
  rewrite Hfirst.
  exact (shared_setGlobalConfig_later first later
           {| Shared.heap := Shared.heap st; Shared._globalConfig := Some first |} eq_refl).
Qed.

(** The first object at work: after [setGlobalConfig(a)],
    [setGlobalConfig(b)] and [setGlobalConfig(a)] the object [a] holds the
    known types of [b]. *)
Lemma first_object_witness :
  let st' :=
    foldl (fun st config => Shared.setGlobalConfig config st) Scenarios.statics
      [1%positive; 2%positive; 1%positive] in
  Shared._globalConfig st' = Some 1%positive /\
  (forall r, r <> 1%positive -> Shared.heap st' r = Shared.heap Scenarios.statics r) /\
  Shared.heap st' 1%positive
  = Settings.assign Examples.strict (Examples.known [Examples.Circle]).
Proof.
  exact (setGlobalConfig_writes_to_the_first_object Scenarios.statics 1%positive
           [2%positive; 1%positive] eq_refl).
Defined.

(** ** What [config] installs *)

Lemma apply_settings_fields this m :
  exists this',
    apply_settings this m
    = (match truthy (Settings.knownTypes m) with
       | Some kts => knownTypes_warnings kts
       | None => []
       end, Ret this') /\
    errorHandler this' = default (errorHandler this) (truthy (Settings.errorHandler m)) /\
    ser_errorHandler (serializer this')
      = from_option Some (ser_errorHandler (serializer this))
          (truthy (Settings.errorHandler m)) /\
    des_errorHandler (deserializer this')
      = from_option Some (des_errorHandler (deserializer this))
          (truthy (Settings.errorHandler m)) /\
    ser_typeHintEmitter (serializer this')
      = from_option Some (ser_typeHintEmitter (serializer this))
          (truthy (Settings.typeHintEmitter m)) /\
    des_typeResolver (deserializer this')
      = from_option Some (des_typeResolver (deserializer this))
          (truthy (Settings.typeResolver m)) /\
    des_nameResolver (deserializer this')
      = from_option Some (des_nameResolver (deserializer this))
          (truthy (Settings.nameResolver m)) /\
    nameResolver this' = default (nameResolver this) (truthy (Settings.nameResolver m)) /\
    replacer this' = from_option Some (replacer this) (truthy (Settings.replacer m)) /\
    indent this' = default (indent this) (truthy_num (Settings.indent m)) /\
    globalKnownTypes this'
      = default (globalKnownTypes this) (truthy (Settings.knownTypes m)) /\
    rootConstructor this' = rootConstructor this.
Proof.
  unfold apply_settings, when.
  destruct (truthy (Settings.errorHandler m)), (truthy (Settings.replacer m)),
    (truthy (Settings.typeResolver m)), (truthy (Settings.typeHintEmitter m)),
    (truthy_num (Settings.indent m)), (truthy (Settings.nameResolver m)),
    (truthy (Settings.knownTypes m));
    eexists; (split; [reflexivity|]); cbn; repeat split.
Qed.

Lemma config_fields G this s :
  exists this',
    config G this s
    = (match truthy (Settings.knownTypes (merge_global G s)) with
       | Some kts => knownTypes_warnings kts
       | None => []
       end, Ret this') /\
    errorHandler this'
      = default (errorHandler this) (truthy (Settings.errorHandler (merge_global G s))) /\
    ser_errorHandler (serializer this')
      = from_option Some (ser_errorHandler (serializer this))
          (truthy (Settings.errorHandler (merge_global G s))) /\
    des_errorHandler (deserializer this')
      = from_option Some (des_errorHandler (deserializer this))
          (truthy (Settings.errorHandler (merge_global G s))) /\
    ser_typeHintEmitter (serializer this')
      = from_option Some (ser_typeHintEmitter (serializer this))
          (truthy (Settings.typeHintEmitter (merge_global G s))) /\
    des_typeResolver (deserializer this')
      = from_option Some (des_typeResolver (deserializer this))
          (truthy (Settings.typeResolver (merge_global G s))) /\
    des_nameResolver (deserializer this')
      = from_option Some (des_nameResolver (deserializer this))
          (truthy (Settings.nameResolver (merge_global G s))) /\
    nameResolver this'
      = default (nameResolver this) (truthy (Settings.nameResolver (merge_global G s))) /\
    replacer this'
      = from_option Some (replacer this) (truthy (Settings.replacer (merge_global G s))) /\
    indent this' = default (indent this) (truthy_num (Settings.indent (merge_global G s))) /\
    globalKnownTypes this'
      = default (globalKnownTypes this) (truthy (Settings.knownTypes (merge_global G s))) /\
    rootConstructor this' = rootConstructor this.
Proof. exact (apply_settings_fields this (merge_global G s)). Qed.

(** The settings other than [knownTypes], merged over a global
    configuration. *)
Lemma merge_global_fields G s :
  let over {A} (f : Settings.ITypedJSONSettings -> field A) : field A :=
    match G with Some g => spread (f g) (f s) | None => f s end in
  Settings.errorHandler (merge_global G s) = over Settings.errorHandler /\
  Settings.typeResolver (merge_global G s) = over Settings.typeResolver /\
  Settings.nameResolver (merge_global G s) = over Settings.nameResolver /\
  Settings.typeHintEmitter (merge_global G s) = over Settings.typeHintEmitter /\
  Settings.indent (merge_global G s) = over Settings.indent /\
  Settings.replacer (merge_global G s) = over Settings.replacer.
Proof.
  destruct G as [g|]; cbn [merge_global]; [|repeat split].
  destruct (truthy (Settings.knownTypes (Settings.assign g s))),
           (truthy (Settings.knownTypes g)); repeat split.
Qed.

Lemma merge_global_knownTypes G s :
  Settings.knownTypes (merge_global G s)
  = match G with
    | Some g =>
        match truthy (spread (Settings.knownTypes g) (Settings.knownTypes s)),
              truthy (Settings.knownTypes g) with
        | Some kts, Some gkts => Given (Settings.dedupe (kts ++ gkts))
        | _, _ => spread (Settings.knownTypes g) (Settings.knownTypes s)
        end
    | None => Settings.knownTypes s
    end.
Proof.
  destruct G as [g|]; [|reflexivity].
  cbn [merge_global Settings.assign Settings.knownTypes].
  destruct (truthy (spread (Settings.knownTypes g) (Settings.knownTypes s))),
           (truthy (Settings.knownTypes g)); reflexivity.
Qed.

(** ** De-duplication *)

Lemma dedupe_from {A} `{EqDecision A} (l : list A) : forall acc,
  let r := foldl (fun acc x => if bool_decide (x ∈ acc) then acc else acc ++ [x]) acc l in
  (NoDup acc -> NoDup r) /\
  (forall x, x ∈ r <-> x ∈ acc \/ x ∈ l) /\
  acc `prefix_of` r /\
  (NoDup (acc ++ l) -> r = acc ++ l).
Proof.
  induction l as [|y l IH]; intros acc; cbn [foldl].
  - split; [auto|]. split; [intros x; rewrite elem_of_nil; tauto|].
    split; [reflexivity|]. intros _. by rewrite app_nil_r.
  - destruct (IH (if bool_decide (y ∈ acc) then acc else acc ++ [y]))
      as (Hnd & Hin & Hpre & Hid).
    cbn zeta in *. case_bool_decide as Hy.
    + split; [exact Hnd|].
      split; [intros x; rewrite Hin, elem_of_cons;
               split; [tauto|intros [?|[->|?]]; auto]|].
      split; [exact Hpre|].
      intros Hdup. apply NoDup_app in Hdup as (_ & Hdisj & _).
      exfalso. apply (Hdisj y Hy). left.
    + split.
      * intros Hacc. apply Hnd. apply NoDup_app. split; [exact Hacc|].
        split; [|apply NoDup_singleton]. intros x Hx Hx'.
        apply list_elem_of_singleton in Hx'. by subst.
      * split; [intros x;
                rewrite Hin, elem_of_app, list_elem_of_singleton, elem_of_cons; tauto|].
        split; [etrans; [|exact Hpre]; by apply prefix_app_r|].
        intros Hdup. rewrite Hid; [by rewrite <- app_assoc|].
        by rewrite <- app_assoc.
Qed.

Lemma NoDup_dedupe {A} `{EqDecision A} (l : list A) : NoDup (Settings.dedupe l).
Proof. apply (dedupe_from l []). apply NoDup_nil_2. Qed.

Lemma elem_of_dedupe {A} `{EqDecision A} (l : list A) x : x ∈ Settings.dedupe l <-> x ∈ l.
Proof.
  destruct (dedupe_from l []) as (_ & Hin & _). cbn zeta in Hin.
  unfold Settings.dedupe. rewrite Hin, elem_of_nil. tauto.
Qed.

Lemma dedupe_app_prefix {A} `{EqDecision A} (l l' : list A) :
  NoDup l -> l `prefix_of` Settings.dedupe (l ++ l').
Proof.
  intros Hl. unfold Settings.dedupe. rewrite foldl_app.
  destruct (dedupe_from l []) as (_ & _ & _ & Hid). cbn zeta in Hid.
  rewrite Hid by exact Hl. cbn [app].
  apply (dedupe_from l' l).
Qed.

(** ** Known types and falsy settings in [config] *)

(** With a [knownTypes] array in the global configuration, [config] leaves
    the converter with known types that hold no element twice: the elements
    of the settings' array and of the global one when the settings have an
    array (the settings' own first, in their order, when they are distinct),
    the elements of the global array when the settings have no [knownTypes]
    property.  A [knownTypes] property that is there but undefined hides the
    global array: the known types of the converter stay as they were. *)
Theorem config_merges_known_types
    (g s : Settings.ITypedJSONSettings) (this : TypedJSON)
    (gkts : list Settings.KnownTypeEntry) :
  Settings.knownTypes g = Given gkts ->
  exists this',
    outcome (config (Some g) this s) = Ret this' /\
    match Settings.knownTypes s with
    | Given kts =>
        NoDup (globalKnownTypes this') /\
        (forall kt, kt ∈ globalKnownTypes this' <-> kt ∈ kts \/ kt ∈ gkts) /\
        (NoDup kts -> kts `prefix_of` globalKnownTypes this')
    | Absent =>
        NoDup (globalKnownTypes this') /\
        (forall kt, kt ∈ globalKnownTypes this' <-> kt ∈ gkts)
    | Nullish => globalKnownTypes this' = globalKnownTypes this
    end.
Proof.
  intros Hg.
  destruct (config_fields (Some g) this s) as (this' & Hcfg & Hfields).
  destruct Hfields as (_ & _ & _ & _ & _ & _ & _ & _ & _ & Hkts & _).
  exists this'. split; [by rewrite Hcfg|].
  rewrite merge_global_knownTypes, Hg in Hkts. cbn [truthy] in Hkts.
  destruct (Settings.knownTypes s) as [| |kts]; cbn in Hkts; rewrite Hkts.
  - split; [apply NoDup_dedupe|].
    intros kt. rewrite elem_of_dedupe, elem_of_app. tauto.
  - reflexivity.
  - split; [apply NoDup_dedupe|]. split.
    + intros kt. rewrite elem_of_dedupe, elem_of_app. tauto.
    + apply dedupe_app_prefix.
Qed.

(** Known types of the settings and of the global configuration that
    overlap in [Point]. *)
Lemma merged_known_types_witness :
  exists this',
    outcome (config (Some (Examples.known [Examples.Circle; Examples.Point]))
               (fresh Examples.Shape) (Examples.known [Examples.Point; Examples.Route]))
    = Ret this' /\
    NoDup (globalKnownTypes this') /\
    (forall kt,
       kt ∈ globalKnownTypes this' <->
       kt ∈ map Settings.KtCtor [Examples.Point; Examples.Route] \/
       kt ∈ map Settings.KtCtor [Examples.Circle; Examples.Point]) /\
    (NoDup (map Settings.KtCtor [Examples.Point; Examples.Route]) ->
     map Settings.KtCtor [Examples.Point; Examples.Route]
       `prefix_of` globalKnownTypes this').
Proof.
  exact (config_merges_known_types (Examples.known [Examples.Circle; Examples.Point])
           (Examples.known [Examples.Point; Examples.Route]) (fresh Examples.Shape)
           (map Settings.KtCtor [Examples.Circle; Examples.Point]) eq_refl).
Defined.

(** A setting that is there but falsy (undefined, null, or an indentation
    of 0) hides the one of the global configuration and is not installed
    itself: [config] leaves that field of the converter as it was. *)
Theorem falsy_setting_hides_the_global_one
    (G : option Settings.ITypedJSONSettings) (this : TypedJSON)
    (s : Settings.ITypedJSONSettings) :
  exists this',
    outcome (config G this s) = Ret this' /\
    (Settings.errorHandler s = Nullish ->
       errorHandler this' = errorHandler this /\
       ser_errorHandler (serializer this') = ser_errorHandler (serializer this) /\
       des_errorHandler (deserializer this') = des_errorHandler (deserializer this)) /\
    (Settings.typeResolver s = Nullish ->
       des_typeResolver (deserializer this') = des_typeResolver (deserializer this)) /\
    (Settings.typeHintEmitter s = Nullish ->
       ser_typeHintEmitter (serializer this') = ser_typeHintEmitter (serializer this)) /\
    (Settings.nameResolver s = Nullish ->
       nameResolver this' = nameResolver this /\
       des_nameResolver (deserializer this') = des_nameResolver (deserializer this)) /\
    (Settings.replacer s = Nullish -> replacer this' = replacer this) /\
    (Settings.indent s = Nullish \/ Settings.indent s = Given 0%Z ->
       indent this' = indent this) /\
    (Settings.knownTypes s = Nullish ->
       globalKnownTypes this' = globalKnownTypes this /\ events (config G this s) = []).
Proof.
  destruct (config_fields G this s) as (this' & Hcfg & Hfields).
  destruct Hfields as (He & Hse & Hde & Hth & Htr & Hdn & Hn & Hr & Hi & Hk & _).
  destruct (merge_global_fields G s) as (Me & Mtr & Mn & Mth & Mi & Mr).
  cbn zeta in *.
  rewrite Me in He, Hse, Hde. rewrite Mtr in Htr. rewrite Mth in Hth.
  rewrite Mn in Hdn, Hn. rewrite Mr in Hr. rewrite Mi in Hi.
  exists this'. split; [by rewrite Hcfg|].
  repeat match goal with |- _ /\ _ => split end.
  - intros Hs. rewrite Hs in He, Hse, Hde. by destruct G.
  - intros Hs. rewrite Hs in Htr. by destruct G.
  - intros Hs. rewrite Hs in Hth. by destruct G.
  - intros Hs. rewrite Hs in Hdn, Hn. by destruct G.
  - intros Hs. rewrite Hs in Hr. by destruct G.
  - intros [Hs|Hs]; rewrite Hs in Hi; by destruct G.
  - intros Hs. rewrite Hcfg. rewrite merge_global_knownTypes, Hs in Hk |- *.
    destruct G as [g|]; cbn in *; auto.
Qed.

(** ** The warnings of [config] *)

Lemma knownTypes_warnings_are_warnings kts ev :
  ev ∈ knownTypes_warnings kts -> exists w, ev = ConsoleWarn w.
Proof.
  unfold knownTypes_warnings. rewrite list_elem_of_omap.
  intros (o & Ho & Hid). cbn in Hid. subst o.
  apply elem_of_lookup_imap in Ho as (i & kt & Hev & _).
  destruct kt; [| |discriminate]; injection Hev as ->; eauto.
Qed.

Lemma knownTypes_warnings_count kts :
  (length (knownTypes_warnings kts) + length (defined_ctors kts) = length kts)%nat.
Proof.
  unfold knownTypes_warnings, defined_ctors.
  assert (Hgen : forall (l : list Settings.KnownTypeEntry) (h : nat -> nat),
    (length (omap id (imap (fun i kt =>
       match kt with
       | Settings.KtCtor _ => None
       | _ => Some (ConsoleWarn
           ("TypedJSON.config: 'knownTypes' contains an undefined/null value (element "
              +:+ pretty (h i) +:+ ")."))
       end) l))
     + length (omap (fun kt => match kt with Settings.KtCtor c => Some c | _ => None end) l)
     = length l)%nat).
  { induction l as [|kt l IH]; intros h; [reflexivity|].
    rewrite imap_cons. specialize (IH (fun i => h (S i))).
    destruct kt; cbn [omap list_omap id length] in *; unfold compose; lia. }
  exact (Hgen kts (fun i => i)).
Qed.

Lemma knownTypes_warnings_index kts i kt :
  kts !! i = Some kt -> (forall c, kt <> Settings.KtCtor c) ->
  ConsoleWarn
    ("TypedJSON.config: 'knownTypes' contains an undefined/null value (element "
       +:+ pretty i +:+ ").")
  ∈ knownTypes_warnings kts.
Proof.
  intros Hlookup Hkt. unfold knownTypes_warnings. apply list_elem_of_omap.
  eexists. split; [|reflexivity].
  apply elem_of_lookup_imap. exists i, kt. split; [|exact Hlookup].
  destruct kt as [| |c]; [reflexivity|reflexivity|by destruct (Hkt c)].
Qed.

(** [config] never throws and never calls the error handler: all it reports
    are warnings, one for each undefined or null element of the known types
    it installs, naming the index of the element.  The array is installed
    whole, those elements included. *)
Theorem config_only_warns
    (G : option Settings.ITypedJSONSettings) (this : TypedJSON)
    (s : Settings.ITypedJSONSettings) :
  exists this',
    outcome (config G this s) = Ret this' /\
    (forall ev, ev ∈ events (config G this s) -> exists w, ev = ConsoleWarn w) /\
    match truthy (Settings.knownTypes (merge_global G s)) with
    | Some kts =>
        globalKnownTypes this' = kts /\
        (length (events (config G this s)) + length (defined_ctors kts) = length kts)%nat /\
        (forall i kt,
           kts !! i = Some kt -> (forall c, kt <> Settings.KtCtor c) ->
           ConsoleWarn
             ("TypedJSON.config: 'knownTypes' contains an undefined/null value (element "
                +:+ pretty i +:+ ").")
           ∈ events (config G this s))
    | None =>
        globalKnownTypes this' = globalKnownTypes this /\ events (config G this s) = []
    end.
Proof.
  destruct (config_fields G this s) as (this' & Hcfg & Hfields).
  destruct Hfields as (_ & _ & _ & _ & _ & _ & _ & _ & _ & Hk & _).
  exists this'. rewrite Hcfg. cbn [outcome events fst snd].
  split; [reflexivity|].
  destruct (truthy (Settings.knownTypes (merge_global G s))) as [kts|]; cbn in Hk.
  - split; [apply knownTypes_warnings_are_warnings|].
    split; [exact Hk|]. split; [apply knownTypes_warnings_count|].
    apply knownTypes_warnings_index.
  - split; [intros ev Hev; by apply elem_of_nil in Hev|]. split; [exact Hk|reflexivity].
Qed.

(** ** What a constructed converter satisfies *)

(** The global configuration is applied to a converter constructed without
    settings: constructing it so is constructing it with the empty settings
    object, whatever the global configuration. *)
Theorem omitted_settings_are_empty_settings
    (H : Host) (G : option Settings.ITypedJSONSettings) (root : Ctor) :
  new_TypedJSON H G root None = new_TypedJSON H G root (Some Settings.empty).
Proof.
  unfold new_TypedJSON. destruct (root_check H root); [reflexivity|].
  destruct G as [g|]; reflexivity.
Qed.

Lemma constructed_by_config H G root settings evs this :
  new_TypedJSON H G root settings = (evs, Ret this) ->
  root_check H root = false /\
  exists s, config G (fresh root) s = (evs, Ret this).
Proof.
  intros Hnew. destruct (root_check H root) eqn:Hroot.
  - rewrite (not_registered_throws H G root settings Hroot) in Hnew. discriminate.
  - split; [reflexivity|].
    unfold new_TypedJSON in Hnew. rewrite Hroot in Hnew.
    destruct settings as [s|]; [eauto|].
    destruct G as [g|]; [eauto|].
    exists Settings.empty. exact Hnew.
Qed.

Lemma config_keeps_agreement G this s this' :
  Invariants.handlers_agree this -> Invariants.resolvers_agree this ->
  outcome (config G this s) = Ret this' ->
  Invariants.handlers_agree this' /\ Invariants.resolvers_agree this'.
Proof.
  intros Hh Hr Hout.
  destruct (config_fields G this s) as (this'' & Hcfg & Hfields).
  rewrite Hcfg in Hout. injection Hout as <-.
  destruct Hfields as (He & Hse & Hde & _ & _ & Hdn & Hn & _).
  unfold Invariants.handlers_agree, Invariants.resolvers_agree in *.
  rewrite He, Hse, Hde, Hdn, Hn.
  split.
  - destruct (truthy (Settings.errorHandler (merge_global G s))); cbn; [auto|exact Hh].
  - destruct (truthy (Settings.nameResolver (merge_global G s))); cbn; [auto|exact Hr].
Qed.

(** The error handler the converter calls is the one its serializer and
    its deserializer were handed, and its name resolver the one its
    deserializer was handed: the constructor establishes this, and [config]
    keeps it, whatever the settings and the global configuration. *)
Theorem handlers_and_resolvers_agree :
  (forall H G root settings evs this,
     new_TypedJSON H G root settings = (evs, Ret this) ->
     Invariants.handlers_agree this /\ Invariants.resolvers_agree this) /\
  (forall G this s this',
     Invariants.handlers_agree this -> Invariants.resolvers_agree this ->
     outcome (config G this s) = Ret this' ->
     Invariants.handlers_agree this' /\ Invariants.resolvers_agree this').
Proof.
  split; [|exact config_keeps_agreement].
  intros H G root settings evs this Hnew.
  apply constructed_by_config in Hnew as (_ & s & Hcfg).
  apply (config_keeps_agreement G (fresh root) s this); [reflexivity|reflexivity|].
  by rewrite Hcfg.
Qed.

(** A converter that [new TypedJSON] returned converts the root class it
    was given, that class has explicitly marked metadata, and constructing
    it reported nothing but warnings; [config] never changes the root
    class.  So [parse] always finds the metadata of its root class, and
    builds its table from the known types of that class. *)
Theorem constructed_converter_has_a_registered_root
    (H : Host) (G : option Settings.ITypedJSONSettings) (root : Ctor)
    (settings : option Settings.ITypedJSONSettings) (evs : list Event) (this : TypedJSON) :
  new_TypedJSON H G root settings = (evs, Ret this) ->
  rootConstructor this = root /\
  (forall ev, ev ∈ evs -> exists w, ev = ConsoleWarn w) /\
  (exists md,
     getFromConstructor H root = Some md /\
     Metadata.isExplicitlyMarked md = true /\
     parse_knownTypes H this
     = foldl (set_knownType (nameResolver this))
         (_mapKnownTypes this (globalKnownTypes this)) (Metadata.knownTypes md)) /\
  (forall G' s this',
     outcome (config G' this s) = Ret this' -> rootConstructor this' = root).
Proof.
  intros Hnew.
  apply constructed_by_config in Hnew as (Hroot & s & Hcfg).
  destruct (config_fields G (fresh root) s) as (this0 & Hcfg0 & Hfields).
  rewrite Hcfg in Hcfg0. injection Hcfg0 as Hevs <-.
  assert (Hrc : rootConstructor this = root).
  { destruct Hfields as (_ & _ & _ & _ & _ & _ & _ & _ & _ & _ & Hrc). exact Hrc. }
  split; [exact Hrc|]. split; [|split].
  - intros ev Hev. subst evs.
    destruct (truthy (Settings.knownTypes (merge_global G s))) as [kts|].
    + by apply knownTypes_warnings_are_warnings in Hev.
    + by apply elem_of_nil in Hev.
  - unfold root_check in Hroot.
    destruct (getFromConstructor H root) as [md|] eqn:Hmd; [|discriminate].
    exists md. split; [reflexivity|]. split; [by destruct (Metadata.isExplicitlyMarked md)|].
    rewrite parse_knownTypes_eq. unfold root_knownTypes. by rewrite Hrc, Hmd.
  - intros G' s' this' Hout.
    destruct (config_fields G' this s') as (this1 & Hcfg1 & Hfields1).
    rewrite Hcfg1 in Hout. injection Hout as <-.
    destruct Hfields1 as (_ & _ & _ & _ & _ & _ & _ & _ & _ & _ & Hrc1).
    by rewrite Hrc1.
Qed.

(** The converter of [Point] with two known types. *)
Lemma registered_root_witness :
  rootConstructor Examples.accounts_converter = Examples.Point.
Proof.
  exact (proj1 (constructed_converter_has_a_registered_root Examples.host None
                  Examples.Point
                  (Some (Examples.known [Examples.Account; Examples.LegacyAccount]))
                  [] Examples.accounts_converter eq_refl)).
Defined.

(** A root class with explicitly marked metadata is all the constructor
    asks for: whatever the settings and the global configuration, it
    returns a converter of that class, and it has reported nothing but
    warnings. *)
Theorem registered_root_is_all_the_constructor_asks
    (H : Host) (G : option Settings.ITypedJSONSettings) (root : Ctor)
    (settings : option Settings.ITypedJSONSettings) (md : Metadata.JsonObjectMetadata) :
  getFromConstructor H root = Some md ->
  Metadata.isExplicitlyMarked md = true ->
  exists evs this,
    new_TypedJSON H G root settings = (evs, Ret this) /\
    rootConstructor this = root /\
    (forall ev, ev ∈ evs -> exists w, ev = ConsoleWarn w).
Proof.
  intros Hmd Hmarked.
  assert (Hroot : root_check H root = false)
    by (unfold root_check; by rewrite Hmd, Hmarked).
  rewrite (registered_constructs H G root settings Hroot).
  assert (Hcfg : forall s, exists evs this,
            apply_settings (fresh root) (merge_global G s) = (evs, Ret this) /\
            rootConstructor this = root /\
            (forall ev, ev ∈ evs -> exists w, ev = ConsoleWarn w)).
  { intros s. destruct (config_fields G (fresh root) s) as (this & Hcfg & Hfields).
    unfold config in Hcfg. rewrite Hcfg. eexists _, this. split; [reflexivity|].
    split; [apply Hfields|].
    intros ev Hev.
    destruct (truthy (Settings.knownTypes (merge_global G s))) as [kts|].
    - by apply knownTypes_warnings_are_warnings in Hev.
    - by apply elem_of_nil in Hev. }
  destruct settings as [s|]; [apply Hcfg|].
  destruct G as [g|]; [apply Hcfg|].
  exists [], (fresh root). split; [reflexivity|]. split; [reflexivity|].
  intros ev Hev. by apply elem_of_nil in Hev.
Qed.

(** [Shape] under a strict global configuration. *)
Lemma registered_root_constructs_witness :
  exists evs this,
    new_TypedJSON Examples.host (Some Examples.strict) Examples.Shape None
    = (evs, Ret this) /\
    rootConstructor this = Examples.Shape /\
    (forall ev, ev ∈ evs -> exists w, ev = ConsoleWarn w).
Proof.
  exact (registered_root_is_all_the_constructor_asks Examples.host (Some Examples.strict)
           Examples.Shape None _ eq_refl eq_refl).
Defined.

(** ** Errors that the converter does not catch *)


(** The container stringifiers check nothing and catch nothing, whatever
    the number of dimensions: the serializer is called on any argument, an
    exception of the serializer leaves the call as it is, with the error
    handler of the converter not told, and when the serializer returns the
    call ends as [JSON.stringify] ends.  A number of dimensions that
    [new Array] refuses leaves [stringifyAsArray] by that exception. *)
Theorem container_stringifiers_do_not_catch
    (H : Host) (S : Serializer) (this : TypedJSON) (object : val) :
  (forall evs e,
     ser_convertAsSet S (serializer this) object (rootConstructor this) = (evs, Throw e) ->
     stringifyAsSet H S this object = (evs, Throw e)) /\
  (forall evs plain,
     ser_convertAsSet S (serializer this) object (rootConstructor this) = (evs, Ret plain) ->
     let text := JSON_stringify H plain (replacer this) (indent this) in
     stringifyAsSet H S this object = (evs ++ events text, outcome text)) /\
  (forall keyConstructor evs e,
     ser_convertAsMap S (serializer this) object keyConstructor (rootConstructor this)
       = (evs, Throw e) ->
     stringifyAsMap H S this object keyConstructor = (evs, Throw e)) /\
  (forall keyConstructor evs plain,
     ser_convertAsMap S (serializer this) object keyConstructor (rootConstructor this)
       = (evs, Ret plain) ->
     let text := JSON_stringify H plain (replacer this) (indent this) in
     stringifyAsMap H S this object keyConstructor = (evs ++ events text, outcome text)) /\
  (forall dimensions ctors,
     elementConstructorArray (default 1%Z dimensions) (rootConstructor this)
       = ([], Ret ctors) ->
     (forall evs e,
        ser_convertAsArray S (serializer this) object ctors = (evs, Throw e) ->
        stringifyAsArray H S this object dimensions = (evs, Throw e)) /\
     (forall evs plain,
        ser_convertAsArray S (serializer this) object ctors = (evs, Ret plain) ->
        let text := JSON_stringify H plain (replacer this) (indent this) in
        stringifyAsArray H S this object dimensions = (evs ++ events text, outcome text))) /\
  (forall dimensions e,
     elementConstructorArray (default 1%Z dimensions) (rootConstructor this)
       = ([], Throw e) ->
     stringifyAsArray H S this object dimensions = ([], Throw e)).
Proof.
  split; [|split; [|split; [|split; [|split]]]].
  - intros evs e Hser. unfold stringifyAsSet. by rewrite Hser.
  - intros evs plain Hser. unfold stringifyAsSet. by rewrite Hser, bind_events_ret.
  - intros k evs e Hser. unfold stringifyAsMap. by rewrite Hser.
  - intros k evs plain Hser. unfold stringifyAsMap. by rewrite Hser, bind_events_ret.
  - intros dimensions ctors Hctors. split.
    + intros evs e Hser. unfold stringifyAsArray. by rewrite Hctors, bind_quiet, Hser.
    + intros evs plain Hser. unfold stringifyAsArray.
      by rewrite Hctors, bind_quiet, Hser, bind_events_ret.
  - intros dimensions e Hctors. unfold stringifyAsArray. by rewrite Hctors.
Qed.

(** ** The dimensions of an array *)

(** For a number of dimensions [d] from 1 on, the element constructors that
    [stringifyAsArray] hands to the serializer and [parseAsArray] to the
    deserializer are [d - 1] times [Array] and then the root class. *)
Theorem element_constructors_of_a_dimension (this : TypedJSON) (d : Z) :
  (1 <= d <= 4294967296)%Z ->
  exists ctors,
    Z.of_nat (length ctors) = d /\
    last ctors = Some (rootConstructor this) /\
    (forall i c, ctors !! i = Some c -> (Z.of_nat i < d - 1)%Z -> c = CArray) /\
    (forall H S object,
       stringifyAsArray H S this object (Some d)
       = (let! plain := ser_convertAsArray S (serializer this) object ctors in
          JSON_stringify H plain (replacer this) (indent this))) /\
    (forall H D json evs object,
       JSON_parse H json = (evs, Ret object) ->
       instanceof (superclasses H) object CArray = true ->
       let converted :=
         des_convertAsArray D (deserializer this) object
           (parseAsArray_typeInfo this ctors) in
       parseAsArray H D this json (Some d) = (evs ++ events converted, outcome converted)).
Proof.
  intros Hd.
  assert (Hctors : elementConstructorArray d (rootConstructor this)
                   = ret (replicate (Z.to_nat (d - 1)) CArray ++ [rootConstructor this])).
  { unfold elementConstructorArray.
    assert (Hn : (if (d - 1 =? 0)%Z then 0%Z else (d - 1)%Z) = (d - 1)%Z)
      by (destruct (Z.eqb_spec (d - 1) 0); lia).
    rewrite Hn.
    destruct (Z.ltb_spec (d - 1) 0); [lia|].
    destruct (Z.ltb_spec 4294967295 (d - 1)); [lia|]. reflexivity. }
  exists (replicate (Z.to_nat (d - 1)) CArray ++ [rootConstructor this]).
  split; [|split; [|split; [|split]]].
  - rewrite length_app, length_replicate. cbn [length]. lia.
  - apply last_snoc.
  - intros i c Hi Hlt. rewrite lookup_app_l in Hi.
    + by apply lookup_replicate in Hi as [-> _].
    + rewrite length_replicate. lia.
  - intros H S object. unfold stringifyAsArray. cbn [default from_option id].
    by rewrite Hctors, bind_ret.
  - intros H D json evs object Hparse Harr. unfold parseAsArray.
    cbn [default from_option id].
    by rewrite Hparse, bind_events_ret, Harr, Hctors, bind_ret.
Qed.

(** Three dimensions of [Point]. *)
Lemma three_dimensions_witness :
  exists ctors,
    Z.of_nat (length ctors) = 3%Z /\
    last ctors = Some Examples.Point /\
    (forall i c, ctors !! i = Some c -> (Z.of_nat i < 3 - 1)%Z -> c = CArray) /\
    (forall H S object,
       stringifyAsArray H S (fresh Examples.Point) object (Some 3%Z)
       = (let! plain := ser_convertAsArray S (serializer (fresh Examples.Point)) object ctors in
          JSON_stringify H plain None 0%Z)) /\
    (forall H D json evs object,
       JSON_parse H json = (evs, Ret object) ->
       instanceof (superclasses H) object CArray = true ->
       let converted :=
         des_convertAsArray D (deserializer (fresh Examples.Point)) object
           (parseAsArray_typeInfo (fresh Examples.Point) ctors) in
       parseAsArray H D (fresh Examples.Point) json (Some 3%Z)
       = (evs ++ events converted, outcome converted)).
Proof.
  apply (element_constructors_of_a_dimension (fresh Examples.Point) 3). lia.
Defined.

(** A number of dimensions below 1 makes [new Array] throw a [RangeError]:
    [stringifyAsArray] throws it before the serializer is called, and
    [parseAsArray] throws it on every array, after [JSON.parse] and before
    the deserializer is called; the error handler is not told. *)
Theorem dimensions_below_one_throw
    (H : Host) (S : Serializer) (D : Deserializer) (this : TypedJSON) (d : Z) :
  (d < 1)%Z ->
  (forall object,
     stringifyAsArray H S this object (Some d)
     = ([], Throw (RangeError "Invalid array length"))) /\
  (forall json evs object,
     JSON_parse H json = (evs, Ret object) ->
     instanceof (superclasses H) object CArray = true ->
     parseAsArray H D this json (Some d)
     = (evs, Throw (RangeError "Invalid array length"))).
Proof.
  intros Hd.
  assert (Hthrow : elementConstructorArray d (rootConstructor this)
                   = ([], Throw (RangeError "Invalid array length"))).
  { unfold elementConstructorArray.
    destruct (Z.eqb_spec (d - 1) 0); [lia|].
    destruct (Z.ltb_spec (d - 1) 0); [reflexivity|lia]. }
  split.
  - intros object. unfold stringifyAsArray. cbn [default from_option id].
    by rewrite Hthrow.
  - intros json evs object Hparse Harr. unfold parseAsArray. cbn [default from_option id].
    rewrite Hparse, bind_events_ret, Harr, Hthrow. cbn. by rewrite app_nil_r.
Qed.

(** No dimension at all. *)
Lemma zero_dimensions_witness :
  stringifyAsArray Examples.host Examples.serializer (fresh Examples.Point) (VArr [])
    (Some 0%Z)
  = ([], Throw (RangeError "Invalid array length")).
Proof.
  apply (dimensions_below_one_throw Examples.host Examples.serializer Examples.deserializer
           (fresh Examples.Point) 0). lia.
Defined.

(** ** The empty string of [stringify] *)

(** A point that the serializer fails on, where [stringify] returns the
    empty string: the point is an instance of the root class, and the
    conversion threw. *)
Lemma empty_string_witness :
  instanceof (superclasses Examples.host) (VObj Examples.Point [])
    (rootConstructor (fresh Examples.Point)) = true /\
  ((exists e,
      outcome (stringify_conversion Examples.host Scenarios.failing_serializer
                 (fresh Examples.Point) (VObj Examples.Point [])) = Throw e) \/
   outcome (stringify_conversion Examples.host Scenarios.failing_serializer
              (fresh Examples.Point) (VObj Examples.Point [])) = Ret (VStr "")).
Proof.
  exact (stringify_empty_string Examples.host Scenarios.failing_serializer
           (fresh Examples.Point) (VObj Examples.Point []) eq_refl).
Defined.

(** ** What the error handler decides *)

(** With an error handler that returns on every error (the logging handler
    a converter starts with is one), [parse] throws only what its name
    resolver throws while the table of known types is built, before the
    [try] block: when the resolver returns on every known type, [parse]
    returns on every text, and otherwise the first exception of the resolver
    leaves [parse] with the error handler not told.  [stringify], which
    never calls the name resolver, returns on every argument but [undefined]
    and [null]. *)
Theorem returning_handler_means_no_exception
    (H : Host) (S : Serializer) (D : Deserializer) (this : TypedJSON)
    (throws : Resolving.Throws) :
  (forall e, exists evs, errorHandler this e = (evs, Ret tt)) ->
  (forall json,
     match omap throws (Resolving.resolved_by_parse H this) with
     | [] => exists v, outcome (Resolving.parse throws H D this json) = Ret v
     | e :: _ => Resolving.parse throws H D this json = ([], Throw e)
     end) /\
  (forall object,
     object <> VUndefined -> object <> VNull ->
     exists v, outcome (stringify H S this object) = Ret v).
Proof.
  intros Hquiet.
  assert (Hcatch : forall (m : M val) fallback,
    exists v, outcome (try_catch m (fun e => call_errorHandler this e ;; ret fallback))
              = Ret v).
  { intros [evs [v|e]] fallback.
    - exists v. reflexivity.
    - rewrite try_catch_throw, call_errorHandler_eq.
      destruct (Hquiet e) as [hevs ->]. exists fallback. reflexivity. }
  split.
  - intros json. unfold Resolving.parse.
    destruct (omap throws (Resolving.resolved_by_parse H this)); [|reflexivity].
    apply Hcatch.
  - intros object Hu Hn. unfold stringify.
    destruct (instanceof (superclasses H) object (rootConstructor this)); cbn [negb].
    + apply Hcatch.
    + unfold stringify_type_error.
      destruct (constructor_of object) as [c|] eqn:Hc.
      * rewrite bind_ret, call_errorHandler_eq.
        destruct (Hquiet (TypeError ("Expected object type to be '"
                    +:+ nameof (rootConstructor this) +:+ "', got '" +:+ nameof c +:+ "'.")))
          as [hevs ->].
        exists VUndefined. reflexivity.
      * destruct object; try discriminate; congruence.
Qed.

(** The converter a constructor leaves, on a text that is no JSON, with a
    name resolver that returns. *)
Lemma logging_handler_witness :
  exists v,
    outcome (Resolving.parse (fun _ => None) Examples.host Examples.deserializer
               (fresh Examples.Point) "{") = Ret v.
Proof.
  exact (proj1 (returning_handler_means_no_exception Examples.host Examples.serializer
                  Examples.deserializer (fresh Examples.Point) (fun _ => None)
                  (fun e => ex_intro _ [ConsoleErrorExn e] eq_refl)) "{").
Defined.



(** A number, a string or a boolean is an instance of no constructor, not
    even of [Number], [String] or [Boolean]: whatever the root class,
    [stringify] passes a [TypeError] to the error handler and returns
    [undefined] when the handler returns, and the serializer has no part in
    the result. *)
Theorem stringify_rejects_primitives
    (H : Host) (S : Serializer) (this : TypedJSON) (object : val) :
  typeof object ∈ ["number"; "string"; "boolean"] ->
  exists c,
    constructor_of object = Some c /\ c ∈ [CNumber; CString; CBoolean] /\
    handled_with this
      (TypeError ("Expected object type to be '" +:+ nameof (rootConstructor this)
                    +:+ "', got '" +:+ nameof c +:+ "'."))
      VUndefined (stringify H S this object) /\
    forall S', stringify H S this object = stringify H S' this object.
Proof.
  intros Hprim.
  assert (Hshape : (exists n, object = VNum n) \/ (exists s, object = VStr s)
                   \/ (exists b, object = VBool b)).
  { rewrite !elem_of_cons, elem_of_nil in Hprim.
    destruct object; cbn in Hprim; eauto;
      destruct Hprim as [Hp|[Hp|[Hp|[]]]]; discriminate. }
  assert (Hchain : prototype_chain (superclasses H) object = [])
    by (destruct Hshape as [[? ->]|[[? ->]|[? ->]]]; reflexivity).
  assert (Hctor : exists c, constructor_of object = Some c /\
                            c ∈ [CNumber; CString; CBoolean]).
  { destruct Hshape as [[? ->]|[[? ->]|[? ->]]]; eexists; (split; [reflexivity|]);
      rewrite !elem_of_cons; auto. }
  destruct Hctor as (c & Hctor & Hc).
  exists c. split; [exact Hctor|]. split; [exact Hc|].
  pose proof (primitive_instanceof (superclasses H) object (rootConstructor this) Hchain)
    as Hinst.
  split.
  - exact (proj1 (stringify_of_a_foreign_value H S S this object c Hinst Hctor)).
  - intros S'. exact (proj2 (stringify_of_a_foreign_value H S S' this object c Hinst Hctor)).
Qed.

(** The number 5 given to a converter of [Number]. *)
Lemma primitive_number_witness :
  exists c,
    constructor_of (VNum 5) = Some c /\ c ∈ [CNumber; CString; CBoolean] /\
    handled_with (fresh CNumber)
      (TypeError ("Expected object type to be '" +:+ nameof CNumber
                    +:+ "', got '" +:+ nameof c +:+ "'."))
      VUndefined (stringify Examples.host Examples.serializer (fresh CNumber) (VNum 5)) /\
    forall S', stringify Examples.host Examples.serializer (fresh CNumber) (VNum 5)
               = stringify Examples.host S' (fresh CNumber) (VNum 5).
Proof.
  apply (stringify_rejects_primitives Examples.host Examples.serializer (fresh CNumber)
           (VNum 5)).
  cbn. rewrite elem_of_cons. by left.
Defined.

(** ** Entries of a known-types table *)

Lemma last_named_Some resolver n l c :
  last_named resolver n l = Some c -> resolver c = n /\ c ∈ l.
Proof.
  unfold last_named. intros Hlast.
  apply last_Some_elem_of in Hlast. by apply list_elem_of_filter in Hlast.
Qed.

Lemma elem_of_defined_ctors kts c :
  c ∈ defined_ctors kts <-> Settings.KtCtor c ∈ kts.
Proof.
  unfold defined_ctors. rewrite list_elem_of_omap. split.
  - intros (kt & Hin & Hkt). destruct kt; try discriminate. by injection Hkt as ->.
  - intros Hin. exists (Settings.KtCtor c). by split.
Qed.

Lemma table_entry resolver l n c :
  foldl (set_knownType resolver) ∅ l !! n = Some c -> resolver c = n /\ c ∈ l.
Proof.
  rewrite lookup_foldl_set_knownType, lookup_empty.
  destruct (last_named resolver n l) as [c'|] eqn:Hlast; [|discriminate].
  intros [= ->]. by apply last_named_Some.
Qed.

Lemma last_named_injective resolver l c :
  (forall c', c' ∈ l -> resolver c' = resolver c -> c' = c) ->
  c ∈ l -> last_named resolver (resolver c) l = Some c.
Proof.
  intros Hinj Hin. unfold last_named.
  destruct (last (filter (fun c' => resolver c' = resolver c) l)) as [c'|] eqn:Hlast.
  - apply last_Some_elem_of, list_elem_of_filter in Hlast as [Hname Hin'].
    f_equal. by apply Hinj.
  - apply last_None in Hlast.
    assert (Hc : c ∈ filter (fun c' => resolver c' = resolver c) l)
      by (by apply list_elem_of_filter).
    rewrite Hlast in Hc. by apply elem_of_nil in Hc.
Qed.

(** Every entry of a known-types table holds, under the name the converter's
    name resolver gives it, a constructor that was listed: one of the
    defined elements of the array for the table of [_mapKnownTypes], one of
    those or a known type of the root class for the table of [parse].  An
    undefined or null element of the array never reaches a table. *)
Theorem known_type_entries_are_listed_and_named
    (H : Host) (this : TypedJSON) (n : string) (c : Ctor) :
  (forall constructors,
     _mapKnownTypes this constructors !! n = Some c ->
     nameResolver this c = n /\ Settings.KtCtor c ∈ constructors) /\
  (parse_knownTypes H this !! n = Some c ->
   nameResolver this c = n /\
   (Settings.KtCtor c ∈ globalKnownTypes this \/ c ∈ root_knownTypes H this)).
Proof.
  split.
  - intros constructors Hlookup. unfold _mapKnownTypes in Hlookup.
    apply table_entry in Hlookup as [Hname Hin].
    split; [exact Hname|]. by apply elem_of_defined_ctors.
  - intros Hlookup.
    rewrite parse_knownTypes_eq in Hlookup. unfold _mapKnownTypes in Hlookup.
    rewrite <- foldl_app in Hlookup.
    apply table_entry in Hlookup as [Hname Hin].
    split; [exact Hname|].
    apply elem_of_app in Hin as [Hin|Hin]; [left|by right].
    by apply elem_of_defined_ctors.
Qed.

(** The entry of the two accounts. *)
Lemma listed_and_named_witness :
  nameResolver Examples.accounts_converter Examples.LegacyAccount = "Account" /\
  Settings.KtCtor Examples.LegacyAccount ∈ globalKnownTypes Examples.accounts_converter.
Proof.
  apply (proj1 (known_type_entries_are_listed_and_named Examples.host
                  Examples.accounts_converter "Account" Examples.LegacyAccount)).
  vm_compute. reflexivity.
Defined.

(** When no two of the listed constructors resolve to one name, no known
    type is lost: each defined element of the array is found in the table
    of [_mapKnownTypes] under its name. *)
Theorem distinct_names_lose_no_known_type
    (this : TypedJSON) (constructors : list Settings.KnownTypeEntry) :
  (forall c c', Settings.KtCtor c ∈ constructors -> Settings.KtCtor c' ∈ constructors ->
     nameResolver this c = nameResolver this c' -> c = c') ->
  forall c, Settings.KtCtor c ∈ constructors ->
    _mapKnownTypes this constructors !! nameResolver this c = Some c.
Proof.
  intros Hinj c Hin. unfold _mapKnownTypes.
  rewrite lookup_foldl_set_knownType.
  rewrite (last_named_injective (nameResolver this) (defined_ctors constructors) c).
  - reflexivity.
  - intros c' Hin' Hname. symmetry. apply Hinj; [exact Hin| |by symmetry].
    by apply elem_of_defined_ctors.
  - by apply elem_of_defined_ctors.
Qed.

(** [Shape] and [Circle] around an undefined element. *)
Lemma distinct_names_witness :
  _mapKnownTypes (fresh Examples.Point)
    [Settings.KtCtor Examples.Shape; Settings.KtUndefined; Settings.KtCtor Examples.Circle]
    !! nameResolver (fresh Examples.Point) Examples.Shape
  = Some Examples.Shape.
Proof.
  apply (distinct_names_lose_no_known_type (fresh Examples.Point)
           [Settings.KtCtor Examples.Shape; Settings.KtUndefined;
            Settings.KtCtor Examples.Circle]).
  - intros c c' Hc Hc' Hname.
    rewrite !elem_of_cons, elem_of_nil in Hc, Hc'.
    destruct Hc as [[= ->]|[[=]|[[= ->]|[]]]];
      destruct Hc' as [[= ->]|[[=]|[[= ->]|[]]]];
      try reflexivity; discriminate.
  - rewrite elem_of_cons. by left.
Defined.

(** The known types of the settings and those of the global configuration
    both reach the table of the container parsers: for a converter
    constructed under a global configuration, each constructor listed in
    either array is found under its name, when no two of them resolve to
    one name. *)
Theorem configured_known_types_reach_the_table
    (H : Host) (g s : Settings.ITypedJSONSettings) (root : Ctor)
    (kts gkts : list Settings.KnownTypeEntry) (evs : list Event) (this : TypedJSON) :
  Settings.knownTypes s = Given kts ->
  Settings.knownTypes g = Given gkts ->
  new_TypedJSON H (Some g) root (Some s) = (evs, Ret this) ->
  (forall c c', Settings.KtCtor c ∈ kts ++ gkts -> Settings.KtCtor c' ∈ kts ++ gkts ->
     nameResolver this c = nameResolver this c' -> c = c') ->
  forall c, Settings.KtCtor c ∈ kts ++ gkts ->
    _mapKnownTypes this (globalKnownTypes this) !! nameResolver this c = Some c.
Proof.
  intros Hs Hg Hnew Hinj c Hin.
  assert (Hcfg : config (Some g) (fresh root) s = (evs, Ret this)).
  { destruct (root_check H root) eqn:Hroot.
    - rewrite (not_registered_throws H _ root _ Hroot) in Hnew. discriminate.
    - by rewrite (registered_constructs H _ root _ Hroot) in Hnew. }
  destruct (config_fields (Some g) (fresh root) s) as (this0 & Hcfg0 & Hfields).
  rewrite Hcfg in Hcfg0. injection Hcfg0 as _ <-.
  destruct Hfields as (_ & _ & _ & _ & _ & _ & _ & _ & _ & Hk & _).
  rewrite merge_global_knownTypes, Hs, Hg in Hk. cbn in Hk.
  assert (Hmem : forall kt, kt ∈ globalKnownTypes this <-> kt ∈ kts ++ gkts).
  { intros kt. rewrite Hk. apply elem_of_dedupe. }
  unfold _mapKnownTypes. rewrite lookup_foldl_set_knownType.
  rewrite (last_named_injective (nameResolver this)
             (defined_ctors (globalKnownTypes this)) c).
  - reflexivity.
  - intros c' Hin' Hname. symmetry.
    apply Hinj; [exact Hin| |by symmetry].
    by apply Hmem, elem_of_defined_ctors.
  - by apply elem_of_defined_ctors, Hmem.
Qed.

(** [Shape] from the settings and [Circle] from the global configuration. *)
Lemma configured_known_types_witness :
  _mapKnownTypes Scenarios.shapes_converter (globalKnownTypes Scenarios.shapes_converter)
    !! nameResolver Scenarios.shapes_converter Examples.Circle
  = Some Examples.Circle.
Proof.
  apply (configured_known_types_reach_the_table Examples.host
           (Examples.known [Examples.Circle]) (Examples.known [Examples.Shape])
           Examples.Point
           [Settings.KtCtor Examples.Shape] [Settings.KtCtor Examples.Circle]
           [] Scenarios.shapes_converter eq_refl eq_refl eq_refl).
  - intros c c' Hc Hc' Hname. cbn [app] in Hc, Hc'.
    rewrite !elem_of_cons, elem_of_nil in Hc, Hc'.
    destruct Hc as [[= ->]|[[= ->]|[]]];
      destruct Hc' as [[= ->]|[[= ->]|[]]];
      try reflexivity; discriminate.
  - cbn [app]. rewrite !elem_of_cons. right. by left.
Defined.

(** * Further properties of the member decorators *)

Section MoreDecoratorProperties.

Import Metadata Decorators.

Variable R : Reflection.

(** The decorator factory of [jsonMember] never takes the property
    constructor from ReflectDecorators: it takes what reading
    [options.constructor] gives, and that is [Object] when the options have
    no [constructor] of their own (or when there are no options).  Such a
    member is registered with [Object] as its constructor, whatever the
    declared type of the property, with the two flags [false] unless the
    options say otherwise. *)
Theorem jsonMember_factory_ignores_the_design_type
    (options : option MemberOptions.IJsonMemberOptions) (target : Ctor) (propKey : string) :
  resolved_ctor R (Factory options target propKey)
    = MemberOptions.read_constructor (default MemberOptions.empty options) /\
  (MemberOptions.constructor (default MemberOptions.empty options) = Absent ->
   resolved_ctor R (Factory options target propKey) = Some CObject /\
   forall st, exists warnings,
     jsonMember R (Factory options target propKey) st
     = injectMetadataInformation target propKey
         {| ctor := CObject; elementType := []; keyType := None;
            key := propKey; name := propKey;
            isRequired :=
              Some (or_false (MemberOptions.isRequired (default MemberOptions.empty options)));
            emitDefaultValue :=
              Some (or_false
                      (MemberOptions.emitDefaultValue (default MemberOptions.empty options))) |}
         {| registry := registry st; console := console st ++ warnings |} /\
     (warnings = [] \/ exists w, warnings = [ConsoleWarn w])).
Proof.
  assert (Hres : resolved_ctor R (Factory options target propKey)
                 = MemberOptions.read_constructor (default MemberOptions.empty options)).
  { cbn [resolved_ctor]. unfold resolve_propCtor.
    cbn [typeof_boolean truthy_string String.eqb negb].
    destruct (MemberOptions.read_constructor _) as [c|]; reflexivity. }
  split; [exact Hres|].
  intros Habsent.
  assert (Hread : MemberOptions.read_constructor (default MemberOptions.empty options)
                  = Some CObject)
    by (unfold MemberOptions.read_constructor; by rewrite Habsent).
  split; [by rewrite Hres|].
  intros st. cbn [jsonMember]. unfold jsonMember_factory, resolve_propCtor.
  cbn [typeof_boolean truthy_string String.eqb negb]. rewrite Hread.
  destruct (isReflectMetadataSupported R
            && negb (isSubtypeOf R CObject (designType R target propKey))).
  - eexists. rewrite isSpecialPropertyType_other by reflexivity.
    split; [reflexivity|]. right. eauto.
  - exists []. rewrite isSpecialPropertyType_other by reflexivity.
    split; [|by left]. destruct st; cbn. by rewrite app_nil_r.
Qed.

(** On a string key [jsonMember] reports once or registers once.  When it
    resolves no property constructor it logs one error and leaves the
    registry as it was.  When it resolves one that is no container it
    registers one member of that constructor under the property key, with
    the key as its name and no element or key type, after at most one
    warning. *)
Lemma jsonMember_on_a_string_key (call : JsonMemberCall) (st : RegState) :
  let '(target, propKey) :=
    match call with
    | Direct target propKey => (target, propKey)
    | Factory _ target propKey => (target, propKey)
    end in
  match resolved_ctor R call with
  | None =>
      registry (jsonMember R call st) = registry st /\
      exists msg, console (jsonMember R call st) = console st ++ [ConsoleError msg]
  | Some c =>
      is_container c = false ->
      exists m warnings,
        jsonMember R call st
        = injectMetadataInformation target propKey m
            {| registry := registry st; console := console st ++ warnings |} /\
        ctor m = c /\ key m = propKey /\ name m = propKey /\
        elementType m = [] /\ keyType m = None /\
        (warnings = [] \/ exists w, warnings = [ConsoleWarn w])
  end.
Proof.
  destruct call as [target propKey|options target propKey];
    cbn [resolved_ctor jsonMember].
  - unfold jsonMember_direct.
    destruct (isReflectMetadataSupported R);
      [|split; [reflexivity|eexists; reflexivity]].
    destruct (designType R target propKey) as [c|];
      [|split; [reflexivity|eexists; reflexivity]].
    intros Hc. rewrite isSpecialPropertyType_other by exact Hc.
    eexists _, []. split; [destruct st; cbn; by rewrite app_nil_r|].
    repeat (split; [reflexivity|]). by left.
  - unfold jsonMember_factory, resolve_propCtor.
    cbn [typeof_boolean truthy_string String.eqb negb].
    destruct (MemberOptions.read_constructor (default MemberOptions.empty options))
      as [c|]; cbn [fst];
      [|split; [reflexivity|eexists; reflexivity]].
    intros Hc.
    destruct (isReflectMetadataSupported R
              && negb (isSubtypeOf R c (designType R target propKey))).
    + rewrite isSpecialPropertyType_other by exact Hc.
      eexists _, _. split; [reflexivity|].
      repeat (split; [reflexivity|]). right. eauto.
    + rewrite isSpecialPropertyType_other by exact Hc.
      eexists _, []. split; [destruct st; cbn; by rewrite app_nil_r|].
      repeat (split; [reflexivity|]). by left.
Qed.

(** On a string key and with options that are not [null], [jsonSetMember]
    registers or reports.  It registers exactly when its element constructor
    is a function and the property is declared as a [Set] (or
    ReflectDecorators is not loaded): then one member goes under the
    property key, with the constructor [Set] and the element constructor as
    its only element type, and nothing is logged.  Otherwise the registry
    stays as it was and one error is logged. *)
Lemma jsonSetMember_on_a_string_key
    (elementConstructor : option Ctor)
    (options : option SetMemberOptions.IJsonSetMemberOptions)
    (target : Ctor) (propKey : string) (st : RegState) :
  let declared_as_a_set :=
    negb (isReflectMetadataSupported R)
    || bool_decide (designType R target propKey = Some CSet) in
  let st' := jsonSetMember R elementConstructor options target propKey st in
  (exists c m,
     elementConstructor = Some c /\ declared_as_a_set = true /\
     st' = injectMetadataInformation target propKey m st /\
     ctor m = CSet /\ elementType m = [c] /\ keyType m = None /\
     key m = propKey /\ name m = propKey /\
     isRequired m
     = Some (or_false (SetMemberOptions.isRequired
                         (default SetMemberOptions.empty options))) /\
     emitDefaultValue m
     = Some (or_false (SetMemberOptions.emitDefaultValue
                         (default SetMemberOptions.empty options)))) \/
  ((elementConstructor = None \/ declared_as_a_set = false) /\
   registry st' = registry st /\
   exists msg, console st' = console st ++ [ConsoleError msg]).
Proof.
  unfold jsonSetMember. destruct elementConstructor as [c|].
  - destruct (isReflectMetadataSupported R); cbn [negb orb andb].
    + destruct (bool_decide (designType R target propKey = Some CSet)); cbn [negb].
      * left. eexists c, _. repeat (split; [reflexivity|]). reflexivity.
      * right. split; [by right|]. split; [reflexivity|]. eexists. reflexivity.
    + left. eexists c, _. repeat (split; [reflexivity|]). reflexivity.
  - right. split; [by left|]. split; [reflexivity|]. eexists. reflexivity.
Qed.

(** ** The decorators on any key *)

(** [jsonMember] throws, reports once or registers once.  On a symbol key
    it throws a [TypeError] building its name, before anything is logged or
    registered.  On a string key, when it resolves no property constructor
    it logs one error and leaves the registry as it was, and when it
    resolves one that is no container it registers one member of that
    constructor under the property key, with the key as its name and no
    element or key type, after at most one warning. *)
Theorem jsonMember_reports_or_registers (call : Keyed.JsonMemberCall) (st : RegState) :
  let '(target, propKey, on_string) :=
    match call with
    | Keyed.Direct target propKey => (target, propKey, Direct target)
    | Keyed.Factory options target propKey => (target, propKey, Factory options target)
    end in
  match propKey with
  | Keyed.SymbolKey _ =>
      Keyed.jsonMember R call st
      = ([], Throw (TypeError "Cannot convert a Symbol value to a string"))
  | Keyed.StringKey propKey =>
      exists st',
        Keyed.jsonMember R call st = ([], Ret st') /\
        match resolved_ctor R (on_string propKey) with
        | None =>
            registry st' = registry st /\
            exists msg, console st' = console st ++ [ConsoleError msg]
        | Some c =>
            is_container c = false ->
            exists m warnings,
              st' = injectMetadataInformation target propKey m
                      {| registry := registry st; console := console st ++ warnings |} /\
              ctor m = c /\ key m = propKey /\ name m = propKey /\
              elementType m = [] /\ keyType m = None /\
              (warnings = [] \/ exists w, warnings = [ConsoleWarn w])
        end
  end.
Proof.
  destruct call as [target [propKey|d]|options target [propKey|d]]; try reflexivity.
  - eexists. split; [reflexivity|].
    exact (jsonMember_on_a_string_key (Direct target propKey) st).
  - eexists. split; [reflexivity|].
    exact (jsonMember_on_a_string_key (Factory options target propKey) st).
Qed.

(** [jsonSetMember] throws, registers or reports.  On a symbol key it
    throws a [TypeError] building its name, before anything is logged or
    registered.  On a string key it accepts the member exactly when its
    element constructor is a function and the property is declared as a
    [Set] (or ReflectDecorators is not loaded); the element constructor
    itself is not looked at.  An accepted member is registered under the
    property key, with the constructor [Set] and the element constructor as
    its only element type, and nothing is logged, unless the options are
    [null]: then reading them throws, and nothing is registered.  A member
    that is not accepted leaves the registry as it was and one error
    logged, whatever the options. *)
Theorem jsonSetMember_registers_sets_only
    (elementConstructor : option Ctor) (options : Keyed.SetMemberOptionsArg)
    (target : Ctor) (propKey : Keyed.PropertyKey) (st : RegState) :
  match propKey with
  | Keyed.SymbolKey _ =>
      Keyed.jsonSetMember R elementConstructor options target propKey st
      = ([], Throw (TypeError "Cannot convert a Symbol value to a string"))
  | Keyed.StringKey key_text =>
      let declared_as_a_set :=
        negb (isReflectMetadataSupported R)
        || bool_decide (designType R target key_text = Some CSet) in
      match elementConstructor with
      | Some c =>
          if declared_as_a_set then
            match options with
            | Keyed.NullOptions =>
                Keyed.jsonSetMember R elementConstructor options target propKey st
                = ([], Throw (TypeError "Cannot read property 'emitDefaultValue' of null"))
            | _ =>
                let given :=
                  match options with
                  | Keyed.Options o => o
                  | _ => SetMemberOptions.empty
                  end in
                exists m,
                  Keyed.jsonSetMember R elementConstructor options target propKey st
                  = ([], Ret (injectMetadataInformation target key_text m st)) /\
                  ctor m = CSet /\ elementType m = [c] /\ keyType m = None /\
                  key m = key_text /\ name m = key_text /\
                  isRequired m = Some (or_false (SetMemberOptions.isRequired given)) /\
                  emitDefaultValue m
                  = Some (or_false (SetMemberOptions.emitDefaultValue given))
            end
          else
            exists st' msg,
              Keyed.jsonSetMember R elementConstructor options target propKey st
              = ([], Ret st') /\
              registry st' = registry st /\ console st' = console st ++ [ConsoleError msg]
      | None =>
          exists st' msg,
            Keyed.jsonSetMember R elementConstructor options target propKey st
            = ([], Ret st') /\
            registry st' = registry st /\ console st' = console st ++ [ConsoleError msg]
      end
  end.
Proof.
  destruct propKey as [key_text|d]; [|reflexivity].
  cbn zeta.
  assert (Haccepts : Keyed.accepts_a_set R elementConstructor target key_text
                     = match elementConstructor with
                       | Some _ =>
                           negb (isReflectMetadataSupported R)
                           || bool_decide (designType R target key_text = Some CSet)
                       | None => false
                       end).
  { unfold Keyed.accepts_a_set. destruct elementConstructor; [|reflexivity].
    destruct (isReflectMetadataSupported R), (bool_decide _); reflexivity. }
  assert (Hstring : forall o,
            let st' := jsonSetMember R elementConstructor o target key_text st in
            match elementConstructor with
            | Some c =>
                if negb (isReflectMetadataSupported R)
                   || bool_decide (designType R target key_text = Some CSet)
                then
                  exists m,
                    st' = injectMetadataInformation target key_text m st /\
                    ctor m = CSet /\ elementType m = [c] /\ keyType m = None /\
                    key m = key_text /\ name m = key_text /\
                    isRequired m
                    = Some (or_false (SetMemberOptions.isRequired
                                        (default SetMemberOptions.empty o))) /\
                    emitDefaultValue m
                    = Some (or_false (SetMemberOptions.emitDefaultValue
                                        (default SetMemberOptions.empty o)))
                else
                  registry st' = registry st /\
                  exists msg, console st' = console st ++ [ConsoleError msg]
            | None =>
                registry st' = registry st /\
                exists msg, console st' = console st ++ [ConsoleError msg]
            end).
  { intros o. cbn zeta.
    destruct (jsonSetMember_on_a_string_key elementConstructor o target key_text st)
      as [(c & m & -> & Hset & Hreg)|([Hnone|Hnot] & Hreg & Hlog)]; cbn zeta in *.
    - rewrite Hset. by exists m.
    - subst elementConstructor. by split.
    - rewrite Hnot. destruct elementConstructor; by split. }
  unfold Keyed.jsonSetMember. cbn [Keyed.text_of]. rewrite bind_ret, Haccepts.
  destruct elementConstructor as [c|].
  - destruct (negb (isReflectMetadataSupported R)
              || bool_decide (designType R target key_text = Some CSet)) eqn:Hset.
    + destruct options as [| |o]; [|reflexivity|].
      * pose proof (Hstring None) as Hs. cbv beta iota zeta in Hs.
        destruct Hs as (m & -> & Hm). by exists m.
      * pose proof (Hstring (Some o)) as Hs. cbv beta iota zeta in Hs.
        destruct Hs as (m & -> & Hm). by exists m.
    + destruct options as [| |o].
      * pose proof (Hstring None) as Hs. cbv beta iota zeta in Hs.
        destruct Hs as (Hreg & msg & Hlog). by eexists _, msg.
      * pose proof (Hstring None) as Hs. cbv beta iota zeta in Hs.
        destruct Hs as (Hreg & msg & Hlog). by eexists _, msg.
      * pose proof (Hstring (Some o)) as Hs. cbv beta iota zeta in Hs.
        destruct Hs as (Hreg & msg & Hlog). by eexists _, msg.
  - destruct options as [| |o].
    + pose proof (Hstring None) as Hs. cbv beta iota zeta in Hs.
      destruct Hs as (Hreg & msg & Hlog). by eexists _, msg.
    + pose proof (Hstring None) as Hs. cbv beta iota zeta in Hs.
      destruct Hs as (Hreg & msg & Hlog). by eexists _, msg.
    + pose proof (Hstring (Some o)) as Hs. cbv beta iota zeta in Hs.
      destruct Hs as (Hreg & msg & Hlog). by eexists _, msg.
Qed.

(** ** Members of the registry *)

Lemma inject_keeps_every_member (P : JsonMemberMetadata -> Prop) target propKey m st :
  P m -> Invariants.every_member P (registry st) ->
  Invariants.every_member P (registry (injectMetadataInformation target propKey m st)).
Proof.
  intros Hm Hinv c md m' Hlookup Hin.
  cbn [injectMetadataInformation registry] in Hlookup.
  destruct (bool_decide (c = target)) eqn:Hc.
  - injection Hlookup as <-. cbn [dataMembers] in Hin.
    apply set_member_elem in Hin as [->|Hin]; [exact Hm|].
    destruct (registry st target) as [md0|] eqn:Htarget; cbn in Hin.
    + exact (Hinv target md0 m' Htarget Hin).
    + by apply not_elem_of_nil in Hin.
  - exact (Hinv c md m' Hlookup Hin).
Qed.

Lemma decorate_keeps_as_decorated d st :
  Invariants.every_member Invariants.as_decorated (registry st) ->
  Invariants.every_member Invariants.as_decorated (registry (decorate R st d)).
Proof.
  intros Hinv. destruct d as [[target propKey|options target propKey]|e o target propKey];
    cbn [decorate jsonMember].
  - unfold jsonMember_direct.
    destruct (isReflectMetadataSupported R); [|exact Hinv].
    destruct (designType R target propKey) as [c|]; [|exact Hinv].
    destruct (is_container c) eqn:Hc.
    + destruct (isSpecialPropertyType_container c
                  (decorator_name "@jsonMember" target propKey) st Hc) as [msg ->].
      exact Hinv.
    + rewrite isSpecialPropertyType_other by exact Hc.
      apply inject_keeps_every_member; [|exact Hinv].
      split; [reflexivity|]. split; [reflexivity|]. right. by split.
  - unfold jsonMember_factory, resolve_propCtor.
    cbn [typeof_boolean truthy_string String.eqb negb].
    destruct (MemberOptions.read_constructor (default MemberOptions.empty options))
      as [c|]; [|exact Hinv].
    assert (Hst : forall st1, registry st1 = registry st ->
      Invariants.every_member Invariants.as_decorated
        (registry (let '(special, st2) :=
                     isSpecialPropertyType c (decorator_name "@jsonMember" target propKey) st1 in
                   if special then st2
                   else injectMetadataInformation target propKey
                          {| ctor := c; elementType := []; keyType := None;
                             key := propKey; name := propKey;
                             isRequired := Some (or_false (MemberOptions.isRequired
                                (default MemberOptions.empty options)));
                             emitDefaultValue := Some (or_false (MemberOptions.emitDefaultValue
                                (default MemberOptions.empty options))) |} st2))).
    { intros st1 Hreg. destruct (is_container c) eqn:Hc.
      - destruct (isSpecialPropertyType_container c
                    (decorator_name "@jsonMember" target propKey) st1 Hc) as [msg ->].
        cbn [logError registry]. by rewrite Hreg.
      - rewrite isSpecialPropertyType_other by exact Hc.
        apply inject_keeps_every_member; [|by rewrite Hreg].
        split; [reflexivity|]. split; [reflexivity|]. right. by split. }
    destruct (isReflectMetadataSupported R
              && negb (isSubtypeOf R c (designType R target propKey)));
      by apply Hst.
  - unfold jsonSetMember.
    destruct e as [e|]; [|exact Hinv].
    destruct (isReflectMetadataSupported R && _); [exact Hinv|].
    apply inject_keeps_every_member; [|exact Hinv].
    split; [reflexivity|]. split; [reflexivity|]. left. split; [reflexivity|]. eauto.
Qed.

(** Whatever classes are decorated with [jsonMember] and [jsonSetMember],
    and in whatever order, every member of the registry is named by its
    property key and has no key type; it is a [Set] with exactly one element
    type, or no container and without element type. *)
Theorem registered_members_are_as_decorated (ds : list Decoration) :
  Invariants.every_member Invariants.as_decorated
    (registry (decorate_all R ds no_metadata)).
Proof.
  unfold decorate_all.
  assert (Hgen : forall st,
            Invariants.every_member Invariants.as_decorated (registry st) ->
            Invariants.every_member Invariants.as_decorated
              (registry (foldl (decorate R) st ds))).
  { induction ds as [|d ds IH]; intros st Hinv; [exact Hinv|].
    cbn [foldl]. apply IH. by apply decorate_keeps_as_decorated. }
  apply Hgen. intros c md m Hlookup. discriminate.
Qed.

End MoreDecoratorProperties.

(** A property declared as a number, decorated with [jsonMember()]: the
    member is registered as an [Object]. *)
Lemma factory_without_constructor_witness :
  Decorators.resolved_ctor Scenarios.numbers_everywhere
    (Decorators.Factory None Examples.Point "x")
  = Some CObject.
Proof.
  exact (proj1 (proj2 (jsonMember_factory_ignores_the_design_type
                         Scenarios.numbers_everywhere None Examples.Point "x") eq_refl)).
Defined.
